(** * golox: the lexical scanner of [cmd/myinterpreter/main.go]

    A shallow embedding of the scanner, its token and literal model, the
    error reporter and the command-line driver, followed by the properties
    of the specification that were checked against it.  A second part
    adds the prompt and the expression evaluator of
    [cmd/myinterpreter/expr.go], and more properties of the code.

    Conventions.
    - A Go [string] is a sequence of bytes; it is modelled by [string],
      whose characters are the 8-bit [ascii].  [len], indexing and slicing
      are [String.length], [String.get] and [String.substring], with the
      run-time bounds checks of Go written out ([index], [slice]).
    - [start], [current] and [line] are Go [int]s.  They are never negative
      and never exceed [len(source) + 1], so 64-bit arithmetic cannot wrap;
      they are modelled by [nat].
    - Methods with a pointer receiver thread the scanner explicitly; the
      package-level variable [hadError] and the two output streams live in
      a [Process] record.  Both are carried by a small state monad whose
      results also record a run-time panic or a call of [os.Exit].
    - [for] loops are unrolled by a [fuel] argument; running out of fuel is a
      result of its own ([OutOfFuel]) and is proved never to happen. *)

From Stdlib Require Import Strings.String Strings.Ascii Lists.List.
From Stdlib Require Import Arith.Arith Bool.Bool Lia.
From Stdlib Require Import Numbers.DecimalString.
Import ListNotations.

Local Open Scope string_scope.
Local Open Scope nat_scope.

(** ** The parts of the Go standard library the program calls *)

(** [strconv.ParseFloat(_, 64)] and the two [fmt] verbs that render literal
    payloads are library code, not code of the repository: the development
    is parametric in them. *)
Class GoRuntime : Type := {
  float64 : Type;
  (** [strconv.ParseFloat(s, 64)]: the value and whether [err != nil]. *)
  ParseFloat : string -> float64 * bool;
  (** [fmt.Sprintf("%v", f)] for a [float64]. *)
  Sprintf_v : float64 -> string;
  (** [fmt.Sprintf("%q", s)] for a [string]. *)
  Sprintf_q : string -> string
}.

(** [fmt.Sprintf("%d", n)] for a non-negative [int]. *)
Definition Sprintf_d (n : nat) : string :=
  NilEmpty.string_of_uint (Nat.to_uint n).

(** [fmt.Sprintf("%c", b)] for a [byte]: the UTF-8 encoding of the code
    point [b], one byte below 0x80 and two bytes from 0x80 to 0xFF. *)
Definition Sprintf_c (b : ascii) : string :=
  let n := nat_of_ascii b in
  if n <? 128 then String b EmptyString
  else String (ascii_of_nat (192 + n / 64))
         (String (ascii_of_nat (128 + n mod 64)) EmptyString).

(** ** Run-time results and the state monad *)

Inductive RuntimeError : Type :=
| IndexOutOfRange (index length : nat)
| SliceOutOfRange (lo hi length : nat).

(** What a call can do: return, panic, leave through [os.Exit], or (in the
    model only) exhaust the fuel of a loop. *)
Inductive Result (S A : Type) : Type :=
| Ok (a : A) (s : S)
| Panic (e : RuntimeError)
| Exit (code : nat) (s : S)
| OutOfFuel.

Arguments Ok {S A} a s.
Arguments Panic {S A} e.
Arguments Exit {S A} code s.
Arguments OutOfFuel {S A}.

Definition M (S A : Type) : Type := S -> Result S A.

Definition ret {S A} (a : A) : M S A := fun s => Ok a s.

Definition bind {S A B} (m : M S A) (k : A -> M S B) : M S B :=
  fun s =>
    match m s with
    | Ok a s' => k a s'
    | Panic e => Panic e
    | Exit code s' => Exit code s'
    | OutOfFuel => OutOfFuel
    end.

Declare Scope go_scope.
Delimit Scope go_scope with go.
Notation "x <- m ;; k" := (bind m (fun x => k))
  (at level 100, m at next level, right associativity) : go_scope.
Notation "m ;; k" := (bind m (fun _ => k))
  (at level 100, right associativity) : go_scope.
Local Open Scope go_scope.

Definition get {S} : M S S := fun s => Ok s s.
Definition panic {S A} (e : RuntimeError) : M S A := fun _ => Panic e.
Definition os_Exit {S A} (code : nat) : M S A := fun s => Exit code s.

(** [for cond { body }]. *)
Fixpoint while {S} (fuel : nat) (cond : M S bool) (body : M S unit) : M S unit :=
  match fuel with
  | O => b <- cond ;; if b : bool then (fun _ => OutOfFuel) else ret tt
  | S fuel' => b <- cond ;; if b : bool then body ;; while fuel' cond body else ret tt
  end.

(** ** Go strings *)

Definition len (s : string) : nat := String.length s.

(** [s[i]], with its bounds check. *)
Definition index {S} (s : string) (i : nat) : M S ascii :=
  match String.get i s with
  | Some c => ret c
  | None => panic (IndexOutOfRange i (len s))
  end.

(** [s[lo:hi]], with its bounds check. *)
Definition slice {S} (s : string) (lo hi : nat) : M S string :=
  if (lo <=? hi) && (hi <=? len s)
  then ret (substring lo (hi - lo) s)
  else panic (SliceOutOfRange lo hi (len s)).

Definition DQUOTE : ascii := "034"%char.
Definition NEWLINE : ascii := "010"%char.
Definition BACKSLASH : ascii := "092"%char.

(** ** Vocabulary for the statements about strings *)

(** The suffix of a string from an index, the length of the longest prefix
    whose characters satisfy a test, a test that holds of every character,
    and the number of occurrences of a character. *)
Fixpoint drop (n : nat) (s : string) : string :=
  match n, s with
  | O, _ => s
  | S n', String _ s' => drop n' s'
  | S _, EmptyString => EmptyString
  end.

Fixpoint span (P : ascii -> bool) (s : string) : nat :=
  match s with
  | String c s' => if P c then S (span P s') else 0
  | EmptyString => 0
  end.

Fixpoint all (P : ascii -> bool) (s : string) : bool :=
  match s with
  | String c s' => P c && all P s'
  | EmptyString => true
  end.

Fixpoint count (c : ascii) (s : string) : nat :=
  match s with
  | String c' s' => (if Ascii.eqb c' c then 1 else 0) + count c s'
  | EmptyString => 0
  end.

Definition newlines (s : string) : nat := count NEWLINE s.

(** The first character of a string satisfies a test; false of the empty
    string. *)
Definition starts_with (P : ascii -> bool) (s : string) : bool :=
  match s with
  | String c _ => P c
  | EmptyString => false
  end.

(** The byte that [peek] sees at an index: the character there, or the
    zero byte past the end. *)
Definition byte_at (s : string) (i : nat) : ascii :=
  match String.get i s with
  | Some c => c
  | None => "000"%char
  end.

(** The sum of a weight over the characters of a string. *)
Fixpoint weight (w : ascii -> nat) (s : string) : nat :=
  match s with
  | String c s' => w c + weight w s'
  | EmptyString => 0
  end.

(** ** Token kinds *)

Inductive TokenType : Type :=
(* Single-character tokens. *)
| LEFT_PAREN | RIGHT_PAREN | LEFT_BRACE | RIGHT_BRACE
| COMMA | DOT | MINUS | PLUS | SEMICOLON | SLASH | STAR
(* One or two character tokens. *)
| BANG | BANG_EQUAL | EQUAL | EQUAL_EQUAL
| GREATER | GREATER_EQUAL | LESS | LESS_EQUAL
(* Literals. *)
| IDENTIFIER | STRING | NUMBER
(* Keywords. *)
| AND | CLASS | ELSE | FALSE | FUN | FOR | IF | NIL | OR
| PRINT | RETURN | SUPER | THIS | TRUE | VAR | WHILE
(* EOF token *)
| EOF.

(** The [keywords] map literal, as the list of its entries. *)
Definition keywords_entries : list (string * TokenType) :=
  [ ("and", AND); ("class", CLASS); ("else", ELSE); ("false", FALSE);
    ("for", FOR); ("fun", FUN); ("if", IF); ("nil", NIL); ("or", OR);
    ("print", PRINT); ("return", RETURN); ("super", SUPER); ("this", THIS);
    ("true", TRUE); ("var", VAR); ("while", WHILE) ].

(** [_type, ok := keywords[text]]. *)
Fixpoint lookup (entries : list (string * TokenType)) (text : string)
  : option TokenType :=
  match entries with
  | [] => None
  | (k, v) :: rest => if String.eqb k text then Some v else lookup rest text
  end.

Definition keywords (text : string) : option TokenType :=
  lookup keywords_entries text.

(** The value of a kind: the constants are numbered by [iota], from
    [LEFT_PAREN] = 0 to [EOF] = 38. *)
Definition TokenType_int (t : TokenType) : nat :=
  match t with
  | LEFT_PAREN => 0 | RIGHT_PAREN => 1 | LEFT_BRACE => 2 | RIGHT_BRACE => 3
  | COMMA => 4 | DOT => 5 | MINUS => 6 | PLUS => 7 | SEMICOLON => 8
  | SLASH => 9 | STAR => 10
  | BANG => 11 | BANG_EQUAL => 12 | EQUAL => 13 | EQUAL_EQUAL => 14
  | GREATER => 15 | GREATER_EQUAL => 16 | LESS => 17 | LESS_EQUAL => 18
  | IDENTIFIER => 19 | STRING => 20 | NUMBER => 21
  | AND => 22 | CLASS => 23 | ELSE => 24 | FALSE => 25 | FUN => 26
  | FOR => 27 | IF => 28 | NIL => 29 | OR => 30 | PRINT => 31
  | RETURN => 32 | SUPER => 33 | THIS => 34 | TRUE => 35 | VAR => 36
  | WHILE => 37
  | EOF => 38
  end.

(** ** The process: [hadError] and the two output streams *)

(** Each stream is the list of the strings written to it, oldest first. *)
Record Process : Type := {
  hadError : bool;
  stdout : list string;
  stderr : list string
}.

(** [var hadError bool = false], nothing written yet. *)
Definition process_start : Process :=
  {| hadError := false; stdout := []; stderr := [] |}.

Definition Printf (text : string) : M Process unit :=
  fun p => Ok tt {| hadError := hadError p;
                    stdout := stdout p ++ [text];
                    stderr := stderr p |}.

Definition Fprintf_Stderr (text : string) : M Process unit :=
  fun p => Ok tt {| hadError := hadError p;
                    stdout := stdout p;
                    stderr := stderr p ++ [text] |}.

Definition newline : string := String NEWLINE EmptyString.

Definition LoxReport (line : nat) (where_ message : string) : M Process unit :=
  Fprintf_Stderr ("[line " ++ Sprintf_d line ++ "] Error" ++ where_ ++ ": "
                  ++ message ++ newline) ;;
  fun p => Ok tt {| hadError := true; stdout := stdout p; stderr := stderr p |}.

Definition LoxError (line : nat) (message : string) : M Process unit :=
  LoxReport line "" message.

(** ** Literals and tokens *)

Inductive LoxLiteral {rt : GoRuntime} : Type :=
| LoxString (value : string)
| LoxNumber (value : float64)
| LoxEmptyLiteral.

Definition RawPrint {rt : GoRuntime} (l : LoxLiteral) : string :=
  match l with
  | LoxString value => Sprintf_q value
  | LoxNumber value => Sprintf_v value
  | LoxEmptyLiteral => "null"
  end.

(** [fmt.Sprintf("%s", t)] for a [TokenType]: the type is an [int] with
    no [String] or [Error] method, so [fmt] writes the verb, the type and
    the value: [%!s(main.TokenType=36)] for [VAR]. *)
Definition Sprintf_s_TokenType (t : TokenType) : string :=
  "%!s(main.TokenType=" ++ Sprintf_d (TokenType_int t) ++ ")".

Module Token.

Record t {rt : GoRuntime} : Type := mk {
  _type : TokenType;
  lexeme : string;
  literal : LoxLiteral;
  line : nat
}.

(** [fmt.Sprintf("%s %s %s", tok._type, tok.lexeme, tok.literal.RawPrint())] *)
Definition String {rt : GoRuntime} (tok : t) : string :=
  Sprintf_s_TokenType (_type tok) ++ " " ++ lexeme tok ++ " "
  ++ RawPrint (literal tok).

End Token.

Section Golox.

Context {rt : GoRuntime}.

(** ** The scanner *)

Record Scanner : Type := {
  source : string;
  tokens : list Token.t;
  start : nat;
  current : nat;
  line : nat
}.

Definition NewScanner (source : string) : Scanner :=
  {| source := source; tokens := []; start := 0; current := 0; line := 1 |}.

Definition set_tokens (scan : Scanner) (v : list Token.t) : Scanner :=
  {| source := source scan; tokens := v; start := start scan;
     current := current scan; line := line scan |}.
Definition set_start (scan : Scanner) (v : nat) : Scanner :=
  {| source := source scan; tokens := tokens scan; start := v;
     current := current scan; line := line scan |}.
Definition set_current (scan : Scanner) (v : nat) : Scanner :=
  {| source := source scan; tokens := tokens scan; start := start scan;
     current := v; line := line scan |}.
Definition set_line (scan : Scanner) (v : nat) : Scanner :=
  {| source := source scan; tokens := tokens scan; start := start scan;
     current := current scan; line := v |}.

(** A method of [*Scanner] runs on the scanner and the process. *)
Definition ScanM (A : Type) : Type := M (Scanner * Process) A.

Definition this : ScanM Scanner := fun st => Ok (fst st) st.
Definition update (f : Scanner -> Scanner) : ScanM unit :=
  fun st => Ok tt (f (fst st), snd st).

(** A package-level function called from a method. *)
Definition call {A} (m : M Process A) : ScanM A :=
  fun st =>
    match m (snd st) with
    | Ok a p => Ok a (fst st, p)
    | Panic e => Panic e
    | Exit code p => Exit code (fst st, p)
    | OutOfFuel => OutOfFuel
    end.

Definition isAtEnd : ScanM bool :=
  scan <- this ;; ret (len (source scan) <=? current scan).

Definition isDigit (char : ascii) : bool :=
  Ascii.leb "0" char && Ascii.leb char "9".

Definition isAlpha (char : ascii) : bool :=
  (Ascii.leb "a" char && Ascii.leb char "z")
  || (Ascii.leb "A" char && Ascii.leb char "Z")
  || Ascii.eqb char "_".

Definition isAlphaNumeric (char : ascii) : bool :=
  isAlpha char || isDigit char.

Definition advance : ScanM ascii :=
  scan <- this ;;
  ret_ <- index (source scan) (current scan) ;;
  update (fun scan => set_current scan (current scan + 1)) ;;
  ret ret_.

Definition peek : ScanM ascii :=
  atEnd <- isAtEnd ;;
  if atEnd : bool then ret "000"%char
  else scan <- this ;; index (source scan) (current scan).

Definition peekNext : ScanM ascii :=
  scan <- this ;;
  if len (source scan) <? current scan + 1 then ret "000"%char
  else index (source scan) (current scan + 1).

Definition match_ (expected : ascii) : ScanM bool :=
  atEnd <- isAtEnd ;;
  if atEnd : bool then ret false
  else
    scan <- this ;;
    c <- index (source scan) (current scan) ;;
    if negb (Ascii.eqb c expected) then ret false
    else
      update (fun scan => set_current scan (current scan + 1)) ;;
      ret true.

Definition addTokenAndLiteral (_type : TokenType) (literal : LoxLiteral)
  : ScanM unit :=
  scan <- this ;;
  text <- slice (source scan) (start scan) (current scan) ;;
  let tok := Token.mk _ _type text literal (line scan) in
  update (fun scan => set_tokens scan (tokens scan ++ [tok])).

Definition addToken (_type : TokenType) : ScanM unit :=
  addTokenAndLiteral _type LoxEmptyLiteral.

(** The fuel of a loop that advances the cursor: the length of the source
    bounds the number of its iterations. *)
Definition loop_fuel : ScanM nat :=
  scan <- this ;; ret (len (source scan)).

Definition number : ScanM unit :=
  fuel <- loop_fuel ;;
  while fuel (c <- peek ;; ret (isDigit c)) (advance ;; ret tt) ;;
  c <- peek ;;
  (if Ascii.eqb c "." then
     c' <- peekNext ;;
     if isDigit c' then
       (* Consume the "." *)
       advance ;;
       while fuel (c <- peek ;; ret (isDigit c)) (advance ;; ret tt)
     else ret tt
   else ret tt) ;;
  scan <- this ;;
  text <- slice (source scan) (start scan) (current scan) ;;
  let '(number, err) := ParseFloat text in
  let numberLiteral := LoxNumber number in
  addTokenAndLiteral NUMBER numberLiteral.

Definition identifier : ScanM unit :=
  fuel <- loop_fuel ;;
  while fuel (c <- peek ;; ret (isAlphaNumeric c)) (advance ;; ret tt) ;;
  scan <- this ;;
  text <- slice (source scan) (start scan) (current scan) ;;
  let _type := match keywords text with
               | Some _type => _type
               | None => IDENTIFIER
               end in
  addToken _type.

Definition parseString : ScanM unit :=
  fuel <- loop_fuel ;;
  while fuel
    (c <- peek ;; atEnd <- isAtEnd ;;
     ret (negb (Ascii.eqb c DQUOTE) && negb atEnd))
    (c <- peek ;;
     (if Ascii.eqb c NEWLINE
      then update (fun scan => set_line scan (line scan + 1))
      else ret tt) ;;
     advance ;; ret tt) ;;
  atEnd <- isAtEnd ;;
  if atEnd : bool then
    scan <- this ;;
    call (LoxError (line scan) "Unterminated string.")
  else
    (* The closing quote *)
    advance ;;
    (* Trim the surrounding quotes; [advance] has just made [current]
       positive, so [current - 1] is the subtraction of Go *)
    scan <- this ;;
    value <- slice (source scan) (start scan + 1) (current scan - 1) ;;
    addTokenAndLiteral STRING (LoxString value).

(** The [switch char] of [scanToken]. *)
Definition scanToken_switch (char : ascii) : ScanM unit :=
  if Ascii.eqb char "(" then addToken LEFT_PAREN
  else if Ascii.eqb char ")" then addToken RIGHT_PAREN
  else if Ascii.eqb char "{" then addToken LEFT_BRACE
  else if Ascii.eqb char "}" then addToken RIGHT_BRACE
  else if Ascii.eqb char "," then addToken COMMA
  else if Ascii.eqb char "." then addToken DOT
  else if Ascii.eqb char "-" then addToken MINUS
  else if Ascii.eqb char "+" then addToken PLUS
  else if Ascii.eqb char ";" then addToken SEMICOLON
  else if Ascii.eqb char "*" then addToken STAR
  else if Ascii.eqb char "!" then
    b <- match_ "=" ;;
    if b : bool then addToken BANG_EQUAL else addToken BANG
  else if Ascii.eqb char "=" then
    b <- match_ "=" ;;
    if b : bool then addToken EQUAL_EQUAL else addToken EQUAL
  else if Ascii.eqb char "<" then
    b <- match_ "=" ;;
    if b : bool then addToken LESS_EQUAL else addToken LESS
  else if Ascii.eqb char ">" then
    b <- match_ "=" ;;
    if b : bool then addToken GREATER_EQUAL else addToken GREATER
  else if Ascii.eqb char "/" then
    b <- match_ "/" ;;
    if b : bool then
      fuel <- loop_fuel ;;
      while fuel
        (c <- peek ;; atEnd <- isAtEnd ;;
         ret (negb (Ascii.eqb c NEWLINE) && negb atEnd))
        (advance ;; ret tt)
    else addToken SLASH
  else if Ascii.eqb char " " || Ascii.eqb char "013" || Ascii.eqb char "009"
  then ret tt (* Do nothing, skip *)
  else if Ascii.eqb char NEWLINE then
    update (fun scan => set_line scan (line scan + 1))
  else if Ascii.eqb char DQUOTE then parseString
  else
    if isDigit char then number
    else if isAlpha char then identifier
    else
      let message := "Unexpected character: " ++ Sprintf_c char in
      scan <- this ;;
      call (LoxError (line scan) message).

Definition scanToken : ScanM unit :=
  char <- advance ;;
  scanToken_switch char.

Definition ScanTokens : ScanM (list Token.t) :=
  fuel <- loop_fuel ;;
  while fuel (atEnd <- isAtEnd ;; ret (negb atEnd))
    (update (fun scan => set_start scan (current scan)) ;;
     scanToken) ;;
  scan <- this ;;
  let tok := Token.mk _ EOF "" LoxEmptyLiteral (line scan) in
  update (fun scan => set_tokens scan (tokens scan ++ [tok])) ;;
  scan <- this ;;
  ret (tokens scan).

(** ** The driver *)

(** [scanner := NewScanner(source); tokens := scanner.ScanTokens()]: the
    method runs on a scanner local to the caller. *)
Definition with_scanner {A} (scanner : Scanner) (m : ScanM A) : M Process A :=
  fun p =>
    match m (scanner, p) with
    | Ok a st => Ok a (snd st)
    | Panic e => Panic e
    | Exit code st => Exit code (snd st)
    | OutOfFuel => OutOfFuel
    end.

(** [for _, tok := range tokens { fmt.Printf("%s\n", &tok) }] *)
Fixpoint print_tokens (tokens : list Token.t) : M Process unit :=
  match tokens with
  | [] => ret tt
  | tok :: rest => Printf (Token.String tok ++ newline) ;; print_tokens rest
  end.

Definition Run (source : string) : M Process unit :=
  let scanner := NewScanner source in
  tokens <- with_scanner scanner ScanTokens ;;
  (* For now, just print the Tokens *)
  print_tokens tokens.

(** [os.ReadFile]: the contents of the file at a path, or the text of the
    error ([%v]) when it cannot be read. *)
Definition FileSystem : Type := string -> string + string.

Definition RunFile (fs : FileSystem) (path : string) : M Process unit :=
  match fs path with
  | inr err =>
      Fprintf_Stderr ("Error reading file: " ++ err ++ newline) ;;
      os_Exit 1
  | inl fileContents => Run fileContents
  end.

(** [main], given [os.Args] and the file system. *)
Definition main (Args : list string) (fs : FileSystem) : M Process unit :=
  Fprintf_Stderr ("Logs from your program will appear here!" ++ newline) ;;
  if length Args <? 3 then
    Fprintf_Stderr ("Usage: ./your_program.sh tokenize <filename>" ++ newline) ;;
    os_Exit 1
  else
    let command := nth 1 Args "" in
    if negb (String.eqb command "tokenize") then
      Fprintf_Stderr ("Unknown command: " ++ command ++ newline) ;;
      os_Exit 1
    else
      let filename := nth 2 Args "" in
      RunFile fs filename ;;
      p <- get ;;
      if hadError p then os_Exit 65 else ret tt.

(** The exit status of the process: 0 when [main] returns, the argument of
    [os.Exit], and 2 when the Go run time ends the process on a panic. *)
Definition exit_status {A} (r : Result Process A) : option nat :=
  match r with
  | Ok _ _ => Some 0
  | Exit code _ => Some code
  | Panic _ => Some 2
  | OutOfFuel => None
  end.

(** ** Vocabulary for the statements about the scanner *)

(** One turn of the loop of [ScanTokens]: [scan.start = scan.current]
    followed by [scan.scanToken()]. *)
Definition scanStep : ScanM unit :=
  update (fun scan => set_start scan (current scan)) ;;
  scanToken.

(** The token [addTokenAndLiteral] appends in a given scanner state. *)
Definition token_here (scan : Scanner) (_type : TokenType) (literal : LoxLiteral)
  : Token.t :=
  Token.mk _ _type
    (substring (start scan) (current scan - start scan) (source scan))
    literal (line scan).

Definition add_token (scan : Scanner) (_type : TokenType) (literal : LoxLiteral)
  : Scanner :=
  set_tokens scan (tokens scan ++ [token_here scan _type literal]).

Definition not_quote (c : ascii) : bool := negb (Ascii.eqb c DQUOTE).
Definition not_newline (c : ascii) : bool := negb (Ascii.eqb c NEWLINE).

(** The kind [identifier] gives a word. *)
Definition word_type (text : string) : TokenType :=
  match keywords text with
  | Some _type => _type
  | None => IDENTIFIER
  end.

(** The process after [LoxError(line, message)]. *)
Definition reported (p : Process) (line : nat) (message : string) : Process :=
  {| hadError := true;
     stdout := stdout p;
     stderr := stderr p ++ ["[line " ++ Sprintf_d line ++ "] Error: "
                            ++ message ++ newline] |}.

(** The token [number] appends in a given scanner state. *)
Definition number_token (scan : Scanner) : Scanner :=
  add_token scan NUMBER
    (LoxNumber
       (fst (ParseFloat (substring (start scan) (current scan - start scan)
                           (source scan))))).

(** ** What one turn of the loop does *)

(** [mid] is a state inside [scanToken], entered from [scan]: the cursor
    has moved forward within the source, [start] marks where the turn
    began, no token has been added, and [line] has grown by the number of
    newlines gone over. *)
Record Mid (scan mid : Scanner) : Prop := {
  mid_source : source mid = source scan;
  mid_tokens : tokens mid = tokens scan;
  mid_start : start mid = current scan;
  mid_progress : current scan < current mid;
  mid_bound : current mid <= len (source scan);
  mid_line :
    line mid
    = line scan
      + newlines (substring (current scan) (current mid - current scan)
                    (source scan))
}.

(** A turn that returns ends in one of three ways: nothing is emitted, one
    token that is not [EOF] is appended, or one diagnostic is reported. *)
Inductive StepOk (scan : Scanner) (p : Process) : Scanner -> Process -> Prop :=
| step_skip mid :
    Mid scan mid -> StepOk scan p mid p
| step_token mid _type literal :
    Mid scan mid -> _type <> EOF ->
    StepOk scan p (add_token mid _type literal) p
| step_error mid message :
    Mid scan mid -> StepOk scan p mid (reported p (line mid) message).

(** The one way a turn panics: the turn starts on a digit, the digits run
    up to a ['.'], and that ['.'] is the last byte of the source. *)
Definition TrailingDot (scan : Scanner) : Prop :=
  let src := source scan in
  let n := span isDigit (drop (current scan) src) in
  0 < n /\ String.get (current scan + n) src = Some "."%char
  /\ current scan + n + 1 = len src.

Definition StepResult (scan : Scanner) (p : Process)
           (r : Result (Scanner * Process) unit) : Prop :=
  match r with
  | Ok _ (scan', p') => StepOk scan p scan' p'
  | Panic e =>
      e = IndexOutOfRange (len (source scan)) (len (source scan))
      /\ TrailingDot scan
  | Exit _ _ => False
  | OutOfFuel => False
  end.

(** ** What the loop of [ScanTokens] does *)

(** The loop of [ScanTokens]. *)
Definition scanLoop (fuel : nat) : ScanM unit :=
  while fuel (atEnd <- isAtEnd ;; ret (negb atEnd)) scanStep.

Definition not_EOF (tok : Token.t) : Prop := Token._type tok <> EOF.

Definition nonempty {A} (l : list A) : bool :=
  match l with
  | [] => false
  | _ :: _ => true
  end.

(** The summary of any number of turns: the cursor moved forward within
    the source, [line] grew by the newlines gone over, tokens other than
    [EOF] were appended, nothing was printed, and [hadError] was raised if
    and only if a diagnostic was written. *)
Record Advanced (scan : Scanner) (p : Process) (scan' : Scanner) (p' : Process)
  : Prop := {
  adv_source : source scan' = source scan;
  adv_current : current scan <= current scan';
  adv_bound : current scan' <= len (source scan);
  adv_line :
    line scan'
    = line scan
      + newlines (substring (current scan) (current scan' - current scan)
                    (source scan));
  adv_tokens :
    exists toks, tokens scan' = (tokens scan ++ toks)%list /\ Forall not_EOF toks;
  adv_stdout : stdout p' = stdout p;
  adv_stderr :
    exists msgs,
      stderr p' = (stderr p ++ msgs)%list
      /\ hadError p' = hadError p || nonempty msgs
}.

(** The states at the head of the loop of [ScanTokens], from a first one. *)
Inductive LoopReach (st0 : Scanner * Process) : Scanner * Process -> Prop :=
| reach_start : LoopReach st0 st0
| reach_step st st' :
    LoopReach st0 st ->
    current (fst st) < len (source (fst st)) ->
    scanStep st = Ok tt st' ->
    LoopReach st0 st'.

(** The end-of-input token. *)
Definition EOF_token (line : nat) : Token.t :=
  Token.mk _ EOF "" LoxEmptyLiteral line.

Definition LoopResult (scan : Scanner) (p : Process)
           (r : Result (Scanner * Process) unit) : Prop :=
  match r with
  | Ok _ (scan', p') =>
      Advanced scan p scan' p' /\ current scan' = len (source scan)
  | Panic e =>
      e = IndexOutOfRange (len (source scan)) (len (source scan))
      /\ exists scan', source scan' = source scan
                       /\ current scan <= current scan'
                       /\ TrailingDot scan'
  | Exit _ _ => False
  | OutOfFuel => False
  end.

(** ** The process seen from the scanner *)

(** The scanner only ever adds to the process: it appends to the streams
    and raises [hadError].  [pappend p d] is the process [p] followed by
    the additions [d]. *)
Definition pappend (p d : Process) : Process :=
  {| hadError := hadError p || hadError d;
     stdout := stdout p ++ stdout d;
     stderr := stderr p ++ stderr d |}.

Definition shift {A} (p : Process) (r : Result (Scanner * Process) A)
  : Result (Scanner * Process) A :=
  match r with
  | Ok a st => Ok a (fst st, pappend p (snd st))
  | Panic e => Panic e
  | Exit code st => Exit code (fst st, pappend p (snd st))
  | OutOfFuel => OutOfFuel
  end.

(** A method is framed when running it in a process [p] is running it in
    the initial process and putting [p] in front of what it added. *)
Definition Framed {A} (m : ScanM A) : Prop :=
  forall scan p, m (scan, p) = shift p (m (scan, process_start)).

(** A result without the final state. *)
Definition outcome {S A} (r : Result S A) : Result unit A :=
  match r with
  | Ok a _ => Ok a tt
  | Panic e => Panic e
  | Exit code _ => Exit code tt
  | OutOfFuel => OutOfFuel
  end.

(** The scanner states at the head of the loop of [ScanTokens] in a scan
    of [src]. *)
Definition Reach (src : string) (scan : Scanner) : Prop :=
  exists p0 p, LoopReach (NewScanner src, p0) (scan, p).

(** ** Vocabulary for the driver *)

(** The 1-based number of the physical line that holds index [i] of a
    source: one more than the number of newlines before [i]. *)
Definition line_of (src : string) (i : nat) : nat :=
  1 + newlines (substring 0 i src).

(** What [Run] writes for a token: [fmt.Printf("%s\n", &tok)]. *)
Definition record_of (tok : Token.t) : string := Token.String tok ++ newline.

(** The name the specification gives a kind, its [<KIND-NAME>].  The
    program holds no such table. *)
Definition KIND_NAME (t : TokenType) : string :=
  match t with
  | LEFT_PAREN => "LEFT_PAREN" | RIGHT_PAREN => "RIGHT_PAREN"
  | LEFT_BRACE => "LEFT_BRACE" | RIGHT_BRACE => "RIGHT_BRACE"
  | COMMA => "COMMA" | DOT => "DOT" | MINUS => "MINUS" | PLUS => "PLUS"
  | SEMICOLON => "SEMICOLON" | SLASH => "SLASH" | STAR => "STAR"
  | BANG => "BANG" | BANG_EQUAL => "BANG_EQUAL"
  | EQUAL => "EQUAL" | EQUAL_EQUAL => "EQUAL_EQUAL"
  | GREATER => "GREATER" | GREATER_EQUAL => "GREATER_EQUAL"
  | LESS => "LESS" | LESS_EQUAL => "LESS_EQUAL"
  | IDENTIFIER => "IDENTIFIER" | STRING => "STRING" | NUMBER => "NUMBER"
  | AND => "AND" | CLASS => "CLASS" | ELSE => "ELSE" | FALSE => "FALSE"
  | FUN => "FUN" | FOR => "FOR" | IF => "IF" | NIL => "NIL" | OR => "OR"
  | PRINT => "PRINT" | RETURN => "RETURN" | SUPER => "SUPER"
  | THIS => "THIS" | TRUE => "TRUE" | VAR => "VAR" | WHILE => "WHILE"
  | EOF => "EOF"
  end.

(** The record of the specification for a token:
    [<KIND-NAME> <lexeme> <literal-debug-form>] and a newline. *)
Definition spec_record (tok : Token.t) : string :=
  KIND_NAME (Token._type tok) ++ " " ++ Token.lexeme tok ++ " "
  ++ RawPrint (Token.literal tok) ++ newline.

(** The reserved spellings of the specification, each with the kind that
    bears its name: [and, class, else, false, for, fun, if, nil, or, print,
    return, super, this, true, var, while]. *)
Definition reserved_kind (word : string) : option TokenType :=
  if String.eqb word "and" then Some AND
  else if String.eqb word "class" then Some CLASS
  else if String.eqb word "else" then Some ELSE
  else if String.eqb word "false" then Some FALSE
  else if String.eqb word "for" then Some FOR
  else if String.eqb word "fun" then Some FUN
  else if String.eqb word "if" then Some IF
  else if String.eqb word "nil" then Some NIL
  else if String.eqb word "or" then Some OR
  else if String.eqb word "print" then Some PRINT
  else if String.eqb word "return" then Some RETURN
  else if String.eqb word "super" then Some SUPER
  else if String.eqb word "this" then Some THIS
  else if String.eqb word "true" then Some TRUE
  else if String.eqb word "var" then Some VAR
  else if String.eqb word "while" then Some WHILE
  else None.

(** Whether a string ends with a given byte. *)
Fixpoint ends_with (c : ascii) (s : string) : bool :=
  match s with
  | EmptyString => false
  | String x EmptyString => Ascii.eqb x c
  | String _ s' => ends_with c s'
  end.

(** The process after the records of [toks] have been printed. *)
Definition printed (p : Process) (toks : list Token.t) : Process :=
  {| hadError := hadError p;
     stdout := stdout p ++ map record_of toks;
     stderr := stderr p |}.

(** The process after the first statement of [main]. *)
Definition logged (p : Process) : Process :=
  {| hadError := hadError p;
     stdout := stdout p;
     stderr := stderr p ++ ["Logs from your program will appear here!" ++ newline] |}.

(** The text of a stream: its writes, one after the other. *)
Definition text_of (writes : list string) : string :=
  fold_right append "" writes.

(** The scan of a source on a scanner of its own. *)
Definition scan_source (src : string) : M Process (list Token.t) :=
  with_scanner (NewScanner src) ScanTokens.

(** What a scan of [src] in the process [p] may result in: the tokens end
    with the one end-of-input token, on the last line of the source, and
    [hadError] is raised exactly when a diagnostic was written; or the scan
    panics, and then the source ends with digits and a ['.']. *)
Definition ScanResult (src : string) (p : Process)
           (r : Result Process (list Token.t)) : Prop :=
  match r with
  | Ok toks p' =>
      (exists body,
          toks = (body ++ [EOF_token (1 + newlines src)])%list
          /\ Forall not_EOF body)
      /\ stdout p' = stdout p
      /\ exists msgs,
          stderr p' = (stderr p ++ msgs)%list
          /\ hadError p' = hadError p || nonempty msgs
  | Panic e =>
      e = IndexOutOfRange (len src) (len src)
      /\ exists pre c ds',
          src = pre ++ String c ds' ++ "."
          /\ all isDigit (String c ds') = true
  | Exit _ _ => False
  | OutOfFuel => False
  end.

End Golox.

(** The reading of "the next unescaped quote": the characters of [s]
    before its first quote that no backslash escapes, a backslash escaping
    the character after it; [None] when there is no such quote. *)
Fixpoint upto_unescaped_quote (s : string) : option string :=
  match s with
  | EmptyString => None
  | String c s' =>
      if Ascii.eqb c DQUOTE then Some EmptyString
      else if Ascii.eqb c BACKSLASH then
        match s' with
        | String c' s'' =>
            option_map (fun r => String c (String c' r)) (upto_unescaped_quote s'')
        | EmptyString => None
        end
      else option_map (String c) (upto_unescaped_quote s')
  end.

(** The quoted form of a string of printable ASCII characters, newlines,
    carriage returns and tabs, as [%q] writes it. *)
Fixpoint quote_body (s : string) : string :=
  match s with
  | EmptyString => EmptyString
  | String c s' =>
      (if Ascii.eqb c DQUOTE then String BACKSLASH (String DQUOTE EmptyString)
       else if Ascii.eqb c BACKSLASH then String BACKSLASH (String BACKSLASH EmptyString)
       else if Ascii.eqb c NEWLINE then String BACKSLASH "n"
       else if Ascii.eqb c "013" then String BACKSLASH "r"
       else if Ascii.eqb c "009" then String BACKSLASH "t"
       else String c EmptyString) ++ quote_body s'
  end.

(** A run time to evaluate the program on concrete inputs.  It agrees with
    Go on the inputs of the examples: numerals that are their own shortest
    decimal form, and strings of printable ASCII characters, newlines,
    carriage returns and tabs. *)
Definition text_runtime : GoRuntime := {|
  float64 := string;
  ParseFloat := fun s => (s, false);
  Sprintf_v := fun f => f;
  Sprintf_q := fun s => String DQUOTE (quote_body s ++ String DQUOTE EmptyString)
|}.

(** ** Sources for the examples *)

(** A string literal over two lines: a quote, [a], a newline, [b], a
    quote. *)
Definition multiline_source : string :=
  String DQUOTE ("a" ++ String NEWLINE ("b" ++ String DQUOTE "")).

(** A quote, [a], a backslash, a quote, [b], a quote. *)
Definition escaped_quote_source : string :=
  String DQUOTE
    ("a" ++ String BACKSLASH (String DQUOTE ("b" ++ String DQUOTE ""))).

(** [x], a space, and a string literal that is not closed. *)
Definition unterminated_source : string :=
  "x " ++ String DQUOTE ("ab" ++ String NEWLINE "c").

(** A newline and the string literal of [multiline_source]. *)
Definition second_line_source : string :=
  String NEWLINE multiline_source.

(** The tokens of the source [var x = 12;]. *)
Definition var_x_tokens : list (@Token.t text_runtime) :=
  [ Token.mk text_runtime VAR "var" LoxEmptyLiteral 1;
    Token.mk text_runtime IDENTIFIER "x" LoxEmptyLiteral 1;
    Token.mk text_runtime EQUAL "=" LoxEmptyLiteral 1;
    Token.mk text_runtime NUMBER "12" (@LoxNumber text_runtime "12") 1;
    Token.mk text_runtime SEMICOLON ";" LoxEmptyLiteral 1;
    Token.mk text_runtime EOF "" LoxEmptyLiteral 1 ].

(** The tokens of [multiline_source]. *)
Definition multiline_tokens : list (@Token.t text_runtime) :=
  [ Token.mk text_runtime STRING multiline_source
      (@LoxString text_runtime ("a" ++ String NEWLINE "b")) 2;
    Token.mk text_runtime EOF "" LoxEmptyLiteral 2 ].


(** * More of the program *)

(** ** Vocabulary for the branches of [scanToken] *)

(** The characters that [scanToken] turns into a token on their own, with
    the kind of the token. *)
Definition punctuation : list (ascii * TokenType) :=
  [ ("("%char, LEFT_PAREN); (")"%char, RIGHT_PAREN); ("{"%char, LEFT_BRACE);
    ("}"%char, RIGHT_BRACE); (","%char, COMMA); ("."%char, DOT);
    ("-"%char, MINUS); ("+"%char, PLUS); (";"%char, SEMICOLON);
    ("*"%char, STAR) ].

(** The characters that [scanToken] looks one byte past, with the kind of
    the character alone and the kind of the character followed by [=]. *)
Definition operators : list (ascii * (TokenType * TokenType)) :=
  [ ("!"%char, (BANG, BANG_EQUAL)); ("="%char, (EQUAL, EQUAL_EQUAL));
    ("<"%char, (LESS, LESS_EQUAL)); (">"%char, (GREATER, GREATER_EQUAL)) ].

(** The characters that are discarded without a token and without a change
    of line: space, carriage return and tab. *)
Definition blank (c : ascii) : bool :=
  Ascii.eqb c " " || Ascii.eqb c "013" || Ascii.eqb c "009".

(** The characters that some case of the [switch] accepts; any other
    character is reported. *)
Definition recognized (c : ascii) : bool :=
  existsb (Ascii.eqb c) (map fst punctuation)
  || existsb (Ascii.eqb c) (map fst operators)
  || Ascii.eqb c "/" || blank c || Ascii.eqb c NEWLINE || Ascii.eqb c DQUOTE
  || isDigit c || isAlpha c.

(** The line that [LoxError(line, message)] writes. *)
Definition diagnostic (line : nat) (message : string) : string :=
  "[line " ++ Sprintf_d line ++ "] Error: " ++ message ++ newline.

(** ** Vocabulary for whole scans *)

(** Tokens laid out on a source from an index on: the lexeme of each is a
    slice of the source that is not empty and starts where the one before
    ended or later, its line is the line of the end of the slice, and it is
    not the end-of-input token. *)
Inductive Tiled {rt : GoRuntime} (src : string) : nat -> list Token.t -> Prop :=
| tiled_nil i : Tiled src i []
| tiled_cons i j n tok toks :
    i <= j -> 0 < n -> j + n <= len src ->
    Token.lexeme tok = substring j n src ->
    Token.line tok = line_of src (j + n) ->
    Token._type tok <> EOF ->
    Tiled src (j + n) toks ->
    Tiled src i (tok :: toks).

(** A method is silent when it leaves the process as it found it. *)
Definition Silent {rt : GoRuntime} {A} (m : ScanM A) : Prop :=
  forall scan p,
    match m (scan, p) with
    | Ok _ st => snd st = p
    | Exit _ st => snd st = p
    | Panic _ => True
    | OutOfFuel => True
    end.

(** The two diagnostics of the scanner, for a source: an unexpected
    character, with the line of a place of the source that holds a
    character no case accepts; and an unterminated string, with the last
    line of a source that holds a quote. *)
Definition Diagnosed (src : string) (m : string) : Prop :=
  (exists i c,
      String.get i src = Some c /\ recognized c = false
      /\ m = diagnostic (line_of src i) ("Unexpected character: " ++ Sprintf_c c))
  \/ (exists i,
         String.get i src = Some DQUOTE
         /\ m = diagnostic (line_of src (len src)) "Unterminated string.").

(** ** Tokens from their lexemes *)

(** The kind the scanner gives a lexeme: the first byte picks the case of
    the [switch], the whole word picks the keyword, and the second byte
    tells [!] from [!=]. *)
Definition kind_of (lexeme : string) : TokenType :=
  match lexeme with
  | "" => EOF
  | String c rest =>
      if Ascii.eqb c DQUOTE then STRING
      else if isDigit c then NUMBER
      else if isAlpha c then word_type lexeme
      else if Ascii.eqb c "/" then SLASH
      else
        match find (fun e => Ascii.eqb c (fst e)) punctuation with
        | Some (_, _type) => _type
        | None =>
            match find (fun e => Ascii.eqb c (fst e)) operators with
            | Some (_, (one, two)) => if String.eqb rest "=" then two else one
            | None => EOF
            end
        end
  end.

(** The literal the scanner gives a lexeme: the text between the quotes,
    the number [strconv.ParseFloat] reads, or nothing. *)
Definition literal_of {rt : GoRuntime} (lexeme : string) : LoxLiteral :=
  match kind_of lexeme with
  | STRING => LoxString (substring 1 (len lexeme - 2) lexeme)
  | NUMBER => LoxNumber (fst (ParseFloat lexeme))
  | _ => LoxEmptyLiteral
  end.

Definition token_of {rt : GoRuntime} (lexeme : string) (line : nat) : Token.t :=
  Token.mk _ (kind_of lexeme) lexeme (literal_of lexeme) line.

(** A token that its lexeme and its line determine. *)
Definition FromLexeme {rt : GoRuntime} (tok : Token.t) : Prop :=
  tok = token_of (Token.lexeme tok) (Token.line tok).

(** ** Vocabulary for the lines of the tokens *)

(** A list of numbers in which no number is followed by a smaller one. *)
Fixpoint ascending (l : list nat) : Prop :=
  match l with
  | [] => True
  | x :: rest => Forall (le x) rest /\ ascending rest
  end.

(** ** Vocabulary for [main] *)

(** The arguments and the file system with which [main] does not get to
    scan: fewer than three arguments, a command that is not [tokenize], or
    a file that cannot be read. *)
Definition Rejected (Args : list string) (fs : FileSystem) : Prop :=
  length Args < 3
  \/ nth 1 Args "" <> "tokenize"
  \/ exists err, fs (nth 2 Args "") = inr err.

(** The three lines that [main] and [RunFile] write before [os.Exit(1)]. *)
Definition rejection (Args : list string) (fs : FileSystem) (m : string) : Prop :=
  (length Args < 3
   /\ m = "Usage: ./your_program.sh tokenize <filename>" ++ newline)
  \/ (3 <= length Args /\ nth 1 Args "" <> "tokenize"
      /\ m = "Unknown command: " ++ nth 1 Args "" ++ newline)
  \/ (3 <= length Args /\ nth 1 Args "" = "tokenize"
      /\ exists err, fs (nth 2 Args "") = inr err
                     /\ m = "Error reading file: " ++ err ++ newline).

(** ** The prompt *)

(** [fmt.Print(text)] *)
Definition fmt_Print (text : string) : M Process unit := Printf text.

(** The loop of [RunPrompt], over the lines that [reader.Scan()] finds on
    the standard input; [reader.Text()] is a line without its end. *)
Fixpoint prompt_loop {rt : GoRuntime} (stdin : list string) : M Process unit :=
  match stdin with
  | [] => ret tt
  | line :: rest => Run line ;; fmt_Print "> " ;; prompt_loop rest
  end.

Definition RunPrompt {rt : GoRuntime} (stdin : list string) : M Process unit :=
  fmt_Print "> " ;;
  prompt_loop stdin ;;
  fmt_Print (newline ++ "Exit" ++ newline).

(** What the scan of one line of the prompt adds to a process: the tokens
    it returns and the diagnostics it writes. *)
Definition line_tokens {rt : GoRuntime} (line : string) : list Token.t :=
  match scan_source line process_start with
  | Ok toks _ => toks
  | _ => []
  end.

Definition line_diagnostics {rt : GoRuntime} (line : string) : list string :=
  match scan_source line process_start with
  | Ok _ d => stderr d
  | _ => []
  end.

(** What a session of the prompt writes between the first prompt and the
    farewell: for each line its records and a prompt; and the diagnostics
    of the lines. *)
Definition prompt_stdout {rt : GoRuntime} (stdin : list string) : list string :=
  flat_map (fun line => (map record_of (line_tokens line) ++ ["> "])%list) stdin.

Definition prompt_stderr {rt : GoRuntime} (stdin : list string) : list string :=
  flat_map line_diagnostics stdin.

(** A line whose scan returns. *)
Definition line_returns {rt : GoRuntime} (line : string) : Prop :=
  exists toks d, scan_source line process_start = Ok toks d.

(** ** The evaluator of expressions *)

(** A value of type [any]: [nil], a [float64], or a [LoxLiteral]. *)
Inductive any {rt : GoRuntime} : Type :=
| any_nil
| any_float64 (x : float64)
| any_LoxLiteral (l : LoxLiteral).

(** A field of type [LoxLiteral] as a value of type [any]. *)
Definition to_any {rt : GoRuntime} (Value : option LoxLiteral) : any :=
  match Value with
  | Some l => any_LoxLiteral l
  | None => any_nil
  end.

(** A value of type [Expr]: the [nil] interface, a [*Literal] or a
    [*Binary], either of which may be a [nil] pointer.  Expressions are
    finite trees. *)
Inductive Expr {rt : GoRuntime} : Type :=
| Expr_nil
| Literal_nil
| Literal (Value : option LoxLiteral)
| Binary_nil
| Binary (Left Right : Expr) (Op : string).

(** The panics of the evaluator. *)
Inductive EvalPanic {rt : GoRuntime} : Type :=
| NilPointerDereference
| InterfaceConversion (dynamic : any)
| PanicString (message : string).

(** A call that returns or panics. *)
Definition EvalM {rt : GoRuntime} (A : Type) : Type := (A + EvalPanic)%type.

Definition eval_bind {rt : GoRuntime} {A B} (m : EvalM A) (k : A -> EvalM B)
  : EvalM B :=
  match m with
  | inl a => k a
  | inr e => inr e
  end.

(** The arithmetic of [float64] is the machine's, not code of the
    repository. *)
Class Float64Arith {rt : GoRuntime} : Type := {
  float64_add : float64 -> float64 -> float64;
  float64_sub : float64 -> float64 -> float64;
  float64_mul : float64 -> float64 -> float64;
  float64_div : float64 -> float64 -> float64
}.

(** [v.(float64)] *)
Definition assert_float64 {rt : GoRuntime} (v : any) : EvalM float64 :=
  match v with
  | any_float64 x => inl x
  | _ => inr (InterfaceConversion v)
  end.

(** [func (e *Evaluator) VisitLiteralExpr(literal *Literal) any], on a
    [nil] pointer and on a pointer to a [Literal] with the given field. *)
Definition VisitLiteralExpr {rt : GoRuntime} (literal : option (option LoxLiteral))
  : EvalM any :=
  match literal with
  | None => inr NilPointerDereference
  | Some Value => inl (to_any Value)
  end.

(** [func (e *Evaluator) VisitBinaryExpr(binary *Binary) any], on a pointer
    to a [Binary] with the given fields; [Accept] is [_.Accept(e)]. *)
Definition VisitBinaryExpr {rt : GoRuntime} {fa : Float64Arith}
           (Accept : Expr -> EvalM any) (Left Right : Expr) (Op : string)
  : EvalM any :=
  eval_bind (eval_bind (Accept Left) assert_float64) (fun left =>
  eval_bind (eval_bind (Accept Right) assert_float64) (fun right =>
  if String.eqb Op "+" then inl (any_float64 (float64_add left right))
  else if String.eqb Op "-" then inl (any_float64 (float64_sub left right))
  else if String.eqb Op "*" then inl (any_float64 (float64_mul left right))
  else if String.eqb Op "/" then inl (any_float64 (float64_div left right))
  else inr (PanicString "unknown operator"))).

(** [expr.Accept(e)] for the evaluator [e]: a method call on the [nil]
    interface panics; [Accept] on a pointer hands the pointer over, and
    [VisitBinaryExpr] on a [nil] pointer panics on [binary.Left]. *)
Fixpoint Accept {rt : GoRuntime} {fa : Float64Arith} (expr : Expr) : EvalM any :=
  match expr with
  | Expr_nil => inr NilPointerDereference
  | Literal_nil => VisitLiteralExpr None
  | Literal Value => VisitLiteralExpr (Some Value)
  | Binary_nil => inr NilPointerDereference
  | Binary Left Right Op => VisitBinaryExpr Accept Left Right Op
  end.

(** The panics of a type assertion on a value that is not a [float64], and
    of a [nil] pointer or interface. *)
Definition not_a_float64 {rt : GoRuntime} (e : EvalPanic) : Prop :=
  e = NilPointerDereference
  \/ exists v, e = InterfaceConversion v /\ forall x, v <> any_float64 x.

(** ** More sources and states for the examples *)

(** The scanner after the first turn on the source [var x]. *)
Definition after_var : @Scanner text_runtime :=
  {| source := "var x";
     tokens := [Token.mk text_runtime VAR "var" LoxEmptyLiteral 1];
     start := 0; current := 3; line := 1 |}.

(** The tokens of the source [var x]. *)
Definition var_x_line_tokens : list (@Token.t text_runtime) :=
  [ Token.mk text_runtime VAR "var" LoxEmptyLiteral 1;
    Token.mk text_runtime IDENTIFIER "x" LoxEmptyLiteral 1;
    Token.mk text_runtime EOF "" LoxEmptyLiteral 1 ].

(** The tokens of the source [a # b]. *)
Definition a_b_tokens : list (@Token.t text_runtime) :=
  [ Token.mk text_runtime IDENTIFIER "a" LoxEmptyLiteral 1;
    Token.mk text_runtime IDENTIFIER "b" LoxEmptyLiteral 1;
    Token.mk text_runtime EOF "" LoxEmptyLiteral 1 ].

(** The process after [main] has rejected a command line without
    arguments. *)
Definition usage_process : Process :=
  {| hadError := false;
     stdout := [];
     stderr := ["Logs from your program will appear here!" ++ newline;
                "Usage: ./your_program.sh tokenize <filename>" ++ newline] |}.

(** The process after a session of the prompt with the lines [var x] and
    [#]. *)
Definition session_process : Process :=
  {| hadError := true;
     stdout := ["> "; "%!s(main.TokenType=36) var null" ++ newline;
                "%!s(main.TokenType=19) x null" ++ newline;
                "%!s(main.TokenType=38)  null" ++ newline; "> ";
                "%!s(main.TokenType=38)  null" ++ newline; "> ";
                newline ++ "Exit" ++ newline];
     stderr := ["[line 1] Error: Unexpected character: #" ++ newline] |}.

(** * Properties *)

(** ** Strings *)

Section Strings.

Lemma length_append (a b : string) : len (a ++ b) = len a + len b.
Proof. unfold len. induction a; simpl; auto. Qed.

Lemma append_assoc (a b c : string) : (a ++ b) ++ c = a ++ b ++ c.
Proof. induction a as [|x a IH]; simpl; [reflexivity | now rewrite IH]. Qed.

Lemma append_empty_r (a : string) : a ++ "" = a.
Proof. induction a as [|x a IH]; simpl; [reflexivity | now rewrite IH]. Qed.

Lemma get_None_iff (s : string) (i : nat) : String.get i s = None <-> len s <= i.
Proof.
  unfold len. revert i. induction s as [|c s IH]; intros [|i]; simpl.
  - split; auto.
  - split; auto with arith.
  - split; [discriminate | lia].
  - rewrite IH. lia.
Qed.

Lemma get_Some_lt (s : string) (i : nat) (c : ascii) :
  String.get i s = Some c -> i < len s.
Proof.
  intros H. destruct (le_lt_dec (len s) i) as [L|L]; auto.
  apply get_None_iff in L. congruence.
Qed.

Lemma get_lt_Some (s : string) (i : nat) :
  i < len s -> exists c, String.get i s = Some c.
Proof.
  intros H. destruct (String.get i s) eqn:E; eauto.
  apply get_None_iff in E. lia.
Qed.

Lemma drop_empty (n : nat) : drop n "" = "".
Proof. destruct n; reflexivity. Qed.

Lemma drop_drop (n m : nat) (s : string) : drop n (drop m s) = drop (m + n) s.
Proof.
  revert s. induction m as [|m IH]; intros s; simpl.
  - reflexivity.
  - destruct s; [apply drop_empty | apply IH].
Qed.

Lemma length_drop (n : nat) (s : string) : len (drop n s) = len s - n.
Proof.
  unfold len. revert s. induction n as [|n IH]; intros [|c s]; simpl; auto.
Qed.

Lemma drop_append (a b : string) : drop (len a) (a ++ b) = b.
Proof. unfold len. induction a; simpl; auto. Qed.

Lemma drop_all (n : nat) (s : string) : len s <= n -> drop n s = "".
Proof.
  unfold len. revert s. induction n as [|n IH]; intros [|c s]; simpl; auto; try lia.
  intros. apply IH. lia.
Qed.

(** The character at an index heads the suffix from that index. *)
Lemma get_drop (s : string) (i : nat) :
  String.get i s = match drop i s with String c _ => Some c | EmptyString => None end.
Proof.
  revert i. induction s as [|c s IH]; intros [|i]; simpl; auto.
Qed.

Lemma drop_get_Some (s : string) (i : nat) (c : ascii) :
  String.get i s = Some c -> drop i s = String c (drop (i + 1) s).
Proof.
  rewrite get_drop. rewrite <- (drop_drop 1 i s).
  destruct (drop i s); [discriminate|]. intros [= ->]. reflexivity.
Qed.

Lemma get_append_mid (a b : string) (c : ascii) :
  String.get (len a) (a ++ String c b) = Some c.
Proof. now rewrite get_drop, drop_append. Qed.

Lemma substring_drop (i n : nat) (s : string) :
  substring i n s = substring 0 n (drop i s).
Proof.
  revert s. induction i as [|i IH]; intros s.
  - reflexivity.
  - destruct s as [|c s]; simpl.
    + destruct n; reflexivity.
    + apply IH.
Qed.

Lemma substring_0_0 (s : string) : substring 0 0 s = "".
Proof. now destruct s. Qed.

Lemma substring_0_append (a b : string) : substring 0 (len a) (a ++ b) = a.
Proof.
  unfold len. induction a as [|c a IH]; simpl.
  - destruct b; reflexivity.
  - now rewrite IH.
Qed.

Lemma substring_0_all (a : string) : substring 0 (len a) a = a.
Proof.
  unfold len. induction a as [|c a IH]; simpl; [reflexivity | now rewrite IH].
Qed.

Lemma substring_middle (a b c : string) :
  substring (len a) (len b) (a ++ b ++ c) = b.
Proof. now rewrite substring_drop, drop_append, substring_0_append. Qed.

Lemma substring_0_plus (n m : nat) (s : string) :
  substring 0 (n + m) s = substring 0 n s ++ substring n m s.
Proof.
  revert s. induction n as [|n IH]; intros s; simpl.
  - destruct s; reflexivity.
  - destruct s as [|c s]; simpl.
    + destruct m; reflexivity.
    + now rewrite IH.
Qed.

Lemma substring_plus (i n m : nat) (s : string) :
  substring i (n + m) s = substring i n s ++ substring (i + n) m s.
Proof.
  rewrite !(substring_drop i), (substring_drop (i + n)), <- drop_drop.
  rewrite substring_0_plus. f_equal. apply substring_drop.
Qed.

Lemma substring_S (i : nat) (s : string) (c : ascii) :
  String.get i s = Some c -> substring i 1 s = String c "".
Proof.
  intros H. rewrite substring_drop, (drop_get_Some _ _ _ H). simpl.
  destruct (drop (i + 1) s); reflexivity.
Qed.

Lemma span_le (P : ascii -> bool) (s : string) : span P s <= len s.
Proof. unfold len. induction s as [|c s IH]; simpl; [|destruct (P c)]; lia. Qed.

Lemma span_all (P : ascii -> bool) (s : string) :
  all P (substring 0 (span P s) s) = true.
Proof.
  induction s as [|c s IH]; simpl; auto.
  destruct (P c) eqn:E; simpl; auto. now rewrite E.
Qed.

Lemma span_stop (P : ascii -> bool) (s : string) :
  starts_with P (drop (span P s) s) = false.
Proof.
  induction s as [|c s IH]; simpl; auto.
  destruct (P c) eqn:E; simpl; auto.
Qed.

(** A run of characters that pass the test, followed by one that does
    not or by the end, is the longest such prefix. *)
Lemma span_append (P : ascii -> bool) (w rest : string) :
  all P w = true -> starts_with P rest = false -> span P (w ++ rest) = len w.
Proof.
  unfold len. intros Hw Hr. induction w as [|c w IH]; simpl in *.
  - destruct rest as [|c r]; simpl in *; auto. now rewrite Hr.
  - apply andb_true_iff in Hw as [-> Hw]. now rewrite IH.
Qed.

Lemma count_append (c : ascii) (a b : string) :
  count c (a ++ b) = count c a + count c b.
Proof. induction a as [|x a IH]; simpl; auto. rewrite IH. lia. Qed.

Lemma newlines_append (a b : string) : newlines (a ++ b) = newlines a + newlines b.
Proof. apply count_append. Qed.

Lemma count_0_all (c : ascii) (s : string) :
  all (fun x => negb (Ascii.eqb x c)) s = true -> count c s = 0.
Proof.
  induction s as [|x s IH]; simpl; auto.
  intros H. apply andb_true_iff in H as [H1 H2].
  destruct (Ascii.eqb x c); [discriminate | auto].
Qed.

Lemma all_weaken (P Q : ascii -> bool) (s : string) :
  (forall c, P c = true -> Q c = true) -> all P s = true -> all Q s = true.
Proof.
  intros HPQ. induction s as [|x s IH]; simpl; auto.
  intros H. apply andb_true_iff in H as [H1 H2].
  now rewrite (HPQ _ H1), IH.
Qed.

Lemma length_substring (i n : nat) (s : string) :
  i + n <= len s -> len (substring i n s) = n.
Proof.
  intros H. rewrite substring_drop.
  assert (L : n <= len (drop i s)) by (rewrite length_drop; lia).
  clear H. revert L. generalize (drop i s). clear s. unfold len.
  induction n as [|n IH]; intros [|c s]; simpl; auto; try lia.
  intros. rewrite IH; lia.
Qed.

End Strings.

(** ** The primitive methods *)

Section Primitives.

Context {rt : GoRuntime}.

Implicit Types (scan : Scanner) (p : Process).

#[local] Arguments Nat.ltb : simpl never.
#[local] Arguments Nat.leb : simpl never.
#[local] Arguments slice : simpl never.
#[local] Arguments index : simpl never.

Lemma bind_Ok {S A B} (m : M S A) (k : A -> M S B) s a s' :
  m s = Ok a s' -> bind m k s = k a s'.
Proof. unfold bind. now intros ->. Qed.

Lemma bind_Panic {S A B} (m : M S A) (k : A -> M S B) s e :
  m s = Panic e -> bind m k s = Panic e.
Proof. unfold bind. now intros ->. Qed.

Lemma bind_assoc {S A B C} (m : M S A) (k1 : A -> M S B) (k2 : B -> M S C) s :
  bind (bind m k1) k2 s = bind m (fun a => bind (k1 a) k2) s.
Proof. unfold bind. now destruct (m s). Qed.

Lemma bind_ret {S A B} (a : A) (k : A -> M S B) s : bind (ret a) k s = k a s.
Proof. reflexivity. Qed.

Lemma isAtEnd_eq scan p :
  isAtEnd (scan, p) = Ok (len (source scan) <=? current scan) (scan, p).
Proof. reflexivity. Qed.

Lemma slice_eq {S} (s : string) (lo hi : nat) (st : S) :
  lo <= hi -> hi <= len s -> slice s lo hi st = Ok (substring lo (hi - lo) s) st.
Proof.
  intros H1 H2. unfold slice.
  apply Nat.leb_le in H1, H2. now rewrite H1, H2.
Qed.

Lemma peek_eq scan p :
  peek (scan, p) = Ok (byte_at (source scan) (current scan)) (scan, p).
Proof.
  unfold peek, byte_at. rewrite (bind_Ok _ _ _ _ _ (isAtEnd_eq scan p)).
  destruct (len (source scan) <=? current scan) eqn:E.
  - apply Nat.leb_le, get_None_iff in E. now rewrite E.
  - apply Nat.leb_gt, get_lt_Some in E as [c E]. rewrite E.
    cbn. unfold index. now rewrite E.
Qed.

Lemma advance_eq scan p c :
  String.get (current scan) (source scan) = Some c ->
  advance (scan, p) = Ok c (set_current scan (current scan + 1), p).
Proof. intros H. unfold advance. cbn. unfold index. now rewrite H. Qed.

Lemma match_eq expected scan p :
  match_ expected (scan, p)
  = if (current scan <? len (source scan))
       && Ascii.eqb (byte_at (source scan) (current scan)) expected
    then Ok true (set_current scan (current scan + 1), p)
    else Ok false (scan, p).
Proof.
  unfold match_, byte_at. rewrite (bind_Ok _ _ _ _ _ (isAtEnd_eq scan p)).
  rewrite Nat.ltb_antisym.
  destruct (len (source scan) <=? current scan) eqn:E; cbn; [reflexivity|].
  apply Nat.leb_gt, get_lt_Some in E as [c E]. unfold index. rewrite E. cbn.
  now destruct (Ascii.eqb c expected).
Qed.

(** [peekNext] reads [source[current+1]] whenever [current+1 <= len]: it
    returns the next byte but one when there is one, the zero byte when
    the cursor is already past the end, and panics when the cursor is on
    the last byte. *)
Lemma peekNext_eq scan p :
  peekNext (scan, p)
  = if len (source scan) <? current scan + 1 then Ok "000"%char (scan, p)
    else if current scan + 1 <? len (source scan)
         then Ok (byte_at (source scan) (current scan + 1)) (scan, p)
         else Panic (IndexOutOfRange (len (source scan)) (len (source scan))).
Proof.
  unfold peekNext, byte_at. cbn.
  destruct (len (source scan) <? current scan + 1) eqn:E1; [reflexivity|].
  apply Nat.ltb_ge in E1. unfold index.
  destruct (current scan + 1 <? len (source scan)) eqn:E2.
  - apply Nat.ltb_lt, get_lt_Some in E2 as [c E2]. now rewrite E2.
  - apply Nat.ltb_ge in E2.
    assert (E : current scan + 1 = len (source scan)) by lia. rewrite E.
    assert (N : String.get (len (source scan)) (source scan) = None)
      by (apply get_None_iff; lia).
    now rewrite N.
Qed.

Lemma addTokenAndLiteral_eq _type literal scan p :
  start scan <= current scan -> current scan <= len (source scan) ->
  addTokenAndLiteral _type literal (scan, p)
  = Ok tt (set_tokens scan
             (tokens scan
              ++ [Token.mk _ _type
                    (substring (start scan) (current scan - start scan) (source scan))
                    literal (line scan)]), p).
Proof.
  intros H1 H2. unfold addTokenAndLiteral. cbn.
  now rewrite (bind_Ok _ _ _ _ _ (slice_eq _ _ _ _ H1 H2)).
Qed.

Lemma addToken_eq _type scan p :
  start scan <= current scan -> current scan <= len (source scan) ->
  addToken _type (scan, p)
  = Ok tt (set_tokens scan
             (tokens scan
              ++ [Token.mk _ _type
                    (substring (start scan) (current scan - start scan) (source scan))
                    LoxEmptyLiteral (line scan)]), p).
Proof. apply addTokenAndLiteral_eq. Qed.

(** ** Loops that advance the cursor *)

(** A loop whose condition tests the character under the cursor (and fails
    at the end of the source) and whose body consumes that character,
    adding a weight to [line], stops after the longest run of characters
    that pass the test. *)
Lemma while_advance (P : ascii -> bool) (w : ascii -> nat)
      (cond : ScanM bool) (body : ScanM unit) :
  (forall scan p,
      cond (scan, p)
      = Ok (starts_with P (drop (current scan) (source scan))) (scan, p)) ->
  (forall scan p c,
      String.get (current scan) (source scan) = Some c ->
      body (scan, p)
      = Ok tt (set_line (set_current scan (current scan + 1))
                        (line scan + w c), p)) ->
  forall fuel scan p,
    len (source scan) - current scan <= fuel ->
    let n := span P (drop (current scan) (source scan)) in
    while fuel cond body (scan, p)
    = Ok tt (set_line (set_current scan (current scan + n))
               (line scan + weight w (substring (current scan) n (source scan))),
             p).
Proof.
  intros Hc Hb. induction fuel as [|fuel IH]; intros scan p Hf n; subst n.
  - assert (E : drop (current scan) (source scan) = "") by (apply drop_all; lia).
    simpl. rewrite (bind_Ok _ _ _ _ _ (Hc scan p)). rewrite E. cbn.
    rewrite substring_drop, E. cbn. unfold set_line, set_current, ret. cbn.
    rewrite !Nat.add_0_r. now destruct scan.
  - simpl. rewrite (bind_Ok _ _ _ _ _ (Hc scan p)).
    destruct (String.get (current scan) (source scan)) as [c|] eqn:G.
    + rewrite (drop_get_Some _ _ _ G). cbn [starts_with span].
      destruct (P c) eqn:Pc.
      * rewrite (bind_Ok _ _ _ _ _ (Hb scan p c G)).
        rewrite IH
          by (apply get_Some_lt in G; unfold set_line, set_current;
              cbn [source current]; lia).
        cbn. unfold set_line, set_current. cbn.
        f_equal. f_equal.
        replace (S (span P (drop (current scan + 1) (source scan))))
          with (1 + span P (drop (current scan + 1) (source scan))) by reflexivity.
        rewrite substring_plus, (substring_S _ _ _ G). cbn [weight append].
        f_equal; lia.
      * rewrite substring_drop, substring_0_0. cbn.
        unfold set_line, set_current, ret. cbn.
        rewrite !Nat.add_0_r. now destruct scan.
    + rewrite get_drop in G. destruct (drop (current scan) (source scan)) eqn:E; [|discriminate].
      rewrite substring_drop, E. cbn. unfold set_line, set_current, ret. cbn.
      rewrite !Nat.add_0_r. now destruct scan.
Qed.

End Primitives.

(** ** The loops of the scanner *)

Section Loops.

Context {rt : GoRuntime}.

Implicit Types (scan : Scanner) (p : Process).

#[local] Arguments Nat.ltb : simpl never.
#[local] Arguments Nat.leb : simpl never.
#[local] Arguments slice : simpl never.
#[local] Arguments index : simpl never.

Lemma starts_with_drop (P : ascii -> bool) (s : string) (i : nat) :
  P "000"%char = false -> starts_with P (drop i s) = P (byte_at s i).
Proof.
  intros H0. unfold byte_at. rewrite get_drop.
  destruct (drop i s); simpl; auto.
Qed.

Lemma starts_with_drop_in (P : ascii -> bool) (s : string) (i : nat) :
  starts_with P (drop i s) = P (byte_at s i) && (i <? len s).
Proof.
  unfold byte_at. destruct (String.get i s) as [c|] eqn:G.
  - rewrite (drop_get_Some _ _ _ G). simpl.
    apply get_Some_lt, Nat.ltb_lt in G. rewrite G. now rewrite andb_true_r.
  - apply get_None_iff in G. rewrite drop_all by auto.
    apply Nat.ltb_ge in G. rewrite G. now rewrite andb_false_r.
Qed.

Lemma weight_zero (s : string) : weight (fun _ => 0) s = 0.
Proof. induction s; simpl; auto. Qed.

Lemma weight_newlines (s : string) :
  weight (fun c => if Ascii.eqb c NEWLINE then 1 else 0) s = newlines s.
Proof. induction s as [|c s IH]; simpl; auto. now rewrite IH. Qed.

(** [for P(scan.peek()) { scan.advance() }], for a test that fails on the
    zero byte. *)
Lemma skip_loop (P : ascii -> bool) fuel scan p :
  P "000"%char = false ->
  len (source scan) - current scan <= fuel ->
  while fuel (c <- peek ;; ret (P c)) (advance ;; ret tt) (scan, p)
  = Ok tt (set_current scan
             (current scan + span P (drop (current scan) (source scan))), p).
Proof.
  intros H0 Hf.
  rewrite (while_advance P (fun _ => 0)); auto.
  - rewrite weight_zero, Nat.add_0_r. unfold set_line, set_current. reflexivity.
  - intros s q. rewrite (bind_Ok _ _ _ _ _ (peek_eq s q)).
    now rewrite starts_with_drop.
  - intros s q c G. rewrite (bind_Ok _ _ _ _ _ (advance_eq s q c G)).
    rewrite Nat.add_0_r. unfold set_line, set_current. reflexivity.
Qed.

(** [for scan.peek() != x && !scan.isAtEnd() { scan.advance() }] *)
Lemma skip_until_loop (x : ascii) fuel scan p :
  len (source scan) - current scan <= fuel ->
  while fuel
    (c <- peek ;; atEnd <- isAtEnd ;; ret (negb (Ascii.eqb c x) && negb atEnd))
    (advance ;; ret tt) (scan, p)
  = Ok tt (set_current scan
             (current scan
              + span (fun c => negb (Ascii.eqb c x))
                  (drop (current scan) (source scan))), p).
Proof.
  intros Hf.
  rewrite (while_advance (fun c => negb (Ascii.eqb c x)) (fun _ => 0)); auto.
  - rewrite weight_zero, Nat.add_0_r. unfold set_line, set_current. reflexivity.
  - intros s q. rewrite (bind_Ok _ _ _ _ _ (peek_eq s q)).
    rewrite (bind_Ok _ _ _ _ _ (isAtEnd_eq s q)).
    rewrite starts_with_drop_in, Nat.leb_antisym, negb_involutive. reflexivity.
  - intros s q c G. rewrite (bind_Ok _ _ _ _ _ (advance_eq s q c G)).
    rewrite Nat.add_0_r. unfold set_line, set_current. reflexivity.
Qed.

(** The loop of [parseString]: it stops on the next quote or at the end
    of the source, and has counted the newlines it went over. *)
Lemma string_loop fuel scan p :
  len (source scan) - current scan <= fuel ->
  let n := span not_quote (drop (current scan) (source scan)) in
  while fuel
    (c <- peek ;; atEnd <- isAtEnd ;;
     ret (negb (Ascii.eqb c DQUOTE) && negb atEnd))
    (c <- peek ;;
     (if Ascii.eqb c NEWLINE
      then update (fun scan => set_line scan (line scan + 1))
      else ret tt) ;;
     advance ;; ret tt) (scan, p)
  = Ok tt (set_line (set_current scan (current scan + n))
             (line scan + newlines (substring (current scan) n (source scan))),
           p).
Proof.
  intros Hf n. subst n.
  rewrite (while_advance not_quote
             (fun c => if Ascii.eqb c NEWLINE then 1 else 0)); auto.
  - now rewrite weight_newlines.
  - intros s q. rewrite (bind_Ok _ _ _ _ _ (peek_eq s q)).
    rewrite (bind_Ok _ _ _ _ _ (isAtEnd_eq s q)).
    rewrite starts_with_drop_in, Nat.leb_antisym, negb_involutive. reflexivity.
  - intros s q c G. rewrite (bind_Ok _ _ _ _ _ (peek_eq s q)).
    unfold byte_at. rewrite G.
    destruct (Ascii.eqb c NEWLINE).
    + cbn.
      rewrite (bind_Ok _ _ _ _ _ (advance_eq (set_line s (line s + 1)) q c G)).
      reflexivity.
    + cbn. rewrite (bind_Ok _ _ _ _ _ (advance_eq s q c G)).
      rewrite Nat.add_0_r. reflexivity.
Qed.

End Loops.

(** ** The branches of [scanToken] *)

Section Branches.

Context {rt : GoRuntime}.

Implicit Types (scan : Scanner) (p : Process).

#[local] Arguments Nat.ltb : simpl never.
#[local] Arguments Nat.leb : simpl never.
#[local] Arguments slice : simpl never.
#[local] Arguments index : simpl never.
#[local] Arguments keywords : simpl never.

Lemma span_drop_bound (P : ascii -> bool) (s : string) (i : nat) :
  i <= len s -> i + span P (drop i s) <= len s.
Proof.
  intros H. pose proof (span_le P (drop i s)) as L.
  rewrite length_drop in L. lia.
Qed.

Lemma scanStep_eq scan p c :
  String.get (current scan) (source scan) = Some c ->
  scanStep (scan, p)
  = scanToken_switch c
      (set_current (set_start scan (current scan)) (current scan + 1), p).
Proof.
  intros G. unfold scanStep, scanToken. cbn.
  now rewrite (bind_Ok _ _ _ _ _
                 (advance_eq (set_start scan (current scan)) p c G)).
Qed.

Lemma identifier_eq scan p :
  start scan <= current scan -> current scan <= len (source scan) ->
  identifier (scan, p)
  = let scan1 :=
      set_current scan
        (current scan + span isAlphaNumeric (drop (current scan) (source scan))) in
    Ok tt (add_token scan1
             (word_type (substring (start scan1) (current scan1 - start scan1)
                           (source scan1)))
             LoxEmptyLiteral, p).
Proof.
  intros H1 H2. unfold identifier. cbn.
  rewrite (bind_Ok _ _ _ _ _ (skip_loop isAlphaNumeric (len (source scan)) scan p
                                eq_refl ltac:(lia))).
  pose proof (span_drop_bound isAlphaNumeric _ _ H2) as B.
  cbn. erewrite bind_Ok by (apply slice_eq; cbn [start current source set_current set_line]; lia).
  rewrite addToken_eq by (cbn [start current source set_current]; lia).
  reflexivity.
Qed.

Lemma number_eq scan p :
  start scan <= current scan -> current scan <= len (source scan) ->
  number (scan, p)
  = let src := source scan in
    let cur1 := current scan + span isDigit (drop (current scan) src) in
    if Ascii.eqb (byte_at src cur1) "." then
      if cur1 + 1 <? len src then
        if isDigit (byte_at src (cur1 + 1)) then
          Ok tt (number_token
                   (set_current scan
                      (cur1 + 1 + span isDigit (drop (cur1 + 1) src))), p)
        else Ok tt (number_token (set_current scan cur1), p)
      else Panic (IndexOutOfRange (len src) (len src))
    else Ok tt (number_token (set_current scan cur1), p).
Proof.
  intros H1 H2. unfold number. cbn.
  rewrite (bind_Ok _ _ _ _ _ (skip_loop isDigit (len (source scan)) scan p eq_refl
                                ltac:(lia))).
  pose proof (span_drop_bound isDigit _ _ H2) as B.
  set (cur1 := current scan + span isDigit (drop (current scan) (source scan))) in *.
  rewrite (bind_Ok _ _ _ _ _ (peek_eq _ _)). cbn [source current set_current].
  assert (Fin : forall scan',
             source scan' = source scan -> start scan' = start scan ->
             cur1 <= current scan' -> current scan' <= len (source scan) ->
             (scan0 <- this;;
              text <- slice (source scan0) (start scan0) (current scan0);;
              (let '(number, _) := ParseFloat text in
               addTokenAndLiteral NUMBER (LoxNumber number))) (scan', p)
             = Ok tt (number_token scan', p)).
  { intros scan' Es Et L1 L2. cbn.
    erewrite bind_Ok by (apply slice_eq; rewrite ?Es, ?Et; lia).
    unfold number_token, add_token, token_here.
    destruct (ParseFloat _) as [v err]. cbn [fst].
    apply addTokenAndLiteral_eq; rewrite ?Es; lia. }
  destruct (Ascii.eqb (byte_at (source scan) cur1) ".") eqn:Edot.
  - assert (Lt : cur1 < len (source scan)).
    { destruct (le_lt_dec (len (source scan)) cur1) as [L|L]; auto.
      apply get_None_iff in L. unfold byte_at in Edot. rewrite L in Edot.
      discriminate. }
    rewrite bind_assoc.
    pose proof (peekNext_eq (set_current scan cur1) p) as Hpn.
    cbn [source current set_current] in Hpn.
    replace (len (source scan) <? cur1 + 1) with false in Hpn
      by (symmetry; apply Nat.ltb_ge; lia).
    destruct (cur1 + 1 <? len (source scan)) eqn:E2.
    + rewrite (bind_Ok _ _ _ _ _ Hpn).
      destruct (isDigit (byte_at (source scan) (cur1 + 1))) eqn:E3.
      * apply Nat.ltb_lt in E2.
        destruct (get_lt_Some _ _ Lt) as [d G].
        rewrite bind_assoc.
        rewrite (bind_Ok _ _ _ _ _ (advance_eq (set_current scan cur1) p d G)).
        cbn [source current set_current].
        rewrite (bind_Ok _ _ _ _ _
                   (skip_loop isDigit (len (source scan))
                      (set_current scan (cur1 + 1)) p eq_refl
                      ltac:(cbn [start current source set_current]; lia))).
        cbn [source current set_current].
        pose proof (span_drop_bound isDigit (source scan) (cur1 + 1) ltac:(lia)).
        apply Fin; cbn [start current source set_current]; try reflexivity; lia.
      * rewrite bind_ret. apply Fin; cbn [start current source set_current]; try reflexivity; lia.
    + now rewrite (bind_Panic _ _ _ _ Hpn).
  - apply Fin; cbn [start current source set_current]; try reflexivity; lia.
Qed.

Lemma parseString_eq scan p :
  start scan < current scan -> current scan <= len (source scan) ->
  parseString (scan, p)
  = let src := source scan in
    let n := span not_quote (drop (current scan) src) in
    let scan1 :=
      set_line (set_current scan (current scan + n))
        (line scan + newlines (substring (current scan) n src)) in
    if len src <=? current scan + n
    then Ok tt (scan1, reported p (line scan1) "Unterminated string.")
    else
      Ok tt (add_token (set_current scan1 (current scan + n + 1)) STRING
               (LoxString
                  (substring (start scan + 1)
                     (current scan + n - (start scan + 1)) src)), p).
Proof.
  intros H1 H2. unfold parseString. cbn.
  rewrite (bind_Ok _ _ _ _ _ (string_loop (len (source scan)) scan p ltac:(lia))).
  pose proof (span_drop_bound not_quote _ _ H2) as B.
  set (n := span not_quote (drop (current scan) (source scan))) in *.
  rewrite (bind_Ok _ _ _ _ _ (isAtEnd_eq _ _)).
  cbn [source current set_current set_line].
  destruct (len (source scan) <=? current scan + n) eqn:E.
  - reflexivity.
  - apply Nat.leb_gt in E. destruct (get_lt_Some _ _ E) as [d G].
    rewrite (bind_Ok _ _ _ _ _
               (advance_eq
                  (set_line (set_current scan (current scan + n))
                     (line scan
                      + newlines (substring (current scan) n (source scan))))
                  p d G)).
    cbn. erewrite bind_Ok by (apply slice_eq; cbn [start current source set_current set_line]; lia).
    rewrite addTokenAndLiteral_eq
      by (cbn [start current source set_current set_line]; lia).
    unfold add_token, token_here. cbn.
    replace (current scan + n + 1 - 1 - (start scan + 1))
      with (current scan + n - (start scan + 1)) by lia.
    reflexivity.
Qed.

End Branches.

(** ** One turn of the loop *)

Section Step.

Context {rt : GoRuntime}.

Implicit Types (scan mid : Scanner) (p : Process).

#[local] Arguments Nat.ltb : simpl never.
#[local] Arguments Nat.leb : simpl never.
#[local] Arguments slice : simpl never.
#[local] Arguments index : simpl never.
#[local] Arguments keywords : simpl never.

Lemma digit_not_newline c : isDigit c = true -> not_newline c = true.
Proof. destruct c as [[] [] [] [] [] [] [] []]; vm_compute; congruence. Qed.

Lemma alnum_not_newline c : isAlphaNumeric c = true -> not_newline c = true.
Proof. destruct c as [[] [] [] [] [] [] [] []]; vm_compute; congruence. Qed.

Lemma not_newline_count (s : string) : all not_newline s = true -> newlines s = 0.
Proof. apply count_0_all. Qed.

Lemma span_no_newline (P : ascii -> bool) (s : string) (i : nat) :
  (forall c, P c = true -> not_newline c = true) ->
  newlines (substring i (span P (drop i s)) s) = 0.
Proof.
  intros H. apply not_newline_count. rewrite substring_drop.
  apply (all_weaken P); auto. apply span_all.
Qed.

(** The first character of a turn. *)
Lemma Mid_first scan c :
  String.get (current scan) (source scan) = Some c ->
  Mid scan
    (set_line (set_current (set_start scan (current scan)) (current scan + 1))
       (line scan + (if Ascii.eqb c NEWLINE then 1 else 0))).
Proof.
  intros G. pose proof (get_Some_lt _ _ _ G).
  split; cbn; try reflexivity; try lia.
  replace (current scan + 1 - current scan) with 1 by lia.
  rewrite (substring_S _ _ _ G). unfold newlines. cbn. lia.
Qed.

(** Going over [k] more characters, counting their newlines. *)
Lemma Mid_more scan mid k :
  Mid scan mid -> current mid + k <= len (source scan) ->
  Mid scan
    (set_line (set_current mid (current mid + k))
       (line mid + newlines (substring (current mid) k (source scan)))).
Proof.
  intros [Hs Ht Hst Hp Hb Hl] Hk.
  split; cbn; auto; try lia.
  replace (current mid + k - current scan)
    with ((current mid - current scan) + k) by lia.
  rewrite substring_plus, newlines_append, Hl.
  replace (current scan + (current mid - current scan)) with (current mid) by lia.
  lia.
Qed.

Lemma Mid_more_plain scan mid k :
  Mid scan mid -> current mid + k <= len (source scan) ->
  newlines (substring (current mid) k (source scan)) = 0 ->
  Mid scan (set_current mid (current mid + k)).
Proof.
  intros HM Hk H0. pose proof (Mid_more _ _ k HM Hk) as HM'.
  rewrite H0, Nat.add_0_r in HM'.
  destruct HM' as [Hs Ht Hst Hp Hb Hl]. split; auto.
Qed.

Lemma addTokenAndLiteral_Mid scan mid p _type literal :
  Mid scan mid -> _type <> EOF ->
  StepResult scan p (addTokenAndLiteral _type literal (mid, p)).
Proof.
  intros HM Hty. pose proof HM as [Hs Ht Hst Hp Hb Hl].
  rewrite addTokenAndLiteral_eq by (rewrite ?Hs, ?Hst; lia).
  now apply step_token.
Qed.

Lemma addToken_Mid scan mid p _type :
  Mid scan mid -> _type <> EOF -> StepResult scan p (addToken _type (mid, p)).
Proof. apply addTokenAndLiteral_Mid. Qed.


Lemma Mid_first_plain scan c :
  String.get (current scan) (source scan) = Some c ->
  Ascii.eqb c NEWLINE = false ->
  Mid scan (set_current (set_start scan (current scan)) (current scan + 1)).
Proof.
  intros G E. pose proof (Mid_first _ _ G) as HM. rewrite E, Nat.add_0_r in HM.
  destruct HM as [Hs Ht Hst Hp Hb Hl]. split; auto.
Qed.

Lemma span_stop_get (P : ascii -> bool) (s : string) (i : nat) (d : ascii) :
  String.get (i + span P (drop i s)) s = Some d -> P d = false.
Proof.
  intros G. pose proof (span_stop P (drop i s)) as H.
  rewrite drop_drop, (drop_get_Some _ _ _ G) in H. exact H.
Qed.

(** [!], [=], [<] and [>], alone or followed by [=]. *)
Lemma operator_result scan mid p x two one :
  Mid scan mid -> two <> EOF -> one <> EOF -> Ascii.eqb x NEWLINE = false ->
  StepResult scan p
    ((b <- match_ x ;; if b : bool then addToken two else addToken one) (mid, p)).
Proof.
  intros HM H2 H1 Hx. pose proof (match_eq x mid p) as Hm.
  pose proof HM as [Hs Ht Hst Hp Hb Hl].
  match type of Hm with _ = (if ?c then _ else _) => destruct c eqn:E end;
    rewrite (bind_Ok _ _ _ _ _ Hm).
  - apply andb_true_iff in E as [E1 E2].
    rewrite Hs in E1, E2. apply Nat.ltb_lt in E1. apply Ascii.eqb_eq in E2.
    apply addToken_Mid; auto.
    apply (Mid_more_plain _ _ 1 HM); [lia|].
    destruct (get_lt_Some _ _ E1) as [d G].
    unfold byte_at in E2. rewrite G in E2. subst d.
    rewrite (substring_S _ _ _ G). unfold newlines. cbn. now rewrite Hx.
  - apply addToken_Mid; auto.
Qed.

(** [/], alone or opening a comment that runs to the end of the line. *)
Lemma slash_result scan mid p :
  Mid scan mid ->
  StepResult scan p
    ((b <- match_ "/" ;;
      if b : bool then
        fuel <- loop_fuel ;;
        while fuel
          (c <- peek ;; atEnd <- isAtEnd ;;
           ret (negb (Ascii.eqb c NEWLINE) && negb atEnd))
          (advance ;; ret tt)
      else addToken SLASH) (mid, p)).
Proof.
  intros HM. pose proof (match_eq "/" mid p) as Hm.
  pose proof HM as [Hs Ht Hst Hp Hb Hl].
  match type of Hm with _ = (if ?c then _ else _) => destruct c eqn:E end;
    rewrite (bind_Ok _ _ _ _ _ Hm).
  - apply andb_true_iff in E as [E1 E2].
    rewrite Hs in E1, E2. apply Nat.ltb_lt in E1. apply Ascii.eqb_eq in E2.
    assert (HM1 : Mid scan (set_current mid (current mid + 1))).
    { apply (Mid_more_plain _ _ 1 HM); [lia|].
      destruct (get_lt_Some _ _ E1) as [d G].
      unfold byte_at in E2. rewrite G in E2. subst d.
      now rewrite (substring_S _ _ _ G). }
    cbn [loop_fuel]. unfold loop_fuel.
    rewrite bind_assoc. cbn [this bind fst snd ret].
    rewrite skip_until_loop by (cbn [source current set_current]; lia).
    apply step_skip.
    cbn [source current set_current].
    apply (Mid_more_plain scan (set_current mid (current mid + 1))
             (span (fun c => negb (Ascii.eqb c NEWLINE))
                (drop (current mid + 1) (source mid))) HM1).
    + cbn [source current set_current]. rewrite Hs.
      apply span_drop_bound. lia.
    + cbn [source current set_current]. rewrite Hs.
      apply span_no_newline. auto.
  - apply addToken_Mid; auto. discriminate.
Qed.

Lemma parseString_result scan p :
  String.get (current scan) (source scan) = Some DQUOTE ->
  StepResult scan p
    (parseString
       (set_current (set_start scan (current scan)) (current scan + 1), p)).
Proof.
  intros G. pose proof (get_Some_lt _ _ _ G) as Hlt.
  pose proof (Mid_first_plain _ _ G eq_refl) as HM.
  rewrite parseString_eq by (cbn [start current source set_current set_start]; lia).
  cbn [start current source line set_current set_start set_line].
  set (n := span not_quote (drop (current scan + 1) (source scan))).
  pose proof (span_drop_bound not_quote (source scan) (current scan + 1)
                ltac:(lia)) as B. fold n in B.
  pose proof (Mid_more _ _ n HM B) as HM1.
  destruct (len (source scan) <=? current scan + 1 + n) eqn:E.
  - apply (step_error _ _ _ _ HM1).
  - apply Nat.leb_gt in E. destruct (get_lt_Some _ _ E) as [d Gd].
    pose proof (span_stop_get _ _ _ _ Gd) as Hd.
    apply negb_false_iff, Ascii.eqb_eq in Hd. subst d.
    apply (step_token scan p); [|discriminate].
    apply (Mid_more_plain _ _ 1 HM1).
    + cbn [current set_current set_line]. lia.
    + cbn [current set_current set_line]. now rewrite (substring_S _ _ _ Gd).
Qed.

Lemma identifier_result scan p c :
  String.get (current scan) (source scan) = Some c ->
  Ascii.eqb c NEWLINE = false ->
  StepResult scan p
    (identifier
       (set_current (set_start scan (current scan)) (current scan + 1), p)).
Proof.
  intros G E. pose proof (get_Some_lt _ _ _ G) as Hlt.
  pose proof (Mid_first_plain _ _ G E) as HM.
  rewrite identifier_eq by (cbn [start current source set_current set_start]; lia).
  cbn zeta. cbn [start current source line set_current set_start].
  apply (step_token scan p).
  - apply (Mid_more_plain _ _ _ HM).
    + apply span_drop_bound. cbn. lia.
    + apply span_no_newline, alnum_not_newline.
  - unfold word_type, keywords.
    match goal with |- context [lookup _ ?t] => generalize t end.
    intros t. unfold keywords_entries. cbn [lookup].
    repeat match goal with
           | |- context [String.eqb ?k t] => destruct (String.eqb k t)
           end; discriminate.
Qed.

Lemma number_result scan p c :
  String.get (current scan) (source scan) = Some c ->
  isDigit c = true ->
  StepResult scan p
    (number (set_current (set_start scan (current scan)) (current scan + 1), p)).
Proof.
  intros G Dc. pose proof (get_Some_lt _ _ _ G) as Hlt.
  assert (E : Ascii.eqb c NEWLINE = false)
    by (apply digit_not_newline in Dc; now apply negb_true_iff in Dc).
  pose proof (Mid_first_plain _ _ G E) as HM.
  rewrite number_eq by (cbn [start current source set_current set_start]; lia).
  cbn zeta. cbn [start current source line set_current set_start].
  set (n := span isDigit (drop (current scan + 1) (source scan))).
  pose proof (span_drop_bound isDigit (source scan) (current scan + 1)
                ltac:(lia)) as B. fold n in B.
  assert (HM1 : Mid scan
                  (set_current
                     (set_current (set_start scan (current scan)) (current scan + 1))
                     (current scan + 1 + n))).
  { apply (Mid_more_plain _ _ n HM); auto.
    apply span_no_newline, digit_not_newline. }
  destruct (Ascii.eqb (byte_at (source scan) (current scan + 1 + n)) ".") eqn:Edot.
  - destruct (current scan + 1 + n + 1 <? len (source scan)) eqn:E2.
    + destruct (isDigit (byte_at (source scan) (current scan + 1 + n + 1))) eqn:E3.
      * apply Nat.ltb_lt in E2. apply (step_token scan p); [|discriminate].
        assert (Gd : String.get (current scan + 1 + n) (source scan) = Some "."%char).
        { destruct (get_lt_Some (source scan) (current scan + 1 + n) ltac:(lia))
            as [d Gd]. unfold byte_at in Edot. rewrite Gd in Edot.
          apply Ascii.eqb_eq in Edot. now subst d. }
        assert (HM2 : Mid scan
                        (set_current
                           (set_current (set_start scan (current scan))
                              (current scan + 1))
                           (current scan + 1 + n + 1))).
        { apply (Mid_more_plain _ _ 1 HM1).
          - cbn [current set_current]. lia.
          - cbn [current set_current]. now rewrite (substring_S _ _ _ Gd). }
        apply (Mid_more_plain _ _ _ HM2).
        -- apply span_drop_bound. cbn. lia.
        -- apply span_no_newline, digit_not_newline.
      * apply (step_token scan p); [exact HM1 | discriminate].
    + apply Nat.ltb_ge in E2. split; [reflexivity|].
      assert (Lt : current scan + 1 + n < len (source scan)).
      { destruct (le_lt_dec (len (source scan)) (current scan + 1 + n)) as [L|L]; auto.
        apply get_None_iff in L. unfold byte_at in Edot. rewrite L in Edot.
        discriminate. }
      unfold TrailingDot. cbn zeta. rewrite (drop_get_Some _ _ _ G).
      cbn [span]. rewrite Dc. fold n.
      replace (current scan + S n) with (current scan + 1 + n) by lia.
      repeat split; try lia.
      destruct (get_lt_Some _ _ Lt) as [d Gd]. unfold byte_at in Edot.
      rewrite Gd in Edot. apply Ascii.eqb_eq in Edot. now subst d.
  - apply (step_token scan p); [exact HM1 | discriminate].
Qed.

End Step.

Section StepCases.

Context {rt : GoRuntime}.

Implicit Types (scan mid : Scanner) (p : Process).

#[local] Arguments Nat.ltb : simpl never.
#[local] Arguments Nat.leb : simpl never.

Lemma blank_not_newline c :
  Ascii.eqb c " " || Ascii.eqb c "013" || Ascii.eqb c "009" = true ->
  Ascii.eqb c NEWLINE = false.
Proof. destruct c as [[] [] [] [] [] [] [] []]; vm_compute; congruence. Qed.

(** Every turn of the loop that starts inside the source either returns,
    in one of the three ways of [StepOk], or panics on a trailing ['.']. *)
Lemma scanStep_result scan p :
  current scan < len (source scan) -> StepResult scan p (scanStep (scan, p)).
Proof.
  intros Hlt. destruct (get_lt_Some _ _ Hlt) as [c G].
  rewrite (scanStep_eq _ _ _ G). unfold scanToken_switch.
  repeat
    match goal with
    | |- StepResult _ _ ((if Ascii.eqb c ?k then _ else _) _) =>
        let E := fresh "E" in
        destruct (Ascii.eqb c k) eqn:E;
        [ apply Ascii.eqb_eq in E; subst c;
          first
            [ apply addToken_Mid;
              [ apply (Mid_first_plain _ _ G eq_refl) | discriminate ]
            | apply operator_result;
              [ apply (Mid_first_plain _ _ G eq_refl)
              | discriminate | discriminate | reflexivity ]
            | apply slash_result, (Mid_first_plain _ _ G eq_refl)
            | apply (step_skip scan p), (Mid_first _ _ G)
            | apply (parseString_result _ _ G) ]
        | ]
    | |- StepResult _ _ ((if _ || _ then _ else _) _) =>
        let E := fresh "E" in
        destruct (Ascii.eqb c " " || Ascii.eqb c "013" || Ascii.eqb c "009") eqn:E;
        [ apply blank_not_newline in E;
          apply (step_skip scan p), (Mid_first_plain _ _ G E)
        | ]
    end.
  destruct (isDigit c) eqn:Dc; [apply (number_result _ _ _ G Dc)|].
  destruct (isAlpha c) eqn:Ac; [apply (identifier_result _ _ _ G); assumption|].
  apply (step_error scan p), (Mid_first_plain _ _ G). assumption.
Qed.

End StepCases.

(** ** The loop of [ScanTokens] *)

Section Loop.

Context {rt : GoRuntime}.

Implicit Types (scan mid : Scanner) (p : Process).

#[local] Arguments Nat.ltb : simpl never.
#[local] Arguments Nat.leb : simpl never.

Lemma Advanced_refl scan p :
  current scan <= len (source scan) -> Advanced scan p scan p.
Proof.
  intros H. split; auto.
  - rewrite Nat.sub_diag, substring_drop, substring_0_0. cbn. lia.
  - exists []. split; [now rewrite app_nil_r | constructor].
  - exists []. split; [now rewrite app_nil_r | now rewrite orb_false_r].
Qed.

Lemma Advanced_trans scan p scan1 p1 scan2 p2 :
  Advanced scan p scan1 p1 -> Advanced scan1 p1 scan2 p2 ->
  Advanced scan p scan2 p2.
Proof.
  intros [S1 C1 B1 L1 [t1 [T1 F1]] O1 [m1 [E1 H1]]]
         [S2 C2 B2 L2 [t2 [T2 F2]] O2 [m2 [E2 H2]]].
  rewrite S1 in *. split.
  - congruence.
  - lia.
  - lia.
  - rewrite L2, L1.
    replace (current scan2 - current scan)
      with ((current scan1 - current scan) + (current scan2 - current scan1)) by lia.
    rewrite substring_plus, newlines_append.
    replace (current scan + (current scan1 - current scan)) with (current scan1) by lia.
    lia.
  - exists (t1 ++ t2)%list. split.
    + now rewrite T2, T1, app_assoc.
    + apply Forall_app. auto.
  - congruence.
  - exists (m1 ++ m2)%list. split.
    + now rewrite E2, E1, app_assoc.
    + rewrite H2, H1. destruct m1, m2; cbn; now rewrite ?orb_false_r, ?orb_true_r.
Qed.

Lemma Mid_Advanced scan mid p :
  Mid scan mid -> Advanced scan p mid p.
Proof.
  intros [Hs Ht Hst Hp Hb Hl]. split; auto; try lia.
  - exists []. split; [now rewrite Ht, app_nil_r | constructor].
  - exists []. split; [now rewrite app_nil_r | now rewrite orb_false_r].
Qed.

Lemma StepOk_Advanced scan p scan' p' :
  StepOk scan p scan' p' -> Advanced scan p scan' p'.
Proof.
  intros [mid HM | mid ty lit HM Hty | mid msg HM].
  - now apply Mid_Advanced.
  - destruct (Mid_Advanced _ _ p HM) as [S1 C1 B1 L1 _ O1 E1].
    destruct HM as [Hs Ht Hst Hp Hb Hl].
    split; auto.
    exists [token_here mid ty lit]. split.
    + cbn. now rewrite Ht.
    + constructor; [exact Hty | constructor].
  - destruct (Mid_Advanced _ _ p HM) as [S1 C1 B1 L1 T1 O1 _].
    split; auto.
    eexists. split; [reflexivity|]. cbn. now rewrite orb_true_r.
Qed.

Lemma StepOk_progress scan p scan' p' :
  StepOk scan p scan' p' ->
  source scan' = source scan /\ current scan < current scan'
  /\ current scan' <= len (source scan).
Proof.
  intros [mid [Hs Ht Hst Hp Hb Hl] | mid ty lit [Hs Ht Hst Hp Hb Hl] Hty
         | mid msg [Hs Ht Hst Hp Hb Hl]]; cbn; auto.
Qed.

Lemma scanLoop_done fuel scan p :
  len (source scan) <= current scan -> scanLoop fuel (scan, p) = Ok tt (scan, p).
Proof.
  intros H. apply Nat.leb_le in H.
  unfold scanLoop. destruct fuel; cbn; rewrite H; reflexivity.
Qed.

Lemma scanLoop_turn fuel scan p :
  current scan < len (source scan) ->
  scanLoop (S fuel) (scan, p) = (scanStep ;; scanLoop fuel) (scan, p).
Proof.
  intros H. apply Nat.leb_gt in H.
  unfold scanLoop. cbn. rewrite H. reflexivity.
Qed.

(** With fuel for every byte that is left, the loop returns at the end of
    the source, or panics on a trailing ['.']; it never runs out of fuel. *)
Lemma scanLoop_result fuel scan p :
  current scan <= len (source scan) ->
  len (source scan) - current scan <= fuel ->
  LoopResult scan p (scanLoop fuel (scan, p)).
Proof.
  revert scan p. induction fuel as [|fuel IH]; intros scan p Hle Hf.
  - rewrite scanLoop_done by lia. split; [now apply Advanced_refl | lia].
  - destruct (le_lt_dec (len (source scan)) (current scan)) as [L|L].
    + rewrite scanLoop_done by lia. split; [now apply Advanced_refl | lia].
    + rewrite scanLoop_turn by assumption.
      pose proof (scanStep_result scan p L) as HS.
      unfold bind. destruct (scanStep (scan, p)) as [[] [scan1 p1] | e | |];
        cbn in HS; try contradiction.
      * destruct (StepOk_progress _ _ _ _ HS) as (Es & Lt & Bd).
        specialize (IH scan1 p1 ltac:(rewrite Es; lia) ltac:(rewrite Es; lia)).
        destruct (scanLoop fuel (scan1, p1)) as [[] [scan2 p2] | e | |];
          cbn in IH |- *; try contradiction.
        -- destruct IH as [A2 E2]. rewrite Es in E2. split; auto.
           eapply Advanced_trans; eauto using StepOk_Advanced.
        -- destruct IH as [-> (scan' & S' & C' & T')]. rewrite Es in *.
           split; auto. exists scan'. repeat split; auto; try lia; apply T'.
      * destruct HS as [-> T]. split; auto. exists scan. auto.
Qed.

(** The loop does the same with any amount of fuel that covers the bytes
    that are left. *)
Lemma scanLoop_fuel fuel fuel' scan p :
  current scan <= len (source scan) ->
  len (source scan) - current scan <= fuel ->
  len (source scan) - current scan <= fuel' ->
  scanLoop fuel (scan, p) = scanLoop fuel' (scan, p).
Proof.
  revert fuel' scan p. induction fuel as [|fuel IH]; intros fuel' scan p Hle Hf Hf'.
  - now rewrite !scanLoop_done by lia.
  - destruct (le_lt_dec (len (source scan)) (current scan)) as [L|L].
    + now rewrite !scanLoop_done by lia.
    + destruct fuel' as [|fuel']; [lia|].
      rewrite !scanLoop_turn by assumption.
      pose proof (scanStep_result scan p L) as HS.
      unfold bind. destruct (scanStep (scan, p)) as [[] [scan1 p1] | e | |];
        cbn in HS; try contradiction; auto.
      destruct (StepOk_progress _ _ _ _ HS) as (Es & Lt & Bd).
      apply IH; rewrite Es; lia.
Qed.

(** A state at the head of the loop is as good a place to start from. *)
Lemma LoopReach_loop scan0 p0 scan p :
  current scan0 <= len (source scan0) ->
  LoopReach (scan0, p0) (scan, p) ->
  Advanced scan0 p0 scan p
  /\ scanLoop (len (source scan0)) (scan0, p0)
     = scanLoop (len (source scan0)) (scan, p).
Proof.
  intros Hle HR.
  remember (scan0, p0) as st0 eqn:E0. remember (scan, p) as st eqn:E.
  revert scan p E. induction HR as [|st st' HR IH Hlt Hstep]; intros scan p E.
  - subst. injection E as <- <-. split; [now apply Advanced_refl | reflexivity].
  - subst st0. destruct st as [scan1 p1]. subst st'.
    destruct (IH scan1 p1 eq_refl) as [A1 E1]. cbn [fst] in Hlt.
    pose proof (scanStep_result scan1 p1 Hlt) as HS. rewrite Hstep in HS.
    cbn in HS. split.
    + eapply Advanced_trans; eauto using StepOk_Advanced.
    + rewrite E1. destruct A1 as [S1 C1 B1 _ _ _ _].
      destruct (len (source scan0)) as [|n] eqn:En; [rewrite S1 in Hlt; lia|].
      rewrite scanLoop_turn by assumption.
      rewrite (bind_Ok _ _ _ _ _ Hstep).
      destruct (StepOk_progress _ _ _ _ HS) as (Es & Lt & Bd).
      apply scanLoop_fuel; rewrite ?Es, ?S1 in *; lia.
Qed.

End Loop.

(** ** The scanner only adds to the process *)

Section Frame.

Context {rt : GoRuntime}.

Implicit Types (scan mid : Scanner) (p d : Process).

Lemma pappend_start p : pappend p process_start = p.
Proof.
  destruct p. unfold pappend. cbn. now rewrite orb_false_r, !app_nil_r.
Qed.

Lemma pappend_assoc p d e : pappend (pappend p d) e = pappend p (pappend d e).
Proof.
  unfold pappend. cbn. f_equal; symmetry; auto using orb_assoc, app_assoc.
Qed.

Lemma shift_shift {A} p d (r : Result (Scanner * Process) A) :
  shift p (shift d r) = shift (pappend p d) r.
Proof. destruct r; cbn; now rewrite ?pappend_assoc. Qed.

Lemma Framed_ret {A} (a : A) : Framed (ret a).
Proof. intros scan p. cbn. now rewrite pappend_start. Qed.

Lemma Framed_panic {A} e : Framed (@panic _ A e).
Proof. intros scan p. reflexivity. Qed.

Lemma Framed_OutOfFuel {A} : Framed (fun _ => @OutOfFuel _ A).
Proof. intros scan p. reflexivity. Qed.

Lemma Framed_bind {A B} (m : ScanM A) (k : A -> ScanM B) :
  Framed m -> (forall a, Framed (k a)) -> Framed (bind m k).
Proof.
  intros Hm Hk scan p. unfold bind. rewrite (Hm scan p).
  destruct (m (scan, process_start)) as [a [scan1 d] | e | code [scan1 d] |];
    cbn; auto.
  rewrite (Hk a scan1 (pappend p d)), (Hk a scan1 d). now rewrite shift_shift.
Qed.

Lemma Framed_this : Framed this.
Proof. intros scan p. cbn. now rewrite pappend_start. Qed.

Lemma Framed_update f : Framed (update f).
Proof. intros scan p. cbn. now rewrite pappend_start. Qed.

Lemma Framed_index s i : Framed (index s i).
Proof. unfold index. destruct (String.get i s); [apply Framed_ret | apply Framed_panic]. Qed.

Lemma Framed_slice s lo hi : Framed (slice s lo hi).
Proof. unfold slice. destruct (_ && _); [apply Framed_ret | apply Framed_panic]. Qed.

Lemma Framed_LoxError line message : Framed (call (LoxError line message)).
Proof.
  intros scan p. cbn. unfold pappend. cbn. now rewrite orb_true_r, app_nil_r.
Qed.

Lemma Framed_while fuel (cond : ScanM bool) (body : ScanM unit) :
  Framed cond -> Framed body -> Framed (while fuel cond body).
Proof.
  intros Hc Hb. induction fuel as [|fuel IH]; cbn [while].
  - apply Framed_bind; auto. intros []; [apply Framed_OutOfFuel | apply Framed_ret].
  - apply Framed_bind; auto. intros []; [|apply Framed_ret].
    apply Framed_bind; auto.
Qed.

Create HintDb framed.

#[local] Hint Resolve Framed_ret Framed_panic Framed_this Framed_update
  Framed_index Framed_slice Framed_LoxError Framed_OutOfFuel : framed.

Ltac framed :=
  repeat first
    [ progress auto with framed
    | apply Framed_bind
    | apply Framed_while
    | match goal with
      | |- forall _, _ => intro
      | |- Framed (if ?b then _ else _) => destruct b
      | |- Framed (let '(_, _) := ?x in _) => destruct x
      end ].

Lemma Framed_isAtEnd : Framed isAtEnd.
Proof. unfold isAtEnd. framed. Qed.

Lemma Framed_advance : Framed advance.
Proof. unfold advance. framed. Qed.

Lemma Framed_peek : Framed peek.
Proof. unfold peek. pose proof Framed_isAtEnd. framed. Qed.

Lemma Framed_peekNext : Framed peekNext.
Proof. unfold peekNext. framed. Qed.

Lemma Framed_match expected : Framed (match_ expected).
Proof. unfold match_. pose proof Framed_isAtEnd. framed. Qed.

Lemma Framed_addTokenAndLiteral _type literal :
  Framed (addTokenAndLiteral _type literal).
Proof. unfold addTokenAndLiteral. framed. Qed.

Lemma Framed_addToken _type : Framed (addToken _type).
Proof. apply Framed_addTokenAndLiteral. Qed.

Lemma Framed_loop_fuel : Framed loop_fuel.
Proof. unfold loop_fuel. framed. Qed.

#[local] Hint Resolve Framed_isAtEnd Framed_advance Framed_peek Framed_peekNext
  Framed_match Framed_addTokenAndLiteral Framed_addToken Framed_loop_fuel
  : framed.

Lemma Framed_number : Framed number.
Proof. unfold number. framed. Qed.

Lemma Framed_identifier : Framed identifier.
Proof. unfold identifier. framed. Qed.

Lemma Framed_parseString : Framed parseString.
Proof. unfold parseString. framed. Qed.

#[local] Hint Resolve Framed_number Framed_identifier Framed_parseString : framed.

Lemma Framed_scanToken_switch char : Framed (scanToken_switch char).
Proof. unfold scanToken_switch. framed. Qed.

Lemma Framed_scanStep : Framed scanStep.
Proof. unfold scanStep, scanToken. pose proof Framed_scanToken_switch. framed. Qed.

Lemma Framed_ScanTokens : Framed ScanTokens.
Proof.
  unfold ScanTokens. pose proof Framed_scanStep as H. unfold scanStep in H. framed.
Qed.

(** A turn taken in one process can be taken in any other, to the same
    scanner state. *)
Lemma scanStep_any_process scan p scan' p' q :
  scanStep (scan, p) = Ok tt (scan', p') ->
  exists q', scanStep (scan, q) = Ok tt (scan', q').
Proof.
  rewrite (Framed_scanStep scan p), (Framed_scanStep scan q).
  destruct (scanStep (scan, process_start)) as [[] [s d] | | |]; cbn; try discriminate.
  intros [= <- _]. eauto.
Qed.

Lemma LoopReach_any_process scan0 p0 scan p q0 :
  LoopReach (scan0, p0) (scan, p) -> exists q, LoopReach (scan0, q0) (scan, q).
Proof.
  intros HR. remember (scan0, p0) as st0 eqn:E0. remember (scan, p) as st eqn:E.
  revert scan p E. induction HR as [|st st' HR IH Hlt Hstep]; intros scan p E.
  - subst. injection E as <- <-. exists q0. constructor.
  - subst st0 st'. destruct st as [scan1 p1].
    destruct (IH scan1 p1 eq_refl) as [q1 HR1].
    destruct (scanStep_any_process _ _ _ _ q1 Hstep) as [q' Hq].
    exists q'. eapply reach_step; eauto.
Qed.

Lemma Reach_any_process src scan p0 :
  Reach src scan -> exists p, LoopReach (NewScanner src, p0) (scan, p).
Proof. intros (q0 & q & HR). eapply LoopReach_any_process; eauto. Qed.

End Frame.

(** ** Positions in a concatenation *)

Section Positions.

Lemma drop_app_plus (a b : string) (k : nat) : drop (len a + k) (a ++ b) = drop k b.
Proof. now rewrite <- drop_drop, drop_append. Qed.

Lemma get_app_plus (a b : string) (k : nat) :
  String.get (len a + k) (a ++ b) = String.get k b.
Proof. now rewrite !get_drop, drop_app_plus. Qed.

Lemma substring_app_plus (a b : string) (k n : nat) :
  substring (len a + k) n (a ++ b) = substring k n b.
Proof. now rewrite substring_drop, drop_app_plus, <- substring_drop. Qed.

Lemma get_app_0 (a b : string) : String.get (len a) (a ++ b) = String.get 0 b.
Proof. rewrite <- (Nat.add_0_r (len a)). apply get_app_plus. Qed.

Lemma substring_app_0 (a b : string) (n : nat) :
  substring (len a) n (a ++ b) = substring 0 n b.
Proof. rewrite <- (Nat.add_0_r (len a)) at 1. apply substring_app_plus. Qed.

Lemma drop_app_0 (a b : string) : drop (len a) (a ++ b) = b.
Proof. apply drop_append. Qed.

Lemma len_String (c : ascii) (s : string) : len (String c s) = 1 + len s.
Proof. reflexivity. Qed.

Lemma len_empty : len "" = 0.
Proof. reflexivity. Qed.

End Positions.

(** Computes the length of a concatenation. *)
Ltac len_simpl :=
  repeat (rewrite length_append || rewrite len_String || rewrite len_empty).

(** ** Which branch of the [switch] a character takes *)

Section Switch.

Context {rt : GoRuntime}.

Lemma switch_digit c : isDigit c = true -> scanToken_switch c = number.
Proof.
  destruct c as [[] [] [] [] [] [] [] []]; intros H; try discriminate H;
    reflexivity.
Qed.

Lemma switch_alpha c : isAlpha c = true -> scanToken_switch c = identifier.
Proof.
  destruct c as [[] [] [] [] [] [] [] []]; intros H; try discriminate H;
    reflexivity.
Qed.

Lemma switch_dot : scanToken_switch "." = addToken DOT.
Proof. reflexivity. Qed.

Lemma switch_quote : scanToken_switch DQUOTE = parseString.
Proof. reflexivity. Qed.

(** The keyword table has one entry for each spelling: looking a word up
    finds a kind exactly when the table pairs the word with that kind. *)
Lemma keywords_In (text : string) (kw : TokenType) :
  keywords text = Some kw <-> In (text, kw) keywords_entries.
Proof.
  unfold keywords, keywords_entries. split.
  - cbn [lookup].
    repeat match goal with
           | |- context [String.eqb ?k text] =>
               let E := fresh "E" in
               destruct (String.eqb k text) eqn:E;
               [ apply String.eqb_eq in E; subst text; intros [= <-];
                 cbn; tauto
               | ]
           end.
    discriminate.
  - cbn [In]. intros H.
    repeat match type of H with
           | _ \/ _ => destruct H as [H | H]
           end; try contradiction; injection H as <- <-; reflexivity.
Qed.

(** The keyword table of the program is the list of reserved spellings of
    the specification, with the same kinds. *)
Lemma keywords_reserved (text : string) : keywords text = reserved_kind text.
Proof.
  unfold keywords, keywords_entries, reserved_kind. cbn [lookup].
  repeat match goal with
         | |- context [String.eqb ?k text] => rewrite (String.eqb_sym k text)
         end.
  reflexivity.
Qed.

Lemma word_type_keyword (text : string) (kw : TokenType) :
  In (text, kw) keywords_entries -> word_type text = kw.
Proof. intros H. apply keywords_In in H. unfold word_type. now rewrite H. Qed.

Lemma word_type_identifier (text : string) :
  (forall kw, ~ In (text, kw) keywords_entries) -> word_type text = IDENTIFIER.
Proof.
  intros H. unfold word_type. destruct (keywords text) as [kw|] eqn:E; auto.
  apply keywords_In in E. now apply H in E.
Qed.

Lemma keyword_kind_not_IDENTIFIER (text : string) (kw : TokenType) :
  In (text, kw) keywords_entries -> kw <> IDENTIFIER.
Proof.
  unfold keywords_entries. cbn [In]. intros H.
  repeat match type of H with
         | _ \/ _ => destruct H as [H | H]
         end; try contradiction; injection H as _ <-; discriminate.
Qed.

Lemma word_type_IDENTIFIER (text : string) :
  word_type text = IDENTIFIER -> forall kw, ~ In (text, kw) keywords_entries.
Proof.
  intros H kw HIn. pose proof (keyword_kind_not_IDENTIFIER _ _ HIn) as Hkw.
  apply word_type_keyword in HIn. congruence.
Qed.

Lemma word_type_not_identifier (text : string) :
  word_type text <> IDENTIFIER -> In (text, word_type text) keywords_entries.
Proof.
  unfold word_type. destruct (keywords text) as [kw|] eqn:E; [|congruence].
  intros _. now apply keywords_In.
Qed.

End Switch.


(** ** String literals *)

Section Strings_turn.

Context {rt : GoRuntime}.

Implicit Types (scan : Scanner) (p : Process).

#[local] Arguments Nat.ltb : simpl never.
#[local] Arguments Nat.leb : simpl never.

(** A turn that starts on a quote, when the next quote closes the
    literal. *)
Lemma string_turn_closed scan p pre body rest :
  source scan = pre ++ String DQUOTE (body ++ String DQUOTE rest) ->
  current scan = len pre ->
  all not_quote body = true ->
  scanStep (scan, p)
  = Ok tt ({| source := source scan;
              tokens := tokens scan
                        ++ [Token.mk _ STRING
                              (String DQUOTE (body ++ String DQUOTE ""))
                              (LoxString body) (line scan + newlines body)];
              start := len pre;
              current := len pre + len body + 2;
              line := line scan + newlines body |}, p).
Proof.
  intros Hsrc Hcur Hbody.
  assert (G : String.get (current scan) (source scan) = Some DQUOTE).
  { rewrite Hsrc, Hcur. apply get_append_mid. }
  pose proof (get_Some_lt _ _ _ G) as Hlt.
  rewrite (scanStep_eq _ _ _ G), switch_quote.
  rewrite parseString_eq by (cbn [start current source set_current set_start]; lia).
  cbn zeta. cbn [start current source line tokens set_current set_start set_line].
  assert (D : drop (current scan + 1) (source scan) = body ++ String DQUOTE rest).
  { rewrite Hsrc, Hcur. now rewrite drop_app_plus. }
  rewrite D, (span_append not_quote body (String DQUOTE rest) Hbody eq_refl).
  assert (Ls : len (source scan) = len pre + 1 + len body + 1 + len rest).
  { rewrite Hsrc. len_simpl. lia. }
  replace (len (source scan) <=? current scan + 1 + len body) with false
    by (symmetry; apply Nat.leb_gt; lia).
  unfold add_token, token_here, set_tokens.
  cbn [start current source line tokens set_current set_start set_line].
  assert (B : substring (current scan + 1) (len body) (source scan) = body).
  { rewrite Hsrc, Hcur, substring_app_plus. cbn [substring].
    apply substring_0_append. }
  assert (Lx : substring (current scan)
                 (current scan + 1 + len body + 1 - current scan) (source scan)
               = String DQUOTE (body ++ String DQUOTE "")).
  { replace (current scan + 1 + len body + 1 - current scan)
      with (len (String DQUOTE (body ++ String DQUOTE ""))).
    - rewrite Hsrc, Hcur.
      replace (String DQUOTE (body ++ String DQUOTE rest))
        with (String DQUOTE (body ++ String DQUOTE "") ++ rest).
      + apply substring_middle.
      + cbn [append]. now rewrite append_assoc.
    - len_simpl. lia. }
  rewrite Lx.
  replace (current scan + 1 + len body - (current scan + 1)) with (len body) by lia.
  rewrite B, Hcur. do 3 f_equal. lia.
Qed.

(** A turn that starts on a quote, when no quote follows. *)
Lemma string_turn_open scan p pre body :
  source scan = pre ++ String DQUOTE body ->
  current scan = len pre ->
  all not_quote body = true ->
  scanStep (scan, p)
  = Ok tt ({| source := source scan;
              tokens := tokens scan;
              start := len pre;
              current := len (source scan);
              line := line scan + newlines body |},
           reported p (line scan + newlines body) "Unterminated string.").
Proof.
  intros Hsrc Hcur Hbody.
  assert (G : String.get (current scan) (source scan) = Some DQUOTE).
  { rewrite Hsrc, Hcur. apply get_append_mid. }
  pose proof (get_Some_lt _ _ _ G) as Hlt.
  rewrite (scanStep_eq _ _ _ G), switch_quote.
  rewrite parseString_eq by (cbn [start current source set_current set_start]; lia).
  cbn zeta. cbn [start current source line tokens set_current set_start set_line].
  assert (D : drop (current scan + 1) (source scan) = body).
  { rewrite Hsrc, Hcur. now rewrite drop_app_plus. }
  rewrite D.
  assert (Sp : span not_quote body = len body).
  { rewrite <- (span_append not_quote body "" Hbody eq_refl).
    now rewrite append_empty_r. }
  rewrite Sp.
  assert (Ls : len (source scan) = len pre + 1 + len body).
  { rewrite Hsrc. len_simpl. lia. }
  replace (len (source scan) <=? current scan + 1 + len body) with true
    by (symmetry; apply Nat.leb_le; lia).
  assert (B : substring (current scan + 1) (len body) (source scan) = body).
  { rewrite Hsrc, Hcur, substring_app_plus. cbn [substring].
    apply substring_0_all. }
  rewrite B. unfold set_line, set_current, set_start.
  cbn [start current source line tokens]. rewrite Hcur. do 3 f_equal. lia.
Qed.

End Strings_turn.

(** ** Number literals *)

Section Numbers_turn.

Context {rt : GoRuntime}.

Implicit Types (scan : Scanner) (p : Process).

#[local] Arguments Nat.ltb : simpl never.
#[local] Arguments Nat.leb : simpl never.

Lemma all_digits_first c ds' :
  all isDigit (String c ds') = true -> isDigit c = true /\ all isDigit ds' = true.
Proof. cbn. apply andb_true_iff. Qed.

(** A turn that starts on a run of digits [ds] followed by a ['.'] and by
    a character that is not a digit. *)
Lemma number_turn_dot_other scan p pre c ds' x rest :
  source scan = pre ++ String c ds' ++ String "." (String x rest) ->
  current scan = len pre ->
  all isDigit (String c ds') = true ->
  isDigit x = false ->
  let ds := String c ds' in
  scanStep (scan, p)
  = Ok tt ({| source := source scan;
              tokens := tokens scan
                        ++ [Token.mk _ NUMBER ds (LoxNumber (fst (ParseFloat ds)))
                              (line scan)];
              start := len pre;
              current := len pre + len ds;
              line := line scan |}, p).
Proof.
  intros Hsrc Hcur Hds Hx ds. apply all_digits_first in Hds as [Hc Hds'].
  assert (G : String.get (current scan) (source scan) = Some c).
  { rewrite Hsrc, Hcur. cbn [append]. apply get_append_mid. }
  pose proof (get_Some_lt _ _ _ G) as Hlt.
  rewrite (scanStep_eq _ _ _ G), (switch_digit _ Hc).
  rewrite number_eq by (cbn [start current source set_current set_start]; lia).
  cbn zeta. cbn [start current source line tokens set_current set_start].
  assert (D : drop (current scan + 1) (source scan)
              = ds' ++ String "." (String x rest)).
  { rewrite Hsrc, Hcur. cbn [append]. now rewrite drop_app_plus. }
  rewrite D, (span_append isDigit ds' (String "." (String x rest)) Hds' eq_refl).
  assert (Ls : len (source scan) = len pre + 1 + len ds' + 2 + len rest).
  { rewrite Hsrc. len_simpl. lia. }
  assert (Gd : String.get (current scan + 1 + len ds') (source scan) = Some "."%char).
  { rewrite get_drop, <- drop_drop. rewrite D, drop_app_0. reflexivity. }
  assert (Gx : String.get (current scan + 1 + len ds' + 1) (source scan) = Some x).
  { rewrite get_drop, <- (drop_drop 1 (current scan + 1 + len ds')),
      <- (drop_drop (len ds') (current scan + 1)), D, drop_app_0.
    reflexivity. }
  unfold byte_at. rewrite Gd, Gx, Hx. cbn [Ascii.eqb Bool.eqb].
  replace (current scan + 1 + len ds' + 1 <? len (source scan)) with true
    by (symmetry; apply Nat.ltb_lt; lia).
  cbn match.
  unfold number_token, add_token, token_here, set_tokens.
  cbn [start current source line tokens set_current set_start].
  assert (Lw : len ds = 1 + len ds') by reflexivity.
  replace (current scan + 1 + len ds' - current scan) with (len ds) by lia.
  assert (L : substring (current scan) (len ds) (source scan) = ds).
  { rewrite Hsrc, Hcur. apply substring_middle. }
  rewrite L, Hcur. do 3 f_equal. lia.
Qed.

(** A turn that starts on a run of digits followed by a ['.'] that ends
    the source: [peekNext] reads one byte past the end. *)
Lemma number_turn_trailing_dot scan p pre c ds' :
  source scan = pre ++ String c ds' ++ "." ->
  current scan = len pre ->
  all isDigit (String c ds') = true ->
  scanStep (scan, p)
  = Panic (IndexOutOfRange (len (source scan)) (len (source scan))).
Proof.
  intros Hsrc Hcur Hds. apply all_digits_first in Hds as [Hc Hds'].
  assert (G : String.get (current scan) (source scan) = Some c).
  { rewrite Hsrc, Hcur. cbn [append]. apply get_append_mid. }
  pose proof (get_Some_lt _ _ _ G) as Hlt.
  rewrite (scanStep_eq _ _ _ G), (switch_digit _ Hc).
  rewrite number_eq by (cbn [start current source set_current set_start]; lia).
  cbn zeta. cbn [start current source line tokens set_current set_start].
  assert (D : drop (current scan + 1) (source scan) = ds' ++ ".").
  { rewrite Hsrc, Hcur. cbn [append]. now rewrite drop_app_plus. }
  rewrite D, (span_append isDigit ds' "." Hds' eq_refl).
  assert (Ls : len (source scan) = len pre + 1 + len ds' + 1).
  { rewrite Hsrc. len_simpl. lia. }
  assert (Gd : String.get (current scan + 1 + len ds') (source scan) = Some "."%char).
  { rewrite get_drop, <- drop_drop, D, drop_app_0. reflexivity. }
  unfold byte_at at 1. rewrite Gd. cbn [Ascii.eqb Bool.eqb].
  replace (current scan + 1 + len ds' + 1 <? len (source scan)) with false
    by (symmetry; apply Nat.ltb_ge; lia).
  reflexivity.
Qed.

(** A turn that starts on a ['.']. *)
Lemma dot_turn scan p :
  String.get (current scan) (source scan) = Some "."%char ->
  scanStep (scan, p)
  = Ok tt ({| source := source scan;
              tokens := tokens scan
                        ++ [Token.mk _ DOT "." LoxEmptyLiteral (line scan)];
              start := current scan;
              current := current scan + 1;
              line := line scan |}, p).
Proof.
  intros G. pose proof (get_Some_lt _ _ _ G) as Hlt.
  rewrite (scanStep_eq _ _ _ G), switch_dot.
  rewrite addToken_eq by (cbn [start current source set_current set_start]; lia).
  unfold set_tokens. cbn [start current source line tokens set_current set_start].
  replace (current scan + 1 - current scan) with 1 by lia.
  now rewrite (substring_S _ _ _ G).
Qed.

End Numbers_turn.

(** ** The driver *)

Section Driver.

Context {rt : GoRuntime}.

Implicit Types (scan : Scanner) (p d : Process).

#[local] Arguments Nat.ltb : simpl never.
#[local] Arguments Nat.leb : simpl never.

Lemma ScanTokens_loop scan p :
  ScanTokens (scan, p)
  = match scanLoop (len (source scan)) (scan, p) with
    | Ok _ st =>
        let toks := (tokens (fst st) ++ [EOF_token (line (fst st))])%list in
        Ok toks (set_tokens (fst st) toks, snd st)
    | Panic e => Panic e
    | Exit code st => Exit code st
    | OutOfFuel => OutOfFuel
    end.
Proof.
  unfold ScanTokens, scanLoop, scanStep, EOF_token.
  unfold bind at 1. cbn [loop_fuel this ret bind fst snd].
  unfold bind at 1.
  destruct (while _ _ _ _) as [[] [s q] | | |]; reflexivity.
Qed.

Lemma scan_source_loop src p :
  scan_source src p
  = match scanLoop (len src) (NewScanner src, p) with
    | Ok _ st => Ok (tokens (fst st) ++ [EOF_token (line (fst st))])%list (snd st)
    | Panic e => Panic e
    | Exit code st => Exit code (snd st)
    | OutOfFuel => OutOfFuel
    end.
Proof.
  unfold scan_source, with_scanner. rewrite ScanTokens_loop.
  cbn [source NewScanner].
  destruct (scanLoop _ _) as [[] [s q] | | |]; reflexivity.
Qed.

Lemma string_split3 (s : string) (i n : nat) (x : ascii) :
  i + n + 1 = len s -> String.get (i + n) s = Some x ->
  s = substring 0 i s ++ substring i n s ++ String x "".
Proof.
  intros L G. rewrite <- (substring_S _ _ _ G), <- substring_plus.
  rewrite <- substring_0_plus.
  replace (i + (n + 1)) with (len s) by lia.
  symmetry. apply substring_0_all.
Qed.

Lemma TrailingDot_source scan :
  current scan <= len (source scan) -> TrailingDot scan ->
  exists pre c ds',
    source scan = pre ++ String c ds' ++ "."
    /\ current scan = len pre
    /\ all isDigit (String c ds') = true.
Proof.
  intros Hle (Hn & G & L).
  set (n := span isDigit (drop (current scan) (source scan))) in *.
  pose proof (string_split3 _ _ _ _ L G) as E.
  pose proof (length_substring (current scan) n (source scan) ltac:(lia)) as Ln.
  pose proof (span_all isDigit (drop (current scan) (source scan))) as A.
  fold n in A. rewrite <- substring_drop in A.
  destruct (substring (current scan) n (source scan)) as [|c ds'] eqn:Es.
  - cbn in Ln. lia.
  - exists (substring 0 (current scan) (source scan)), c, ds'.
    repeat split; auto.
    symmetry. apply (length_substring 0). lia.
Qed.

(** Every scan terminates, in one of the two ways of [ScanResult]. *)
Lemma scan_source_result src p : ScanResult src p (scan_source src p).
Proof.
  rewrite scan_source_loop.
  pose proof (scanLoop_result (len src) (NewScanner src) p) as H.
  cbn [source current NewScanner] in H.
  specialize (H ltac:(lia) ltac:(lia)).
  destruct (scanLoop _ _) as [[] [s q] | e | |]; cbn in H |- *; try contradiction.
  - destruct H as [[Hs Hc Hb Hl [toks [Ht Hf]] Ho He] Hend].
    cbn [source current tokens line NewScanner] in *.
    repeat split; auto.
    exists toks. split; auto.
    rewrite Ht, Hl, Hend, Nat.sub_0_r, substring_0_all. reflexivity.
  - destruct H as [-> (scan' & Hs & Hc & T)]. split; auto.
    assert (Hle : current scan' <= len (source scan')).
    { destruct T as (_ & _ & L). lia. }
    destruct (TrailingDot_source _ Hle T) as (pre & c & ds' & E & _ & A).
    exists pre, c, ds'. rewrite <- Hs. auto.
Qed.

(** A scan in a process is the scan in the initial process, put after it. *)
Lemma scan_source_frame src p :
  scan_source src p
  = match scan_source src process_start with
    | Ok toks d => Ok toks (pappend p d)
    | Panic e => Panic e
    | Exit code d => Exit code (pappend p d)
    | OutOfFuel => OutOfFuel
    end.
Proof.
  unfold scan_source, with_scanner.
  rewrite (Framed_ScanTokens (NewScanner src) p).
  destruct (ScanTokens (NewScanner src, process_start)) as [a [s d] | | c [s d] |];
    reflexivity.
Qed.

Lemma print_tokens_eq toks p : print_tokens toks p = Ok tt (printed p toks).
Proof.
  revert p. induction toks as [|tok toks IH]; intros p.
  - unfold printed. cbn. rewrite app_nil_r. now destruct p.
  - cbn [print_tokens]. unfold bind, Printf. rewrite IH.
    unfold printed, record_of. cbn. now rewrite <- app_assoc.
Qed.

Lemma Run_eq src p :
  Run src p
  = match scan_source src p with
    | Ok toks p1 => Ok tt (printed p1 toks)
    | Panic e => Panic e
    | Exit code q => Exit code q
    | OutOfFuel => OutOfFuel
    end.
Proof.
  unfold Run, bind. fold (scan_source src).
  destruct (scan_source src p); auto using print_tokens_eq.
Qed.

Lemma main_eq prog path src (fs : FileSystem) p :
  fs path = inl src ->
  main [prog; "tokenize"; path] fs p
  = match scan_source src (logged p) with
    | Ok toks p1 =>
        if hadError p1 then Exit 65 (printed p1 toks)
        else Ok tt (printed p1 toks)
    | Panic e => Panic e
    | Exit code q => Exit code q
    | OutOfFuel => OutOfFuel
    end.
Proof.
  intros Hfs.
  change (main [prog; "tokenize"; path] fs p)
    with ((RunFile fs path ;;
           p0 <- get ;; if hadError p0 then os_Exit 65 else ret tt) (logged p)).
  unfold RunFile. rewrite Hfs. unfold bind at 1. rewrite Run_eq.
  destruct (scan_source src (logged p)) as [toks p1 | | |]; auto.
  unfold bind, get. cbn [hadError printed]. destruct (hadError p1); reflexivity.
Qed.

End Driver.
(** * The properties of the specification *)

Section Specification.

Context {rt : GoRuntime}.

Implicit Types (scan : Scanner) (p : Process).

#[local] Arguments Nat.ltb : simpl never.
#[local] Arguments Nat.leb : simpl never.
#[local] Arguments keywords : simpl never.

(** C8.  A word that starts with a letter or an underscore is consumed as
    the longest run of letters, digits and underscores: when the source is
    [pre ++ w ++ rest], the cursor stands at the first character of [w],
    [w] is such a word and [rest] does not continue it, one turn of the
    scanner appends exactly one token whose lexeme is the whole of [w] and
    leaves the cursor after it.  The kind of the token is the kind of a
    keyword exactly when the whole of [w] is one of the sixteen reserved
    spellings of the specification ([reserved_kind]), and then it is the
    kind that bears the name of that spelling; it is [IDENTIFIER] exactly
    when [w] is not a reserved spelling.  The keyword table of the program
    holds these spellings with these kinds and no other entry.  In
    particular the source [forest] scans as one [IDENTIFIER] token followed
    by the end-of-input token. *)
Theorem identifier_maximal_munch scan p pre c w' rest :
  source scan = pre ++ String c w' ++ rest ->
  current scan = len pre ->
  isAlpha c = true ->
  all isAlphaNumeric w' = true ->
  starts_with isAlphaNumeric rest = false ->
  let w := String c w' in
  scanStep (scan, p)
  = Ok tt ({| source := source scan;
              tokens := tokens scan
                        ++ [Token.mk _ (word_type w) w LoxEmptyLiteral (line scan)];
              start := len pre;
              current := len pre + len w;
              line := line scan |}, p)
  /\ word_type w
     = match reserved_kind w with
       | Some kw => kw
       | None => IDENTIFIER
       end
  /\ (forall kw,
         reserved_kind w = Some kw <-> word_type w = kw /\ kw <> IDENTIFIER)
  /\ (word_type w = IDENTIFIER <-> reserved_kind w = None)
  /\ (forall kw, In (w, kw) keywords_entries <-> reserved_kind w = Some kw)
  /\ (forall kw,
         In (w, kw) keywords_entries <-> word_type w = kw /\ kw <> IDENTIFIER)
  /\ (word_type w = IDENTIFIER <-> forall kw, ~ In (w, kw) keywords_entries)
  /\ with_scanner (NewScanner "forest") ScanTokens p
     = Ok [Token.mk _ IDENTIFIER "forest" LoxEmptyLiteral 1; EOF_token 1] p.
Proof.
  intros Hsrc Hcur Hc Hw Hrest w.
  assert (G : String.get (current scan) (source scan) = Some c).
  { rewrite Hsrc, Hcur. cbn [append]. apply get_append_mid. }
  pose proof (get_Some_lt _ _ _ G) as Hlt.
  assert (Kw : forall kw,
             In (w, kw) keywords_entries
             <-> word_type w = kw /\ kw <> IDENTIFIER).
  { intros kw. split.
    - intros HIn. split; [now apply word_type_keyword|].
      now apply keyword_kind_not_IDENTIFIER in HIn.
    - intros [<- Hkw]. now apply word_type_not_identifier. }
  assert (Rs : forall kw,
             In (w, kw) keywords_entries <-> reserved_kind w = Some kw).
  { intros kw. rewrite <- keywords_reserved. symmetry. apply keywords_In. }
  split; [|split; [|split; [|split; [|split; [|split; [|split]]]]]].
  - rewrite (scanStep_eq _ _ _ G), (switch_alpha _ Hc).
    rewrite identifier_eq by (cbn [start current source set_current set_start]; lia).
    cbn zeta. cbn [start current source line tokens set_current set_start].
    assert (D : drop (current scan + 1) (source scan) = w' ++ rest).
    { rewrite Hsrc, Hcur. cbn [append]. now rewrite drop_app_plus. }
    rewrite D, (span_append _ _ _ Hw Hrest).
    unfold add_token, token_here, set_tokens.
    cbn [start current source line tokens set_current set_start].
    assert (Lw : len w = 1 + len w') by reflexivity.
    replace (current scan + 1 + len w' - current scan) with (len w) by lia.
    assert (L : substring (current scan) (len w) (source scan) = w).
    { rewrite Hsrc, Hcur. apply substring_middle. }
    rewrite L, Hcur. do 3 f_equal. lia.
  - unfold word_type. now rewrite keywords_reserved.
  - intros kw. rewrite <- Rs. apply Kw.
  - split.
    + intros H. destruct (reserved_kind w) as [kw|] eqn:E; [|reflexivity].
      pose proof (proj2 (Rs kw) eq_refl) as HIn.
      now apply (word_type_IDENTIFIER _ H) in HIn.
    + intros H. unfold word_type. now rewrite keywords_reserved, H.
  - exact Rs.
  - exact Kw.
  - split; [apply word_type_IDENTIFIER | apply word_type_identifier].
  - reflexivity.
Qed.


(** C5 (as amended).  A string literal runs to the next quote character,
    whether or not a backslash precedes that quote: when the source is
    [pre], a quote, a [body] without any quote, a quote, and [rest], and
    the cursor stands on the first of the two quotes, one turn of the
    scanner appends exactly one [STRING] token whose literal value is
    [body], the characters strictly between the two quotes, and whose
    lexeme is the quoted form with both quotes; the cursor is left after
    the closing quote. *)
Theorem string_literal_payload scan p pre body rest :
  source scan = pre ++ String DQUOTE (body ++ String DQUOTE rest) ->
  current scan = len pre ->
  all not_quote body = true ->
  String.get (len pre + 1 + len body) (source scan) = Some DQUOTE
  /\ exists tok,
      scanStep (scan, p)
      = Ok tt ({| source := source scan;
                  tokens := tokens scan ++ [tok];
                  start := len pre;
                  current := len pre + 1 + len body + 1;
                  line := Token.line tok |}, p)
      /\ Token._type tok = STRING
      /\ Token.literal tok = LoxString body
      /\ Token.lexeme tok = String DQUOTE (body ++ String DQUOTE "").
Proof.
  intros Hsrc Hcur Hbody. split.
  - rewrite Hsrc.
    replace (len pre + 1 + len body) with (len pre + (1 + len body)) by lia.
    rewrite get_app_plus. cbn [String.get Nat.add]. apply get_append_mid.
  - exists (Token.mk _ STRING (String DQUOTE (body ++ String DQUOTE ""))
              (LoxString body) (line scan + newlines body)).
    split; [|repeat split].
    rewrite (string_turn_closed _ _ _ _ _ Hsrc Hcur Hbody).
    cbn [Token.line]. do 3 f_equal. lia.
Qed.

(** C9.  In a scan of [src], when a turn starts on the opening quote of a
    string literal that closes, the [STRING] token it appends carries the
    line of the closing quote: the line of the opening quote plus one for
    every newline between the quotes. *)
Theorem string_token_line src pre body rest scan p :
  src = pre ++ String DQUOTE (body ++ String DQUOTE rest) ->
  all not_quote body = true ->
  Reach src scan ->
  current scan = len pre ->
  exists scan' tok,
    scanStep (scan, p) = Ok tt (scan', p)
    /\ tokens scan' = (tokens scan ++ [tok])%list
    /\ Token._type tok = STRING
    /\ Token.line tok = line_of src (len pre + 1 + len body)
    /\ Token.line tok = line_of src (len pre) + newlines body.
Proof.
  intros Hsrc Hbody HR Hcur.
  destruct (Reach_any_process _ _ p HR) as [q HL].
  assert (H0 : current (NewScanner src) <= len (source (NewScanner src)))
    by (cbn; lia).
  destruct (LoopReach_loop _ _ _ _ H0 HL) as [[Hs _ _ Hl _ _ _] _].
  cbn [source current line NewScanner] in Hs, Hl. rewrite Nat.sub_0_r in Hl.
  rewrite <- Hs in Hsrc.
  rewrite (string_turn_closed _ _ _ _ _ Hsrc Hcur Hbody).
  eexists. eexists. split; [reflexivity|].
  cbn [tokens Token._type Token.line]. split; [reflexivity|]. split; [reflexivity|].
  rewrite Hs in Hsrc.
  assert (E : line_of src (len pre) = line scan).
  { unfold line_of. now rewrite Hl, Hcur. }
  split; [|now rewrite E].
  unfold line_of.
  replace (len pre + 1 + len body) with (len pre + (1 + len body)) by lia.
  rewrite substring_0_plus, newlines_append. cbn [Token.line].
  unfold line_of in E. rewrite <- E.
  assert (B : newlines (substring (len pre) (1 + len body) src) = newlines body).
  { rewrite Hsrc, substring_app_0. cbn [Nat.add substring].
    rewrite substring_0_append. reflexivity. }
  rewrite B. lia.
Qed.


(** C1.  The scan of a source that is a run of digits followed by a ['.']
    in last position panics: [number] calls [peekNext] with the cursor on
    the last byte, and [peekNext] indexes the source one byte past its
    end.  So it is not the case that a scan never fails by raising. *)
Theorem scan_panics_on_trailing_dot c ds' p :
  all isDigit (String c ds') = true ->
  scan_source (String c ds' ++ ".") p
  = Panic (IndexOutOfRange (len ds' + 2) (len ds' + 2)).
Proof.
  intros Hds. rewrite scan_source_loop.
  assert (L : len (String c ds' ++ ".") = S (len ds' + 1)) by (len_simpl; lia).
  rewrite L. rewrite scanLoop_turn by (cbn [current source NewScanner]; lia).
  rewrite (bind_Panic _ _ _ _
             (number_turn_trailing_dot (NewScanner (String c ds' ++ ".")) p
                "" c ds' eq_refl eq_refl Hds)).
  cbn [source NewScanner]. rewrite L. f_equal. f_equal; lia.
Qed.

(** C3.  Every scan terminates, and a scan that returns gives tokens that
    end with one end-of-input token, with an empty lexeme, an empty
    literal and the number of the last line of the source, and that hold
    no other end-of-input token.  But not every scan returns: the scan of
    [print 3.] panics, as does the scan of any source that ends with
    digits and a ['.']. *)
Theorem scan_ends_with_EOF_or_panics :
  (forall src p, ScanResult src p (scan_source src p))
  /\ (forall p, scan_source "print 3." p = Panic (IndexOutOfRange 8 8)).
Proof.
  split.
  - apply scan_source_result.
  - reflexivity.
Qed.

(** C4.  A turn that starts on a run of digits followed by a ['.'] that no
    digit follows: when a character that is not a digit follows the ['.'],
    the turn appends a [NUMBER] token for the digits alone and the next
    turn appends a [DOT] token; when the ['.'] is the last byte of the
    source the turn panics instead of giving the two tokens. *)
Theorem number_then_dot scan p pre c ds' rest :
  source scan = pre ++ String c ds' ++ String "." rest ->
  current scan = len pre ->
  all isDigit (String c ds') = true ->
  starts_with isDigit rest = false ->
  let ds := String c ds' in
  (rest <> "" ->
   (scanStep ;; scanStep) (scan, p)
   = Ok tt ({| source := source scan;
               tokens := tokens scan
                         ++ [Token.mk _ NUMBER ds (LoxNumber (fst (ParseFloat ds)))
                               (line scan);
                             Token.mk _ DOT "." LoxEmptyLiteral (line scan)];
               start := len pre + len ds;
               current := len pre + len ds + 1;
               line := line scan |}, p))
  /\ (rest = "" ->
      scanStep (scan, p)
      = Panic (IndexOutOfRange (len (source scan)) (len (source scan)))).
Proof.
  intros Hsrc Hcur Hds Hrest ds. split.
  - intros Hne. destruct rest as [|x rest]; [congruence|]. cbn in Hrest.
    rewrite (bind_Ok _ _ _ _ _
               (number_turn_dot_other _ p _ _ _ _ _ Hsrc Hcur Hds Hrest)).
    fold ds. rewrite dot_turn.
    + cbn [source tokens start current line]. rewrite <- app_assoc. reflexivity.
    + cbn [source current]. rewrite Hsrc.
      rewrite get_app_plus, get_app_0. reflexivity.
  - intros ->. apply (number_turn_trailing_dot _ p pre c ds' Hsrc Hcur Hds).
Qed.

(** C6.  In a scan of [src], when a turn starts on a quote that no quote
    follows, the scan returns the tokens it had before that turn and the
    end-of-input token, no [STRING] token; it reports one diagnostic more
    than it had, "Unterminated string.", with the number of the last line
    of the source, the line of the quote plus one for every newline after
    it; and the process that scans the file exits with code 65. *)
Theorem unterminated_string_reported src pre body scan :
  src = pre ++ String DQUOTE body ->
  all not_quote body = true ->
  Reach src scan ->
  current scan = len pre ->
  forall p0, exists p,
    LoopReach (NewScanner src, p0) (scan, p)
    /\ line scan + newlines body = 1 + newlines src
    /\ scan_source src p0
       = Ok (tokens scan ++ [EOF_token (1 + newlines src)])%list
            (reported p (1 + newlines src) "Unterminated string.")
    /\ forall prog path (fs : FileSystem),
        fs path = inl src ->
        exit_status (main [prog; "tokenize"; path] fs p0) = Some 65.
Proof.
  intros Hsrc Hbody HR Hcur.
  assert (Main : forall p0, exists p,
             LoopReach (NewScanner src, p0) (scan, p)
             /\ line scan + newlines body = 1 + newlines src
             /\ scan_source src p0
                = Ok (tokens scan ++ [EOF_token (1 + newlines src)])%list
                     (reported p (1 + newlines src) "Unterminated string.")).
  { intros p0. destruct (Reach_any_process _ _ p0 HR) as [p HL].
    exists p. split; [exact HL|].
    assert (H0 : current (NewScanner src) <= len (source (NewScanner src)))
      by (cbn; lia).
    destruct (LoopReach_loop _ _ _ _ H0 HL) as [[Hs _ Hb Hl _ _ _] Hloop].
    cbn [source current line NewScanner] in Hs, Hl, Hloop, Hb.
    rewrite Nat.sub_0_r in Hl.
    assert (Hline : line scan + newlines body = 1 + newlines src).
    { assert (E1 : substring 0 (len pre) src = pre)
        by (rewrite Hsrc; apply substring_0_append).
      assert (E2 : newlines src = newlines pre + newlines body)
        by (rewrite Hsrc, newlines_append; reflexivity).
      rewrite Hl, Hcur, E1, E2. lia. }
    split; [exact Hline|].
    rewrite scan_source_loop, Hloop.
    assert (Hlt : current scan < len (source scan)).
    { rewrite Hs, Hcur, Hsrc. len_simpl. lia. }
    rewrite <- Hs in Hsrc.
    destruct (len src) as [|n] eqn:En; [rewrite Hs in Hlt; lia|].
    rewrite scanLoop_turn by assumption.
    rewrite (bind_Ok _ _ _ _ _ (string_turn_open _ p _ _ Hsrc Hcur Hbody)).
    rewrite scanLoop_done by (cbn [source current]; lia).
    cbn [fst snd tokens line]. now rewrite Hline. }
  intros p0. destruct (Main p0) as (p & HL & Hline & Hscan).
  exists p. repeat split; auto.
  intros prog path fs Hfs. rewrite (main_eq _ _ _ _ _ Hfs).
  destruct (Main (logged p0)) as (p' & _ & _ & ->). reflexivity.
Qed.

(** C7.  The error flag is false when the process starts; a reported
    diagnostic sets it; a scan never resets it, and raises it exactly when
    it reports a diagnostic; and once the scan of the file has returned,
    the process exits with code 65 when the scan reported a diagnostic and
    with code 0 when it reported none. *)
Theorem hadError_decides_exit_code prog path src (fs : FileSystem) toks d :
  fs path = inl src ->
  scan_source src process_start = Ok toks d ->
  hadError process_start = false
  /\ (forall line where_ message p,
         exists p', LoxReport line where_ message p = Ok tt p'
                    /\ hadError p' = true)
  /\ (forall p, exists p',
         scan_source src p = Ok toks p'
         /\ (hadError p = true -> hadError p' = true)
         /\ stderr p' = (stderr p ++ stderr d)%list
         /\ hadError p' = hadError p || nonempty (stderr d))
  /\ exit_status (main [prog; "tokenize"; path] fs process_start)
     = Some (if nonempty (stderr d) then 65 else 0).
Proof.
  intros Hfs Hscan.
  assert (Hd : hadError d = nonempty (stderr d)).
  { pose proof (scan_source_result src process_start) as R.
    rewrite Hscan in R. destruct R as (_ & _ & msgs & E & H).
    cbn in E, H. now rewrite E, H. }
  assert (Frame : forall p, scan_source src p = Ok toks (pappend p d)).
  { intros p. now rewrite scan_source_frame, Hscan. }
  split; [reflexivity|]. split; [|split].
  - intros line0 where_ message p. eexists. split; reflexivity.
  - intros p. exists (pappend p d). split; [apply Frame|].
    cbn [pappend hadError stderr]. rewrite Hd. repeat split.
    intros ->. reflexivity.
  - rewrite (main_eq _ _ _ _ _ Hfs), Frame.
    cbn [pappend hadError logged orb]. rewrite Hd.
    now destruct (nonempty (stderr d)).
Qed.

(** C10.  The outcome of a scan, the tokens it returns or the panic it
    ends in, is the same in every process: it depends on the source alone,
    not on the error flag or on what was written before. *)
Theorem scan_deterministic src p1 p2 :
  outcome (scan_source src p1) = outcome (scan_source src p2).
Proof.
  rewrite (scan_source_frame src p1), (scan_source_frame src p2).
  now destruct (scan_source src process_start).
Qed.


Lemma Sprintf_s_TokenType_one_line t : newlines (Sprintf_s_TokenType t) = 0.
Proof. destruct t; reflexivity. Qed.

Lemma record_of_eq (tok : Token.t) :
  record_of tok
  = "%!s(main.TokenType=" ++ Sprintf_d (TokenType_int (Token._type tok))
    ++ ") " ++ Token.lexeme tok ++ " " ++ RawPrint (Token.literal tok)
    ++ newline.
Proof.
  unfold record_of, Token.String, Sprintf_s_TokenType.
  rewrite !append_assoc. reflexivity.
Qed.

(** No record of the program is the record of the specification: it
    starts with [%], not with the name of a kind. *)
Lemma record_of_not_spec (tok : Token.t) : record_of tok <> spec_record tok.
Proof.
  rewrite record_of_eq. unfold spec_record.
  destruct (Token._type tok); cbn [KIND_NAME append]; discriminate.
Qed.

Lemma append_inj_suffix (a b s t : string) :
  len s = len t -> a ++ s = b ++ t -> a = b /\ s = t.
Proof.
  intros L. revert b. induction a as [|x a IH]; intros b H.
  - destruct b as [|y b]; [auto|]. exfalso.
    apply (f_equal len) in H. cbn [append] in H.
    rewrite len_String, length_append in H. lia.
  - destruct b as [|y b].
    + exfalso. apply (f_equal len) in H. cbn [append] in H.
      rewrite len_String, length_append in H. lia.
    + cbn [append] in H. injection H as -> H.
      destruct (IH _ H) as [-> ->]. auto.
Qed.

(** The record of the end-of-input token. *)
Lemma record_of_EOF (line : nat) :
  record_of (EOF_token line) = "%!s(main.TokenType=38)  null" ++ newline.
Proof. reflexivity. Qed.

Lemma text_of_app (a b : list string) :
  text_of (a ++ b) = text_of a ++ text_of b.
Proof.
  unfold text_of. induction a as [|x a IH]; cbn; auto.
  now rewrite IH, append_assoc.
Qed.

Lemma text_of_records_end (toks : list Token.t) :
  text_of (map record_of toks) = ""
  \/ exists b, text_of (map record_of toks) = b ++ newline.
Proof.
  induction toks as [|tok toks IH]; [now left|]. right.
  cbn [map text_of fold_right]. fold (text_of (map record_of toks)).
  destruct IH as [-> | [b ->]].
  - exists (Token.String tok). now rewrite append_empty_r.
  - exists (record_of tok ++ b). now rewrite append_assoc.
Qed.

(** C2.  When the scan of a source returns, [Run] writes to the primary
    output one record for each token, in the order of the scan, and
    nothing else; but no record holds the name of a kind.  [TokenType] is
    an [int] without a [String] method, so the [%s] verb of [Token.String]
    writes [%!s(main.TokenType=N)], with the number of the kind, in front
    of the lexeme and the debug form of the literal.  No record is the
    record of the specification, and the last line written is
    [%!s(main.TokenType=38)  null], never [EOF  null].  A record is one
    line when its lexeme and its literal form hold no newline, and one
    line more for every newline they hold. *)
Theorem Run_prints_no_kind_name src p toks p1 :
  scan_source src p = Ok toks p1 ->
  Run src p = Ok tt (printed p1 toks)
  /\ stdout (printed p1 toks) = (stdout p ++ map record_of toks)%list
  /\ (forall tok,
         record_of tok
         = "%!s(main.TokenType=" ++ Sprintf_d (TokenType_int (Token._type tok))
           ++ ") " ++ Token.lexeme tok ++ " " ++ RawPrint (Token.literal tok)
           ++ newline)
  /\ (forall tok, record_of tok <> spec_record tok)
  /\ (forall tok,
         newlines (record_of tok)
         = 1 + newlines (Token.lexeme tok)
           + newlines (RawPrint (Token.literal tok)))
  /\ (exists before,
         text_of (map record_of toks)
         = before ++ "%!s(main.TokenType=38)  null" ++ newline
         /\ (before = "" \/ exists b, before = b ++ newline))
  /\ (forall before,
         text_of (map record_of toks) <> before ++ "EOF  null" ++ newline).
Proof.
  intros Hscan. pose proof (scan_source_result src p) as R.
  rewrite Hscan in R. destruct R as ((body & -> & _) & Hout & _).
  assert (End_ : text_of (map record_of (body ++ [EOF_token (1 + newlines src)]))
                 = text_of (map record_of body)
                   ++ "%!s(main.TokenType=38)  null" ++ newline).
  { rewrite map_app, text_of_app. reflexivity. }
  split; [|split; [|split; [|split; [|split; [|split]]]]].
  - now rewrite Run_eq, Hscan.
  - cbn [printed stdout]. now rewrite Hout.
  - apply record_of_eq.
  - apply record_of_not_spec.
  - intros tok. unfold record_of, Token.String. rewrite !newlines_append.
    rewrite Sprintf_s_TokenType_one_line. unfold newline. cbn. lia.
  - exists (text_of (map record_of body)). split.
    + exact End_.
    + apply text_of_records_end.
  - intros before H. rewrite End_ in H.
    change ("%!s(main.TokenType=38)  null" ++ newline)
      with ("%!s(main.TokenType=38" ++ (")  null" ++ newline)) in H.
    change ("EOF  null" ++ newline) with ("EO" ++ ("F  null" ++ newline)) in H.
    rewrite <- (append_assoc (text_of (map record_of body))) in H.
    rewrite <- (append_assoc before) in H.
    apply append_inj_suffix in H; [|reflexivity].
    destruct H as [_ H]. cbv in H. discriminate H.
Qed.

End Specification.

(** * The properties on concrete sources *)

Section Examples.

#[local] Existing Instance text_runtime.

(** C8 on the sources [forest;] and [for;]. *)
Lemma identifier_maximal_munch_witness :
  scanStep (NewScanner "forest;", process_start)
  = Ok tt ({| source := "forest;";
              tokens := [Token.mk _ IDENTIFIER "forest" LoxEmptyLiteral 1];
              start := 0; current := 6; line := 1 |}, process_start)
  /\ scanStep (NewScanner "for;", process_start)
     = Ok tt ({| source := "for;";
                 tokens := [Token.mk _ FOR "for" LoxEmptyLiteral 1];
                 start := 0; current := 3; line := 1 |}, process_start).
Proof.
  split.
  - exact (proj1 (identifier_maximal_munch (NewScanner "forest;") process_start
                    "" "f" "orest" ";" eq_refl eq_refl eq_refl eq_refl eq_refl)).
  - exact (proj1 (identifier_maximal_munch (NewScanner "for;") process_start
                    "" "f" "or" ";" eq_refl eq_refl eq_refl eq_refl eq_refl)).
Defined.

(** C5, as amended, on [multiline_source]. *)
Lemma string_literal_payload_witness :
  exists tok,
    scanStep (NewScanner multiline_source, process_start)
    = Ok tt ({| source := multiline_source;
                tokens := [tok];
                start := 0; current := 5;
                line := Token.line tok |}, process_start)
    /\ Token._type tok = STRING
    /\ Token.literal tok = LoxString ("a" ++ String NEWLINE "b")
    /\ Token.lexeme tok = multiline_source.
Proof.
  exact (proj2 (string_literal_payload (NewScanner multiline_source)
                  process_start "" ("a" ++ String NEWLINE "b") ""
                  eq_refl eq_refl eq_refl)).
Defined.

(** C5, as it was stated, on [escaped_quote_source]: the literal ends at
    the quote that a backslash precedes, and so is not the text up to the
    next unescaped quote. *)
Lemma string_stops_at_escaped_quote :
  exists tok rest p spec_value,
    scan_source escaped_quote_source process_start = Ok (tok :: rest) p
    /\ Token._type tok = STRING
    /\ upto_unescaped_quote (drop 1 escaped_quote_source) = Some spec_value
    /\ Token.literal tok <> LoxString spec_value.
Proof.
  do 4 eexists. split; [vm_compute; reflexivity|].
  split; [reflexivity|]. split; [vm_compute; reflexivity|].
  cbn. discriminate.
Qed.

Lemma second_line_reach :
  Reach second_line_source
    {| source := second_line_source; tokens := [];
       start := 0; current := 1; line := 2 |}.
Proof.
  exists process_start, process_start.
  apply (reach_step _ (NewScanner second_line_source, process_start)).
  - apply reach_start.
  - cbn. lia.
  - reflexivity.
Defined.

(** C9 on [second_line_source]: the literal opens on line 2 and closes on
    line 3. *)
Lemma string_token_line_witness :
  exists scan' tok,
    scanStep ({| source := second_line_source; tokens := [];
                 start := 0; current := 1; line := 2 |}, process_start)
    = Ok tt (scan', process_start)
    /\ tokens scan' = [tok]
    /\ Token._type tok = STRING
    /\ Token.line tok = line_of second_line_source 5
    /\ Token.line tok = line_of second_line_source 1 + 1.
Proof.
  exact (string_token_line second_line_source (String NEWLINE "")
           ("a" ++ String NEWLINE "b") "" _ process_start
           eq_refl eq_refl second_line_reach eq_refl).
Defined.

(** C1 on the source [1.]. *)
Lemma scan_panics_on_trailing_dot_witness :
  scan_source "1." process_start = Panic (IndexOutOfRange 2 2).
Proof.
  exact (scan_panics_on_trailing_dot "1" "" process_start eq_refl).
Defined.

(** C4 on the sources [1.] and [1.x]. *)
Lemma number_then_dot_witness :
  scanStep (NewScanner "1.", process_start) = Panic (IndexOutOfRange 2 2)
  /\ (scanStep ;; scanStep) (NewScanner "1.x", process_start)
     = Ok tt ({| source := "1.x";
                 tokens := [Token.mk _ NUMBER "1" (LoxNumber "1") 1;
                            Token.mk _ DOT "." LoxEmptyLiteral 1];
                 start := 1; current := 2; line := 1 |}, process_start).
Proof.
  split.
  - exact (proj2 (number_then_dot (NewScanner "1.") process_start "" "1" "" ""
                    eq_refl eq_refl eq_refl eq_refl) eq_refl).
  - refine (proj1 (number_then_dot (NewScanner "1.x") process_start "" "1" "" "x"
                     eq_refl eq_refl eq_refl eq_refl) _).
    discriminate.
Defined.

Lemma unterminated_reach :
  Reach unterminated_source
    {| source := unterminated_source;
       tokens := [Token.mk _ IDENTIFIER "x" LoxEmptyLiteral 1];
       start := 1; current := 2; line := 1 |}.
Proof.
  exists process_start, process_start.
  apply (reach_step _
           ({| source := unterminated_source;
               tokens := [Token.mk _ IDENTIFIER "x" LoxEmptyLiteral 1];
               start := 0; current := 1; line := 1 |}, process_start)).
  - apply (reach_step _ (NewScanner unterminated_source, process_start)).
    + apply reach_start.
    + cbn. lia.
    + reflexivity.
  - cbn. lia.
  - reflexivity.
Defined.

(** C6 on [unterminated_source]. *)
Lemma unterminated_string_reported_witness :
  exists p,
    scan_source unterminated_source process_start
    = Ok [Token.mk _ IDENTIFIER "x" LoxEmptyLiteral 1; EOF_token 2]
         (reported p 2 "Unterminated string.")
    /\ exit_status
         (main ["golox"; "tokenize"; "test.lox"]
            (fun _ => inl unterminated_source) process_start)
       = Some 65.
Proof.
  destruct (unterminated_string_reported unterminated_source "x "
              ("ab" ++ String NEWLINE "c") _ eq_refl eq_refl
              unterminated_reach eq_refl process_start)
    as (p & _ & _ & Hscan & Hexit).
  exists p. split; [exact Hscan|].
  apply (Hexit "golox" "test.lox" (fun _ => inl unterminated_source) eq_refl).
Defined.

(** C7 on a file that holds [a # b] and on one that holds [a  b]. *)
Lemma hadError_decides_exit_code_witness :
  exit_status
    (main ["golox"; "tokenize"; "test.lox"] (fun _ => inl "a # b") process_start)
  = Some 65
  /\ exit_status
       (main ["golox"; "tokenize"; "test.lox"] (fun _ => inl "a  b") process_start)
     = Some 0.
Proof.
  split.
  - assert (E : scan_source "a # b" process_start
                = Ok [Token.mk _ IDENTIFIER "a" LoxEmptyLiteral 1;
                      Token.mk _ IDENTIFIER "b" LoxEmptyLiteral 1; EOF_token 1]
                     (reported process_start 1 "Unexpected character: #"))
      by reflexivity.
    exact (proj2 (proj2 (proj2
             (hadError_decides_exit_code "golox" "test.lox" "a # b"
                (fun _ => inl "a # b") _ _ eq_refl E)))).
  - assert (E : scan_source "a  b" process_start
                = Ok [Token.mk _ IDENTIFIER "a" LoxEmptyLiteral 1;
                      Token.mk _ IDENTIFIER "b" LoxEmptyLiteral 1; EOF_token 1]
                     process_start)
      by reflexivity.
    exact (proj2 (proj2 (proj2
             (hadError_decides_exit_code "golox" "test.lox" "a  b"
                (fun _ => inl "a  b") _ _ eq_refl E)))).
Defined.

(** C2 on the source [var x = 12;]. *)
Lemma Run_prints_no_kind_name_witness :
  exists p,
    Run "var x = 12;" process_start = Ok tt p
    /\ stdout p
       = ["%!s(main.TokenType=36) var null" ++ newline;
          "%!s(main.TokenType=19) x null" ++ newline;
          "%!s(main.TokenType=13) = null" ++ newline;
          "%!s(main.TokenType=21) 12 12" ++ newline;
          "%!s(main.TokenType=8) ; null" ++ newline;
          "%!s(main.TokenType=38)  null" ++ newline]
    /\ forall tok, record_of tok <> spec_record tok.
Proof.
  assert (E : scan_source "var x = 12;" process_start
              = Ok var_x_tokens process_start) by reflexivity.
  exists (printed process_start var_x_tokens). split; [|split].
  - exact (proj1 (Run_prints_no_kind_name "var x = 12;" process_start _ _ E)).
  - reflexivity.
  - exact (proj1 (proj2 (proj2 (proj2
             (Run_prints_no_kind_name "var x = 12;" process_start _ _ E))))).
Defined.

(** A string literal that spans lines: the two tokens of
    [multiline_source] are printed on three lines. *)
Lemma Run_multiline_string_lines :
  exists toks p1 p2,
    scan_source multiline_source process_start = Ok toks p1
    /\ Run multiline_source process_start = Ok tt p2
    /\ length toks = 2
    /\ newlines (text_of (stdout p2)) = 3.
Proof.
  exists multiline_tokens, process_start,
    (printed process_start multiline_tokens).
  split; [reflexivity|]. split; [reflexivity|]. split; reflexivity.
Qed.

(** The sources of the examples of the specification, as the program
    runs them. *)

Example scan_var_x :
  scan_source "var x = 12;" process_start = Ok var_x_tokens process_start.
Proof. reflexivity. Qed.

Example scan_comment_then_number :
  Run ("// comment only" ++ newline ++ "42") process_start
  = Ok tt {| hadError := false;
             stdout := ["%!s(main.TokenType=21) 42 42" ++ newline;
                        "%!s(main.TokenType=38)  null" ++ newline];
             stderr := [] |}.
Proof. reflexivity. Qed.

Example scan_fraction :
  Run "123.456" process_start
  = Ok tt {| hadError := false;
             stdout := ["%!s(main.TokenType=21) 123.456 123.456" ++ newline;
                        "%!s(main.TokenType=38)  null" ++ newline];
             stderr := [] |}.
Proof. reflexivity. Qed.

Example scan_operators :
  option_map (map Token._type)
    (match scan_source "!= ! == = <= < >= > / (){},.-+;*" process_start with
     | Ok toks _ => Some toks
     | _ => None
     end)
  = Some [BANG_EQUAL; BANG; EQUAL_EQUAL; EQUAL; LESS_EQUAL; LESS;
          GREATER_EQUAL; GREATER; SLASH; LEFT_PAREN; RIGHT_PAREN; LEFT_BRACE;
          RIGHT_BRACE; COMMA; DOT; MINUS; PLUS; SEMICOLON; STAR; EOF].
Proof. reflexivity. Qed.

Example scan_empty :
  scan_source "" process_start = Ok [EOF_token 1] process_start.
Proof. reflexivity. Qed.

Example scan_unexpected_characters :
  main ["golox"; "tokenize"; "test.lox"] (fun _ => inl "@ #") process_start
  = Exit 65
      {| hadError := true;
         stdout := ["%!s(main.TokenType=38)  null" ++ newline];
         stderr := ["Logs from your program will appear here!" ++ newline;
                    "[line 1] Error: Unexpected character: @" ++ newline;
                    "[line 1] Error: Unexpected character: #" ++ newline] |}.
Proof. reflexivity. Qed.

End Examples.

(** * More properties of the scanner *)

Section Turns.

Context {rt : GoRuntime}.

Implicit Types (scan mid : Scanner) (p : Process).

#[local] Arguments Nat.ltb : simpl never.
#[local] Arguments Nat.leb : simpl never.

(** A turn that starts at the end of the source panics in [advance]; the
    loop of [ScanTokens] never starts one. *)
Lemma scanStep_at_end scan p :
  len (source scan) <= current scan ->
  scanStep (scan, p)
  = Panic (IndexOutOfRange (current scan) (len (source scan))).
Proof.
  intros H. apply get_None_iff in H.
  change (scanStep (scan, p))
    with (bind advance scanToken_switch (set_start scan (current scan), p)).
  unfold advance, bind, this, index. cbn [fst snd source current set_start].
  now rewrite H.
Qed.

Lemma scanStep_Ok_inside scan p scan' p' :
  scanStep (scan, p) = Ok tt (scan', p') -> current scan < len (source scan).
Proof.
  intros H. destruct (le_lt_dec (len (source scan)) (current scan)) as [L|L]; auto.
  rewrite (scanStep_at_end _ _ L) in H. discriminate.
Qed.

Lemma scanStep_Ok_StepOk scan p scan' p' :
  scanStep (scan, p) = Ok tt (scan', p') -> StepOk scan p scan' p'.
Proof.
  intros H. pose proof (scanStep_result scan p (scanStep_Ok_inside _ _ _ _ H)) as R.
  now rewrite H in R.
Qed.

(** X1.  A turn of the scanner that returns leaves the source as it was,
    sets [start] to the place the cursor had, moves the cursor forward by
    at least one byte and not beyond the end of the source, and adds to
    [line] the number of newlines among the bytes it went over. *)
Theorem turn_moves_cursor scan p scan' p' :
  scanStep (scan, p) = Ok tt (scan', p') ->
  source scan' = source scan
  /\ start scan' = current scan
  /\ current scan < current scan'
  /\ current scan' <= len (source scan)
  /\ line scan'
     = line scan
       + newlines (substring (current scan) (current scan' - current scan)
                     (source scan)).
Proof.
  intros H. apply scanStep_Ok_StepOk in H.
  destruct H as [mid [Hs Ht Hst Hp Hb Hl] | mid ty lit [Hs Ht Hst Hp Hb Hl] Hty
                | mid msg [Hs Ht Hst Hp Hb Hl]]; cbn; auto.
Qed.

(** X2.  A turn of the scanner that returns writes nothing to the primary
    output and does one of three things: it emits nothing; or it appends
    one token, never an end-of-input token, whose lexeme is exactly the
    bytes the turn went over and whose line is the line counter after the
    turn; or it reports one diagnostic, with the line counter after the
    turn, and appends no token. *)
Theorem turn_output scan p scan' p' :
  scanStep (scan, p) = Ok tt (scan', p') ->
  let consumed :=
    substring (current scan) (current scan' - current scan) (source scan) in
  stdout p' = stdout p
  /\ ((tokens scan' = tokens scan /\ p' = p)
      \/ (exists _type literal,
             _type <> EOF
             /\ tokens scan'
                = (tokens scan
                   ++ [Token.mk _ _type consumed literal (line scan')])%list
             /\ p' = p)
      \/ (exists message,
             tokens scan' = tokens scan
             /\ hadError p' = true
             /\ stderr p' = (stderr p ++ [diagnostic (line scan') message])%list)).
Proof.
  intros H consumed. subst consumed. apply scanStep_Ok_StepOk in H.
  destruct H as [mid [Hs Ht Hst Hp Hb Hl] | mid ty lit [Hs Ht Hst Hp Hb Hl] Hty
                | mid msg [Hs Ht Hst Hp Hb Hl]].
  - split; auto.
  - split; auto. right; left. exists ty, lit. repeat split; auto.
    unfold add_token, token_here. cbn. now rewrite Ht, Hs, Hst.
  - split; auto. right; right. exists msg. repeat split; auto.
Qed.

End Turns.

Section Branches_of_scanToken.

Context {rt : GoRuntime}.

Implicit Types (scan mid : Scanner) (p : Process).

#[local] Arguments Nat.ltb : simpl never.
#[local] Arguments Nat.leb : simpl never.

(** The scanner once a turn has gone over [n] bytes from the cursor and
    done nothing else. *)
Lemma scanStep_switch scan p c :
  String.get (current scan) (source scan) = Some c ->
  scanStep (scan, p)
  = scanToken_switch c
      ({| source := source scan; tokens := tokens scan;
          start := current scan; current := current scan + 1;
          line := line scan |}, p).
Proof. apply scanStep_eq. Qed.

(** A turn on a character whose case is [scan.addToken(_type)]. *)
Lemma addToken_turn scan p c _type :
  String.get (current scan) (source scan) = Some c ->
  scanToken_switch c = addToken _type ->
  scanStep (scan, p)
  = Ok tt ({| source := source scan;
              tokens := tokens scan
                        ++ [Token.mk _ _type (String c "") LoxEmptyLiteral
                              (line scan)];
              start := current scan;
              current := current scan + 1;
              line := line scan |}, p).
Proof.
  intros G E. pose proof (get_Some_lt _ _ _ G) as Hlt.
  rewrite (scanStep_switch _ _ _ G), E.
  rewrite addToken_eq by (cbn [start current source]; lia).
  unfold set_tokens. cbn [start current source line tokens].
  replace (current scan + 1 - current scan) with 1 by lia.
  now rewrite (substring_S _ _ _ G).
Qed.

(** X3.  A turn that starts on one of the ten punctuation characters
    appends one token of the kind of that character, whose lexeme is the
    character and whose literal is empty, moves the cursor by one byte and
    reports nothing. *)
Theorem punctuation_token scan p c _type :
  String.get (current scan) (source scan) = Some c ->
  In (c, _type) punctuation ->
  scanStep (scan, p)
  = Ok tt ({| source := source scan;
              tokens := tokens scan
                        ++ [Token.mk _ _type (String c "") LoxEmptyLiteral
                              (line scan)];
              start := current scan;
              current := current scan + 1;
              line := line scan |}, p).
Proof.
  intros G HIn. apply (addToken_turn _ _ _ _ G).
  unfold punctuation in HIn. cbn [In] in HIn.
  repeat match type of HIn with
         | _ \/ _ => destruct HIn as [HIn | HIn]
         end; try contradiction; injection HIn as <- <-; reflexivity.
Qed.

(** X4.  A turn that starts on [!], [=], [<] or [>] looks at the next
    byte: when it is [=] the turn appends the two-character kind, with a
    lexeme of two bytes, and moves the cursor by two; otherwise, and at the
    end of the source, it appends the one-character kind and moves the
    cursor by one, so that the next byte is left for the next turn. *)
Theorem operator_token scan p c one two :
  String.get (current scan) (source scan) = Some c ->
  In (c, (one, two)) operators ->
  (String.get (current scan + 1) (source scan) = Some "="%char ->
   scanStep (scan, p)
   = Ok tt ({| source := source scan;
               tokens := tokens scan
                         ++ [Token.mk _ two (String c "=") LoxEmptyLiteral
                               (line scan)];
               start := current scan;
               current := current scan + 2;
               line := line scan |}, p))
  /\ (String.get (current scan + 1) (source scan) <> Some "="%char ->
      scanStep (scan, p)
      = Ok tt ({| source := source scan;
                  tokens := tokens scan
                            ++ [Token.mk _ one (String c "") LoxEmptyLiteral
                                  (line scan)];
                  start := current scan;
                  current := current scan + 1;
                  line := line scan |}, p)).
Proof.
  intros G HIn. pose proof (get_Some_lt _ _ _ G) as Hlt.
  assert (Sw : scanToken_switch c
               = (b <- match_ "=" ;;
                  if b : bool then addToken two else addToken one)).
  { unfold operators in HIn. cbn [In] in HIn.
    repeat match type of HIn with
           | _ \/ _ => destruct HIn as [HIn | HIn]
           end; try contradiction; injection HIn as <- <- <-; reflexivity. }
  rewrite (scanStep_switch _ _ _ G), Sw.
  set (scan1 := {| source := source scan; tokens := tokens scan;
                   start := current scan; current := current scan + 1;
                   line := line scan |}).
  pose proof (match_eq "=" scan1 p) as Hm.
  cbn [source current scan1] in Hm. unfold byte_at in Hm.
  split.
  - intros G1. pose proof (get_Some_lt _ _ _ G1) as Hlt1.
    rewrite G1 in Hm. apply Nat.ltb_lt in Hlt1. rewrite Hlt1 in Hm.
    cbn [andb Ascii.eqb Bool.eqb] in Hm. cbn match in Hm.
    rewrite (bind_Ok _ _ _ _ _ Hm).
    apply Nat.ltb_lt in Hlt1.
    rewrite addToken_eq by (cbn [start current source set_current scan1]; lia).
    unfold set_tokens, set_current.
    cbn [start current source line tokens scan1].
    replace (current scan + 1 + 1 - current scan) with (1 + 1) by lia.
    rewrite substring_plus, (substring_S _ _ _ G), (substring_S _ _ _ G1).
    cbn [append]. do 3 f_equal. lia.
  - intros G1.
    assert (E : (current scan + 1 <? len (source scan))
                && Ascii.eqb
                     match String.get (current scan + 1) (source scan) with
                     | Some c0 => c0
                     | None => "000"%char
                     end "=" = false).
    { destruct (String.get (current scan + 1) (source scan)) as [d|] eqn:Gd.
      - destruct (Ascii.eqb d "=") eqn:Ed; [|apply andb_false_r].
        apply Ascii.eqb_eq in Ed. subst d. congruence.
      - apply get_None_iff in Gd. apply andb_false_intro1, Nat.ltb_ge. lia. }
    rewrite E in Hm. rewrite (bind_Ok _ _ _ _ _ Hm).
    rewrite addToken_eq by (cbn [start current source scan1]; lia).
    unfold set_tokens. cbn [start current source line tokens scan1].
    replace (current scan + 1 - current scan) with 1 by lia.
    now rewrite (substring_S _ _ _ G).
Qed.

End Branches_of_scanToken.

Section More_branches.

Context {rt : GoRuntime}.

Implicit Types (scan mid : Scanner) (p : Process).

#[local] Arguments Nat.ltb : simpl never.
#[local] Arguments Nat.leb : simpl never.

Lemma switch_slash :
  scanToken_switch "/"
  = (b <- match_ "/" ;;
     if b : bool then
       fuel <- loop_fuel ;;
       while fuel
         (c <- peek ;; atEnd <- isAtEnd ;;
          ret (negb (Ascii.eqb c NEWLINE) && negb atEnd))
         (advance ;; ret tt)
     else addToken SLASH).
Proof. reflexivity. Qed.

(** X5.  A turn that starts on [/]: when the next byte is not [/], or the
    source ends there, the turn appends a [SLASH] token; when the next byte
    is [/], the turn goes over the rest of the physical line, up to but
    not over the next newline or up to the end of the source, and appends
    no token, reports nothing and leaves the line counter as it was. *)
Theorem slash_or_comment scan p :
  String.get (current scan) (source scan) = Some "/"%char ->
  (String.get (current scan + 1) (source scan) <> Some "/"%char ->
   scanStep (scan, p)
   = Ok tt ({| source := source scan;
               tokens := tokens scan
                         ++ [Token.mk _ SLASH "/" LoxEmptyLiteral (line scan)];
               start := current scan;
               current := current scan + 1;
               line := line scan |}, p))
  /\ (forall text rest,
         drop (current scan + 1) (source scan) = String "/" (text ++ rest) ->
         all not_newline text = true ->
         starts_with not_newline rest = false ->
         scanStep (scan, p)
         = Ok tt ({| source := source scan;
                     tokens := tokens scan;
                     start := current scan;
                     current := current scan + 2 + len text;
                     line := line scan |}, p)).
Proof.
  intros G. pose proof (get_Some_lt _ _ _ G) as Hlt.
  rewrite (scanStep_switch _ _ _ G), switch_slash.
  set (scan1 := {| source := source scan; tokens := tokens scan;
                   start := current scan; current := current scan + 1;
                   line := line scan |}).
  pose proof (match_eq "/" scan1 p) as Hm.
  cbn [source current scan1] in Hm. unfold byte_at in Hm.
  split.
  - intros G1.
    assert (E : (current scan + 1 <? len (source scan))
                && Ascii.eqb
                     match String.get (current scan + 1) (source scan) with
                     | Some c0 => c0
                     | None => "000"%char
                     end "/" = false).
    { destruct (String.get (current scan + 1) (source scan)) as [d|] eqn:Gd.
      - destruct (Ascii.eqb d "/") eqn:Ed; [|apply andb_false_r].
        apply Ascii.eqb_eq in Ed. subst d. congruence.
      - apply get_None_iff in Gd. apply andb_false_intro1, Nat.ltb_ge. lia. }
    rewrite E in Hm. rewrite (bind_Ok _ _ _ _ _ Hm).
    rewrite addToken_eq by (cbn [start current source scan1]; lia).
    unfold set_tokens. cbn [start current source line tokens scan1].
    replace (current scan + 1 - current scan) with 1 by lia.
    now rewrite (substring_S _ _ _ G).
  - intros text rest D Ht Hr.
    assert (G1 : String.get (current scan + 1) (source scan) = Some "/"%char)
      by (now rewrite get_drop, D).
    pose proof (get_Some_lt _ _ _ G1) as Hlt1.
    rewrite G1 in Hm. apply Nat.ltb_lt in Hlt1. rewrite Hlt1 in Hm.
    cbn [andb Ascii.eqb Bool.eqb] in Hm. cbn match in Hm.
    rewrite (bind_Ok _ _ _ _ _ Hm). apply Nat.ltb_lt in Hlt1.
    unfold loop_fuel. rewrite bind_assoc. cbn [this bind fst snd ret].
    rewrite skip_until_loop
      by (cbn [source current set_current scan1]; lia).
    unfold set_current. cbn [start current source line tokens scan1].
    assert (D2 : drop (current scan + 1 + 1) (source scan) = text ++ rest).
    { rewrite <- (drop_drop 1 (current scan + 1)), D. reflexivity. }
    rewrite D2. fold not_newline.
    change (fun c : ascii => negb (Ascii.eqb c NEWLINE)) with not_newline.
    rewrite (span_append _ _ _ Ht Hr). do 3 f_equal. lia.
Qed.

Lemma blank_switch c : blank c = true -> scanToken_switch c = ret tt.
Proof.
  destruct c as [[] [] [] [] [] [] [] []]; intros H; try discriminate H;
    reflexivity.
Qed.

Lemma newline_switch :
  scanToken_switch NEWLINE
  = update (fun scan => set_line scan (line scan + 1)).
Proof. reflexivity. Qed.

(** X6.  A turn that starts on a space, a carriage return or a tab goes
    over that byte and does nothing else.  A turn that starts on a newline
    goes over it and adds one to the line counter.  Neither appends a token
    or reports anything. *)
Theorem blank_or_newline scan p c :
  String.get (current scan) (source scan) = Some c ->
  blank c = true \/ c = NEWLINE ->
  scanStep (scan, p)
  = Ok tt ({| source := source scan;
              tokens := tokens scan;
              start := current scan;
              current := current scan + 1;
              line := line scan + (if Ascii.eqb c NEWLINE then 1 else 0) |}, p).
Proof.
  intros G [B | ->]; rewrite (scanStep_switch _ _ _ G).
  - rewrite (blank_switch _ B).
    rewrite (blank_not_newline c B), Nat.add_0_r. reflexivity.
  - rewrite newline_switch. reflexivity.
Qed.

Lemma unexpected_switch c :
  recognized c = false ->
  scanToken_switch c
  = (scan <- this ;;
     call (LoxError (line scan) ("Unexpected character: " ++ Sprintf_c c))).
Proof.
  destruct c as [[] [] [] [] [] [] [] []]; intros H; try discriminate H;
    reflexivity.
Qed.

(** X7.  A turn that starts on a character that no case of the [switch]
    accepts goes over that one byte, appends no token, sets the error flag
    and writes one diagnostic, "Unexpected character:" with the character,
    stamped with the current line; scanning goes on from the next byte. *)
Theorem unexpected_character scan p c :
  String.get (current scan) (source scan) = Some c ->
  recognized c = false ->
  scanStep (scan, p)
  = Ok tt ({| source := source scan;
              tokens := tokens scan;
              start := current scan;
              current := current scan + 1;
              line := line scan |},
           {| hadError := true;
              stdout := stdout p;
              stderr := stderr p
                        ++ [diagnostic (line scan)
                              ("Unexpected character: " ++ Sprintf_c c)] |}).
Proof.
  intros G R. rewrite (scanStep_switch _ _ _ G), (unexpected_switch _ R).
  reflexivity.
Qed.

(** X8.  A turn that starts on digits, a ['.'] and digits again appends one
    [NUMBER] token whose lexeme is the two runs of digits with the ['.']
    between them, whose value is what [strconv.ParseFloat] gives for that
    lexeme, and leaves the cursor after the second run: a second ['.'] is
    not part of the number. *)
Theorem number_with_fraction scan p pre c ds' f fs' rest :
  source scan = pre ++ String c ds' ++ String "." (String f fs') ++ rest ->
  current scan = len pre ->
  all isDigit (String c ds') = true ->
  all isDigit (String f fs') = true ->
  starts_with isDigit rest = false ->
  let text := String c ds' ++ String "." (String f fs') in
  scanStep (scan, p)
  = Ok tt ({| source := source scan;
              tokens := tokens scan
                        ++ [Token.mk _ NUMBER text
                              (LoxNumber (fst (ParseFloat text))) (line scan)];
              start := len pre;
              current := len pre + len text;
              line := line scan |}, p).
Proof.
  intros Hsrc Hcur Hds Hfs Hrest text.
  apply all_digits_first in Hds as [Hc Hds'].
  pose proof Hfs as Hfs0. apply all_digits_first in Hfs0 as [Hf Hfs'].
  assert (G : String.get (current scan) (source scan) = Some c).
  { rewrite Hsrc, Hcur. cbn [append]. apply get_append_mid. }
  pose proof (get_Some_lt _ _ _ G) as Hlt.
  rewrite (scanStep_eq _ _ _ G), (switch_digit _ Hc).
  rewrite number_eq by (cbn [start current source set_current set_start]; lia).
  cbn zeta. cbn [start current source line tokens set_current set_start].
  assert (D : drop (current scan + 1) (source scan)
              = ds' ++ String "." (String f fs' ++ rest)).
  { rewrite Hsrc, Hcur. cbn [append]. now rewrite drop_app_plus. }
  rewrite D, (span_append isDigit ds' (String "." (String f fs' ++ rest))
                Hds' eq_refl).
  assert (Ls : len (source scan)
               = len pre + 1 + len ds' + 2 + len fs' + len rest).
  { rewrite Hsrc. len_simpl. lia. }
  assert (Gd : String.get (current scan + 1 + len ds') (source scan)
               = Some "."%char).
  { rewrite get_drop, <- drop_drop, D, drop_app_0. reflexivity. }
  assert (D2 : drop (current scan + 1 + len ds' + 1) (source scan)
               = String f fs' ++ rest).
  { rewrite <- (drop_drop 1 (current scan + 1 + len ds')),
      <- (drop_drop (len ds') (current scan + 1)), D, drop_app_0.
    reflexivity. }
  assert (Gf : String.get (current scan + 1 + len ds' + 1) (source scan) = Some f).
  { rewrite get_drop, D2. reflexivity. }
  unfold byte_at. rewrite Gd, Gf, Hf. cbn [Ascii.eqb Bool.eqb].
  replace (current scan + 1 + len ds' + 1 <? len (source scan)) with true
    by (symmetry; apply Nat.ltb_lt; lia).
  cbn match. rewrite D2, (span_append isDigit (String f fs') rest Hfs Hrest).
  unfold number_token, add_token, token_here, set_tokens.
  cbn [start current source line tokens set_current set_start].
  assert (Lw : len text = 1 + len ds' + 2 + len fs') by (subst text; len_simpl; lia).
  replace (current scan + 1 + len ds' + 1 + len (String f fs') - current scan)
    with (len text) by (rewrite Lw; len_simpl; lia).
  assert (L : substring (current scan) (len text) (source scan) = text).
  { rewrite Hsrc, Hcur. subst text.
    replace (String c ds' ++ String "." (String f fs') ++ rest)
      with ((String c ds' ++ String "." (String f fs')) ++ rest)
      by (now rewrite append_assoc).
    apply substring_middle. }
  rewrite L, Hcur. do 3 f_equal. rewrite Lw. len_simpl. lia.
Qed.

(** X9.  A turn that starts on a run of digits that neither a digit nor a
    ['.'] follows appends one [NUMBER] token whose lexeme is the whole run
    and whose value is what [strconv.ParseFloat] gives for it, and leaves
    the cursor after the run. *)
Theorem number_without_fraction scan p pre c ds' rest :
  source scan = pre ++ String c ds' ++ rest ->
  current scan = len pre ->
  all isDigit (String c ds') = true ->
  starts_with (fun x => isDigit x || Ascii.eqb x ".") rest = false ->
  let text := String c ds' in
  scanStep (scan, p)
  = Ok tt ({| source := source scan;
              tokens := tokens scan
                        ++ [Token.mk _ NUMBER text
                              (LoxNumber (fst (ParseFloat text))) (line scan)];
              start := len pre;
              current := len pre + len text;
              line := line scan |}, p).
Proof.
  intros Hsrc Hcur Hds Hrest text.
  apply all_digits_first in Hds as [Hc Hds'].
  assert (Hr1 : starts_with isDigit rest = false).
  { destruct rest as [|x r]; cbn in *; auto.
    now apply orb_false_iff in Hrest. }
  assert (G : String.get (current scan) (source scan) = Some c).
  { rewrite Hsrc, Hcur. cbn [append]. apply get_append_mid. }
  pose proof (get_Some_lt _ _ _ G) as Hlt.
  rewrite (scanStep_eq _ _ _ G), (switch_digit _ Hc).
  rewrite number_eq by (cbn [start current source set_current set_start]; lia).
  cbn zeta. cbn [start current source line tokens set_current set_start].
  assert (D : drop (current scan + 1) (source scan) = ds' ++ rest).
  { rewrite Hsrc, Hcur. cbn [append]. now rewrite drop_app_plus. }
  rewrite D, (span_append isDigit ds' rest Hds' Hr1).
  assert (Nd : Ascii.eqb (byte_at (source scan) (current scan + 1 + len ds')) "."
               = false).
  { unfold byte_at. rewrite get_drop, <- drop_drop, D, drop_app_0.
    destruct rest as [|x r]; [reflexivity|]. cbn in Hrest.
    now apply orb_false_iff in Hrest. }
  rewrite Nd.
  unfold number_token, add_token, token_here, set_tokens.
  cbn [start current source line tokens set_current set_start].
  assert (Lw : len text = 1 + len ds') by reflexivity.
  replace (current scan + 1 + len ds' - current scan) with (len text) by lia.
  assert (L : substring (current scan) (len text) (source scan) = text).
  { rewrite Hsrc, Hcur. apply substring_middle. }
  rewrite L, Hcur. do 3 f_equal. lia.
Qed.

End More_branches.

(** ** Whole scans *)

Section Whole_scans.

Context {rt : GoRuntime}.

Implicit Types (scan mid : Scanner) (p : Process).

#[local] Arguments Nat.ltb : simpl never.
#[local] Arguments Nat.leb : simpl never.

Lemma line_of_plus (src : string) (i n : nat) :
  line_of src i + newlines (substring i n src) = line_of src (i + n).
Proof. unfold line_of. rewrite substring_0_plus, newlines_append. lia. Qed.

Lemma Tiled_weaken (src : string) (i i' : nat) (toks : list Token.t) :
  i <= i' -> Tiled src i' toks -> Tiled src i toks.
Proof.
  intros Hle H. destruct H as [|i' j n tok toks H1 H2 H3 H4 H5 H6 H7].
  - constructor.
  - apply (tiled_cons src i j n); auto; lia.
Qed.

Lemma Tiled_length (src : string) (i : nat) (toks : list Token.t) :
  i <= len src -> Tiled src i toks -> i + length toks <= len src.
Proof.
  intros Hle H. induction H as [|i j n tok toks H1 H2 H3 H4 H5 H6 H7 IH].
  - cbn. lia.
  - cbn [length]. specialize (IH H3). lia.
Qed.

(** The tokens a run of the loop appends are laid out from the cursor. *)
Lemma scanLoop_tiles fuel scan p scan' p' :
  current scan <= len (source scan) ->
  len (source scan) - current scan <= fuel ->
  line scan = line_of (source scan) (current scan) ->
  scanLoop fuel (scan, p) = Ok tt (scan', p') ->
  line scan' = line_of (source scan) (len (source scan))
  /\ exists toks,
      tokens scan' = (tokens scan ++ toks)%list
      /\ Tiled (source scan) (current scan) toks.
Proof.
  revert scan p. induction fuel as [|fuel IH]; intros scan p Hle Hf Hl H.
  - rewrite scanLoop_done in H by lia. injection H as <- <-.
    split; [rewrite Hl; f_equal; lia|].
    exists []. split; [now rewrite app_nil_r | constructor].
  - destruct (le_lt_dec (len (source scan)) (current scan)) as [L|L].
    + rewrite scanLoop_done in H by lia. injection H as <- <-.
      split; [rewrite Hl; f_equal; lia|].
      exists []. split; [now rewrite app_nil_r | constructor].
    + rewrite scanLoop_turn in H by assumption.
      pose proof (scanStep_result scan p L) as HS.
      unfold bind in H.
      destruct (scanStep (scan, p)) as [[] [scan1 p1] | e | |];
        cbn in HS; try discriminate H.
      destruct (StepOk_progress _ _ _ _ HS) as (Es & Lt & Bd).
      destruct (StepOk_Advanced _ _ _ _ HS) as [_ _ _ Hl1 _ _ _].
      assert (Hl1' : line scan1 = line_of (source scan1) (current scan1)).
      { rewrite Hl1, Hl, line_of_plus, Es. f_equal. lia. }
      destruct (IH scan1 p1 ltac:(rewrite Es; lia) ltac:(rewrite Es; lia) Hl1' H)
        as (Hend & toks & Ht & HT).
      rewrite Es in Hend, HT. split; [exact Hend|].
      destruct HS as [mid [Hs Htk Hst Hp Hb Hlm]
                     | mid ty lit [Hs Htk Hst Hp Hb Hlm] Hty
                     | mid msg [Hs Htk Hst Hp Hb Hlm]].
      * exists toks. rewrite Ht, Htk. split; auto.
        apply (Tiled_weaken _ _ (current mid)); [lia | exact HT].
      * exists (token_here mid ty lit :: toks). split.
        -- rewrite Ht. cbn [tokens add_token set_tokens]. rewrite Htk.
           now rewrite <- app_assoc.
        -- cbn [current add_token set_tokens] in HT, Hl1'.
           apply (tiled_cons _ (current scan) (current scan)
                    (current mid - current scan)); auto; try lia.
           ++ cbn [Token.lexeme token_here]. now rewrite Hst, Hs.
           ++ cbn [Token.line token_here]. cbn [line add_token set_tokens] in Hl1'.
              rewrite Hl1'. cbn [source add_token set_tokens]. rewrite Hs.
              f_equal. lia.
           ++ replace (current scan + (current mid - current scan))
                with (current mid) by lia. exact HT.
      * exists toks. rewrite Ht, Htk. split; auto.
        apply (Tiled_weaken _ _ (current mid)); [lia | exact HT].
Qed.

(** X10.  The tokens of a scan that returns, apart from the end-of-input
    token, are laid out on the source in the order of the scan: the lexeme
    of each is a slice of the source that is not empty and starts at or
    after the end of the lexeme before it, and the line of each is the
    physical line on which its lexeme ends.  So there are never more
    tokens than bytes in the source. *)
Theorem tokens_tile_source src p toks p' :
  scan_source src p = Ok toks p' ->
  exists body,
    toks = (body ++ [EOF_token (line_of src (len src))])%list
    /\ Tiled src 0 body
    /\ length body <= len src.
Proof.
  intros H. rewrite scan_source_loop in H.
  destruct (scanLoop (len src) (NewScanner src, p)) as [[] [s q] | | |] eqn:E;
    try discriminate H.
  injection H as <- <-.
  assert (H0 : current (NewScanner src) <= len (source (NewScanner src)))
    by (cbn [source current NewScanner]; lia).
  assert (H1 : len (source (NewScanner src)) - current (NewScanner src) <= len src)
    by (cbn [source current NewScanner]; lia).
  assert (H2 : line (NewScanner src)
               = line_of (source (NewScanner src)) (current (NewScanner src))).
  { unfold line_of. cbn [source current line NewScanner].
    now rewrite substring_0_0. }
  destruct (scanLoop_tiles (len src) (NewScanner src) p s q H0 H1 H2 E)
    as (Hend & body & Ht & HT).
  cbn [source current tokens NewScanner fst] in *.
  exists body. rewrite Ht, Hend. cbn [app]. repeat split; auto.
  apply (Tiled_length src 0) in HT; lia.
Qed.

End Whole_scans.

(** ** Which turns report a diagnostic *)

Section Diagnostics.

Context {rt : GoRuntime}.

Implicit Types (scan mid : Scanner) (p : Process).

#[local] Arguments Nat.ltb : simpl never.
#[local] Arguments Nat.leb : simpl never.

Lemma Silent_ret {A} (a : A) : Silent (ret a).
Proof. intros scan p. reflexivity. Qed.

Lemma Silent_panic {A} e : Silent (@panic _ A e).
Proof. intros scan p. exact I. Qed.

Lemma Silent_OutOfFuel {A} : Silent (fun _ => @OutOfFuel _ A).
Proof. intros scan p. exact I. Qed.

Lemma Silent_bind {A B} (m : ScanM A) (k : A -> ScanM B) :
  Silent m -> (forall a, Silent (k a)) -> Silent (bind m k).
Proof.
  intros Hm Hk scan p. unfold bind. specialize (Hm scan p).
  destruct (m (scan, p)) as [a [scan1 p1] | e | code [scan1 p1] |]; cbn in *; auto.
  subst p1. apply Hk.
Qed.

Lemma Silent_this : Silent this.
Proof. intros scan p. reflexivity. Qed.

Lemma Silent_update f : Silent (update f).
Proof. intros scan p. reflexivity. Qed.

Lemma Silent_index s i : Silent (index s i).
Proof. unfold index. destruct (String.get i s); [apply Silent_ret | apply Silent_panic]. Qed.

Lemma Silent_slice s lo hi : Silent (slice s lo hi).
Proof. unfold slice. destruct (_ && _); [apply Silent_ret | apply Silent_panic]. Qed.

Lemma Silent_while fuel (cond : ScanM bool) (body : ScanM unit) :
  Silent cond -> Silent body -> Silent (while fuel cond body).
Proof.
  intros Hc Hb. induction fuel as [|fuel IH]; cbn [while].
  - apply Silent_bind; auto. intros []; [apply Silent_OutOfFuel | apply Silent_ret].
  - apply Silent_bind; auto. intros []; [|apply Silent_ret].
    apply Silent_bind; auto.
Qed.

Create HintDb silent.

#[local] Hint Resolve Silent_ret Silent_panic Silent_this Silent_update
  Silent_index Silent_slice Silent_OutOfFuel : silent.

Ltac silent :=
  repeat first
    [ progress auto with silent
    | apply Silent_bind
    | apply Silent_while
    | match goal with
      | |- forall _, _ => intro
      | |- Silent (if ?b then _ else _) => destruct b
      | |- Silent (let '(_, _) := ?x in _) => destruct x
      end ].

Lemma Silent_isAtEnd : Silent isAtEnd.
Proof. unfold isAtEnd. silent. Qed.

Lemma Silent_advance : Silent advance.
Proof. unfold advance. silent. Qed.

Lemma Silent_peek : Silent peek.
Proof. unfold peek. pose proof Silent_isAtEnd. silent. Qed.

Lemma Silent_peekNext : Silent peekNext.
Proof. unfold peekNext. silent. Qed.

Lemma Silent_match expected : Silent (match_ expected).
Proof. unfold match_. pose proof Silent_isAtEnd. silent. Qed.

Lemma Silent_addTokenAndLiteral _type literal :
  Silent (addTokenAndLiteral _type literal).
Proof. unfold addTokenAndLiteral. silent. Qed.

Lemma Silent_addToken _type : Silent (addToken _type).
Proof. apply Silent_addTokenAndLiteral. Qed.

Lemma Silent_loop_fuel : Silent loop_fuel.
Proof. unfold loop_fuel. silent. Qed.

#[local] Hint Resolve Silent_isAtEnd Silent_advance Silent_peek Silent_peekNext
  Silent_match Silent_addTokenAndLiteral Silent_addToken Silent_loop_fuel
  : silent.

Lemma Silent_number : Silent number.
Proof. unfold number. silent. Qed.

Lemma Silent_identifier : Silent identifier.
Proof. unfold identifier. silent. Qed.

#[local] Hint Resolve Silent_number Silent_identifier : silent.

(** Only two cases of the [switch] call [LoxError]: the string literal and
    the default case of a character that is neither a digit nor a letter. *)
Lemma Silent_switch c :
  recognized c = true -> c <> DQUOTE -> Silent (scanToken_switch c).
Proof.
  intros R Q. unfold scanToken_switch.
  repeat
    match goal with
    | |- Silent (if Ascii.eqb c ?k then _ else _) =>
        let E := fresh "E" in
        destruct (Ascii.eqb c k) eqn:E;
        [ first [ solve [silent]
                | apply Ascii.eqb_eq in E; contradiction ]
        | ]
    | |- Silent (if _ || _ then _ else _) =>
        let E := fresh "E" in
        destruct (Ascii.eqb c " " || Ascii.eqb c "013" || Ascii.eqb c "009") eqn:E;
        [ solve [silent] | ]
    end.
  destruct (isDigit c) eqn:Dc; [solve [silent]|].
  destruct (isAlpha c) eqn:Ac; [solve [silent]|].
  exfalso. unfold recognized, blank, punctuation, operators in R.
  cbn [existsb map fst] in R.
  repeat match goal with
         | E : _ = false |- _ => rewrite E in R; clear E
         end.
  discriminate R.
Qed.

Lemma all_get (P : ascii -> bool) (s : string) (i : nat) (c : ascii) :
  all P s = true -> String.get i s = Some c -> P c = true.
Proof.
  revert i. induction s as [|x s IH]; intros i H G; [destruct i; discriminate|].
  cbn in H. apply andb_true_iff in H as [H1 H2].
  destruct i as [|i]; cbn in G; [now injection G as <- | eauto].
Qed.

(** What a turn that returns does to the process, by the character it
    starts on. *)
Lemma scanStep_diagnoses scan p scan' p' c :
  String.get (current scan) (source scan) = Some c ->
  scanStep (scan, p) = Ok tt (scan', p') ->
  p' = p
  \/ (recognized c = false
      /\ p' = reported p (line scan) ("Unexpected character: " ++ Sprintf_c c))
  \/ (c = DQUOTE
      /\ p' = reported p (line scan') "Unterminated string."
      /\ current scan' = len (source scan)).
Proof.
  intros G H. pose proof (get_Some_lt _ _ _ G) as Hlt.
  rewrite (scanStep_eq _ _ _ G) in H.
  destruct (recognized c) eqn:R.
  - destruct (Ascii.eqb c DQUOTE) eqn:Q.
    + apply Ascii.eqb_eq in Q. subst c. rewrite switch_quote in H.
      rewrite parseString_eq in H
        by (cbn [start current source set_current set_start]; lia).
      cbn zeta in H.
      cbn [start current source line tokens set_current set_start set_line] in H.
      pose proof (span_drop_bound not_quote (source scan) (current scan + 1)
                    ltac:(lia)) as B.
      destruct (len (source scan) <=? _) eqn:E in H.
      * apply Nat.leb_le in E. injection H as <- <-.
        right; right. cbn [line current set_line set_current]. repeat split. lia.
      * injection H as <- <-. now left.
    + apply Ascii.eqb_neq in Q. left.
      pose proof (Silent_switch c R Q
                    (set_current (set_start scan (current scan)) (current scan + 1))
                    p) as S.
      rewrite H in S. exact S.
  - right; left. split; auto.
    rewrite (unexpected_switch _ R) in H. cbn in H. now injection H as <- <-.
Qed.

(** The diagnostics a run of the loop writes. *)
Lemma scanLoop_diagnoses fuel scan p scan' p' :
  current scan <= len (source scan) ->
  len (source scan) - current scan <= fuel ->
  line scan = line_of (source scan) (current scan) ->
  scanLoop fuel (scan, p) = Ok tt (scan', p') ->
  exists msgs,
    p' = {| hadError := hadError p || nonempty msgs;
            stdout := stdout p;
            stderr := stderr p ++ msgs |}
    /\ Forall (Diagnosed (source scan)) msgs.
Proof.
  assert (Nil : forall q, q = {| hadError := hadError q || nonempty (@nil string);
                                 stdout := stdout q;
                                 stderr := stderr q ++ [] |}).
  { intros []. cbn. now rewrite orb_false_r, app_nil_r. }
  revert scan p. induction fuel as [|fuel IH]; intros scan p Hle Hf Hl H.
  - rewrite scanLoop_done in H by lia. injection H as <- <-.
    exists []. split; [apply Nil | constructor].
  - destruct (le_lt_dec (len (source scan)) (current scan)) as [L|L].
    + rewrite scanLoop_done in H by lia. injection H as <- <-.
      exists []. split; [apply Nil | constructor].
    + rewrite scanLoop_turn in H by assumption.
      pose proof (scanStep_result scan p L) as HS.
      unfold bind in H.
      destruct (scanStep (scan, p)) as [[] [scan1 p1] | e | |] eqn:Estep;
        cbn in HS; try discriminate H.
      destruct (StepOk_progress _ _ _ _ HS) as (Es & Lt & Bd).
      destruct (StepOk_Advanced _ _ _ _ HS) as [_ _ _ Hl1 _ _ _].
      assert (Hl1' : line scan1 = line_of (source scan1) (current scan1)).
      { rewrite Hl1, Hl, line_of_plus, Es. f_equal. lia. }
      destruct (IH scan1 p1 ltac:(rewrite Es; lia) ltac:(rewrite Es; lia) Hl1' H)
        as (msgs & -> & HF).
      rewrite Es in HF.
      destruct (get_lt_Some _ _ L) as [c G].
      destruct (scanStep_diagnoses _ _ _ _ _ G Estep)
        as [-> | [(R & ->) | (-> & -> & Hend)]].
      * exists msgs. split; auto.
      * eexists (_ :: msgs). split.
        -- cbn [reported hadError stdout stderr nonempty]. f_equal.
           ++ now rewrite orb_true_r.
           ++ rewrite <- app_assoc. reflexivity.
        -- constructor; auto. left. exists (current scan), c.
           repeat split; auto. now rewrite Hl.
      * eexists (_ :: msgs). split.
        -- cbn [reported hadError stdout stderr nonempty]. f_equal.
           ++ now rewrite orb_true_r.
           ++ rewrite <- app_assoc. reflexivity.
        -- constructor; auto. right. exists (current scan).
           split; auto. rewrite Hl1', Es, Hend. reflexivity.
Qed.

Lemma scan_source_diagnoses src p toks p' :
  scan_source src p = Ok toks p' ->
  exists msgs,
    p' = {| hadError := hadError p || nonempty msgs;
            stdout := stdout p;
            stderr := stderr p ++ msgs |}
    /\ Forall (Diagnosed src) msgs.
Proof.
  intros H. rewrite scan_source_loop in H.
  destruct (scanLoop (len src) (NewScanner src, p)) as [[] [s q] | | |] eqn:E;
    try discriminate H.
  injection H as _ <-.
  assert (H0 : current (NewScanner src) <= len (source (NewScanner src)))
    by (cbn [source current NewScanner]; lia).
  assert (H1 : len (source (NewScanner src)) - current (NewScanner src) <= len src)
    by (cbn [source current NewScanner]; lia).
  assert (H2 : line (NewScanner src)
               = line_of (source (NewScanner src)) (current (NewScanner src))).
  { unfold line_of. cbn [source current line NewScanner].
    now rewrite substring_0_0. }
  exact (scanLoop_diagnoses _ _ _ _ _ H0 H1 H2 E).
Qed.

(** X11.  Every diagnostic that a scan writes is one of two: "Unexpected
    character:" with a character of the source that no case accepts and
    the physical line of that character; or "Unterminated string." with
    the last line of the source, and then the source holds a quote.  The
    scan writes them after what the secondary output held, sets the error
    flag exactly when it writes one, and writes nothing to the primary
    output. *)
Theorem diagnostics_are_of_two_kinds src p toks p' :
  scan_source src p = Ok toks p' ->
  exists msgs,
    stderr p' = (stderr p ++ msgs)%list
    /\ hadError p' = hadError p || nonempty msgs
    /\ stdout p' = stdout p
    /\ Forall (Diagnosed src) msgs.
Proof.
  intros H. destruct (scan_source_diagnoses _ _ _ _ H) as (msgs & -> & HF).
  exists msgs. repeat split; auto.
Qed.

Lemma ends_with_append (c : ascii) (a : string) :
  ends_with c (a ++ String c "") = true.
Proof.
  induction a as [|x a IH]; cbn [append ends_with].
  - apply Ascii.eqb_refl.
  - destruct (a ++ String c "") eqn:E; [|exact IH].
    destruct a; discriminate E.
Qed.

(** X12.  A source in which every character is accepted by some case and
    none is a quote never gets a diagnostic.  A scan of it that returns
    leaves the process as it found it.  The program that scans a file with
    that content never exits with code 65 or 1: it exits with code 0, or
    with code 2 when the scan panics, which takes a source that ends with
    digits and a ['.'] (as [1.] does); so it exits with code 0 whenever
    the content does not end with a ['.']. *)
Theorem clean_source_scans_clean src :
  all (fun c => recognized c && not_quote c) src = true ->
  (forall p toks p', scan_source src p = Ok toks p' -> p' = p)
  /\ (forall prog path (fs : FileSystem),
         fs path = inl src ->
         exit_status (main [prog; "tokenize"; path] fs process_start) = Some 0
         \/ (exit_status (main [prog; "tokenize"; path] fs process_start)
             = Some 2
             /\ exists pre c ds',
                 src = pre ++ String c ds' ++ "."
                 /\ all isDigit (String c ds') = true))
  /\ (forall prog path (fs : FileSystem),
         fs path = inl src ->
         ends_with "." src = false ->
         exit_status (main [prog; "tokenize"; path] fs process_start) = Some 0).
Proof.
  intros Hall.
  assert (Clean : forall q toks' q', scan_source src q = Ok toks' q' -> q' = q).
  { intros q toks' q' Hq.
    destruct (scan_source_diagnoses _ _ _ _ Hq) as (msgs & -> & HF).
    destruct msgs as [|m msgs].
    - destruct q. cbn. now rewrite orb_false_r, app_nil_r.
    - exfalso. inversion HF as [|? ? Hm _]; subst.
      destruct Hm as [(i & c & G & R & _) | (i & G & _)].
      + pose proof (all_get _ _ _ _ Hall G) as Hc. cbn in Hc.
        rewrite R in Hc. discriminate.
      + pose proof (all_get _ _ _ _ Hall G) as Hc.
        vm_compute in Hc. discriminate. }
  assert (Main : forall prog path (fs : FileSystem),
             fs path = inl src ->
             exit_status (main [prog; "tokenize"; path] fs process_start) = Some 0
             \/ (exit_status (main [prog; "tokenize"; path] fs process_start)
                 = Some 2
                 /\ exists pre c ds',
                     src = pre ++ String c ds' ++ "."
                     /\ all isDigit (String c ds') = true)).
  { intros prog path fs Hfs. rewrite (main_eq _ _ _ _ _ Hfs).
    pose proof (scan_source_result src (logged process_start)) as HS.
    destruct (scan_source src (logged process_start)) as [toks p1 | e | |] eqn:E;
      cbn in HS; try contradiction.
    - left. rewrite (Clean _ _ _ E). reflexivity.
    - right. split; [reflexivity|]. destruct HS as (_ & pre & c & ds' & Hs & A).
      exists pre, c, ds'. split; assumption. }
  split; [exact Clean|]. split; [exact Main|].
  intros prog path fs Hfs Hend.
  destruct (Main prog path fs Hfs) as [H | (_ & pre & c & ds' & -> & _)];
    [exact H|].
  exfalso.
  replace (pre ++ String c ds' ++ ".") with ((pre ++ String c ds') ++ ".")
    in Hend by apply append_assoc.
  rewrite ends_with_append in Hend. discriminate Hend.
Qed.

End Diagnostics.

(** ** The kind and the literal of a token *)

Section Kinds.

Context {rt : GoRuntime}.

Implicit Types (scan mid : Scanner) (p : Process).

#[local] Arguments Nat.ltb : simpl never.
#[local] Arguments Nat.leb : simpl never.

(** An invariant of the tokens that the turns append is one of the tokens
    that the loop appends. *)
Lemma scanLoop_Forall (P : Token.t -> Prop) :
  (forall scan p scan' p',
      current scan < len (source scan) ->
      scanStep (scan, p) = Ok tt (scan', p') ->
      exists toks, tokens scan' = (tokens scan ++ toks)%list /\ Forall P toks) ->
  forall fuel scan p scan' p',
    scanLoop fuel (scan, p) = Ok tt (scan', p') ->
    exists toks, tokens scan' = (tokens scan ++ toks)%list /\ Forall P toks.
Proof.
  intros Step. induction fuel as [|fuel IH]; intros scan p scan' p' H;
    destruct (le_lt_dec (len (source scan)) (current scan)) as [L|L];
    try (rewrite scanLoop_done in H by lia; injection H as <- <-;
         exists []; split; [now rewrite app_nil_r | constructor]).
  - apply Nat.leb_gt in L. unfold scanLoop in H. cbn in H. rewrite L in H.
    discriminate H.
  - rewrite scanLoop_turn in H by assumption. unfold bind in H.
    destruct (scanStep (scan, p)) as [[] [scan1 p1] | e | |] eqn:E;
      try discriminate H.
    destruct (Step _ _ _ _ L E) as (toks1 & T1 & F1).
    destruct (IH _ _ _ _ H) as (toks2 & T2 & F2).
    exists (toks1 ++ toks2)%list. split.
    + now rewrite T2, T1, <- app_assoc.
    + apply Forall_app. auto.
Qed.

Lemma substring_first (i n : nat) (s : string) (c : ascii) :
  String.get i s = Some c ->
  substring i (S n) s = String c (substring (S i) n s).
Proof.
  revert i. induction s as [|x s IH]; intros i G; [destruct i; discriminate|].
  destruct i as [|i]; cbn in G |- *.
  - now injection G as <-.
  - now apply IH.
Qed.

Lemma substring_substring (i n j m : nat) (s : string) :
  j + m <= n -> i + n <= len s ->
  substring j m (substring i n s) = substring (i + j) m s.
Proof.
  revert i n j m. induction s as [|x s IH]; intros i n j m H1 H2.
  - unfold len in H2. cbn [String.length] in H2. assert (i = 0) by lia. assert (n = 0) by lia.
    assert (j = 0) by lia. assert (m = 0) by lia. subst. reflexivity.
  - destruct i as [|i].
    + cbn [Nat.add]. destruct n as [|n].
      * assert (j = 0) by lia. assert (m = 0) by lia. subst. reflexivity.
      * cbn [substring]. destruct j as [|j].
        -- destruct m as [|m]; [reflexivity|]. cbn [substring]. f_equal.
           specialize (IH 0 n 0 m). cbn [Nat.add] in IH. apply IH.
           ++ lia.
           ++ unfold len in *. cbn [String.length] in H2. lia.
        -- cbn [substring].
           specialize (IH 0 n j m). cbn [Nat.add] in IH. apply IH.
           ++ lia.
           ++ unfold len in *. cbn [String.length] in H2. lia.
    + cbn [substring Nat.add]. apply IH; [lia | unfold len in *; cbn [String.length] in H2; lia].
Qed.

Lemma kind_of_quote rest : kind_of (String DQUOTE rest) = STRING.
Proof. reflexivity. Qed.

Lemma kind_of_digit c rest : isDigit c = true -> kind_of (String c rest) = NUMBER.
Proof.
  destruct c as [[] [] [] [] [] [] [] []]; intros H; try discriminate H;
    reflexivity.
Qed.

Lemma kind_of_alpha c rest :
  isAlpha c = true -> kind_of (String c rest) = word_type (String c rest).
Proof.
  destruct c as [[] [] [] [] [] [] [] []]; intros H; try discriminate H;
    reflexivity.
Qed.

(** A word is never given the kind of a literal. *)
Lemma word_type_literal (text : string) :
  match word_type text with
  | STRING | NUMBER => False
  | _ => True
  end.
Proof.
  unfold word_type. destruct (keywords text) as [kw|] eqn:E; [|exact I].
  apply keywords_In in E. unfold keywords_entries in E. cbn [In] in E.
  repeat match type of E with
         | _ \/ _ => destruct E as [E | E]
         end; try contradiction; injection E as _ <-; exact I.
Qed.

Lemma FromLexeme_word c rest line :
  isAlpha c = true ->
  FromLexeme (Token.mk _ (word_type (String c rest)) (String c rest)
                LoxEmptyLiteral line).
Proof.
  intros H. unfold FromLexeme, token_of, literal_of.
  cbn [Token.lexeme Token.line]. rewrite (kind_of_alpha _ _ H).
  pose proof (word_type_literal (String c rest)) as W.
  destruct (word_type (String c rest)); try contradiction; reflexivity.
Qed.

Lemma FromLexeme_number c rest line :
  isDigit c = true ->
  FromLexeme (Token.mk _ NUMBER (String c rest)
                (LoxNumber (fst (ParseFloat (String c rest)))) line).
Proof.
  intros H. unfold FromLexeme, token_of, literal_of.
  cbn [Token.lexeme Token.line]. now rewrite (kind_of_digit _ _ H).
Qed.

Lemma FromLexeme_string text line :
  substring 0 1 text = String DQUOTE "" ->
  FromLexeme (Token.mk _ STRING text
                (LoxString (substring 1 (len text - 2) text)) line).
Proof.
  intros H. unfold FromLexeme, token_of, literal_of.
  cbn [Token.lexeme Token.line].
  destruct text as [|c rest]; [discriminate H|].
  cbn in H. destruct rest; injection H as ->; reflexivity.
Qed.

(** The cases of the [switch], by the character. *)
Lemma switch_cases c :
  (exists _type, In (c, _type) punctuation
                 /\ FromLexeme (Token.mk _ _type (String c "") LoxEmptyLiteral 0))
  \/ (exists one two,
         In (c, (one, two)) operators
         /\ FromLexeme (Token.mk _ one (String c "") LoxEmptyLiteral 0)
         /\ FromLexeme (Token.mk _ two (String c "=") LoxEmptyLiteral 0))
  \/ c = "/"%char
  \/ blank c = true \/ c = NEWLINE
  \/ c = DQUOTE
  \/ isDigit c = true
  \/ isAlpha c = true
  \/ recognized c = false.
Proof.
  destruct c as [[] [] [] [] [] [] [] []];
    first
      [ do 8 right; reflexivity
      | do 7 right; left; reflexivity
      | do 6 right; left; reflexivity
      | do 5 right; left; reflexivity
      | do 4 right; left; reflexivity
      | do 3 right; left; reflexivity
      | do 2 right; left; reflexivity
      | right; left; eexists _, _; split; [cbn; tauto | split; reflexivity]
      | left; eexists; split; [cbn; tauto | reflexivity] ].
Qed.

Lemma FromLexeme_line _type lexeme literal line line' :
  FromLexeme (Token.mk _ _type lexeme literal line) ->
  FromLexeme (Token.mk _ _type lexeme literal line').
Proof.
  unfold FromLexeme, token_of. cbn [Token.lexeme Token.line].
  intros H. injection H as H1 H2. now rewrite <- H1, <- H2.
Qed.

Lemma byte_at_get (s : string) (i : nat) (c : ascii) :
  i < len s -> byte_at s i = c -> String.get i s = Some c.
Proof.
  intros L B. unfold byte_at in B.
  destruct (get_lt_Some _ _ L) as [d G]. rewrite G in B |- *. now subst.
Qed.

(** A turn appends no token, or one that its lexeme and its line
    determine. *)
Lemma scanStep_FromLexeme scan p scan' p' :
  current scan < len (source scan) ->
  scanStep (scan, p) = Ok tt (scan', p') ->
  exists toks,
    tokens scan' = (tokens scan ++ toks)%list /\ Forall FromLexeme toks.
Proof.
  intros L H. destruct (get_lt_Some _ _ L) as [c G].
  assert (None_ : forall s : Scanner,
             tokens s = tokens scan ->
             exists toks,
               tokens s = (tokens scan ++ toks)%list /\ Forall FromLexeme toks).
  { intros s E. exists []. split; [now rewrite app_nil_r | constructor]. }
  assert (One : forall (s : Scanner) tok,
             tokens s = (tokens scan ++ [tok])%list -> FromLexeme tok ->
             exists toks,
               tokens s = (tokens scan ++ toks)%list /\ Forall FromLexeme toks).
  { intros s tok E F. exists [tok]. split; auto. }
  set (scan1 := {| source := source scan; tokens := tokens scan;
                   start := current scan; current := current scan + 1;
                   line := line scan |}).
  destruct (switch_cases c)
    as [(ty & HIn & F)
       | [(one & two & HIn & F1 & F2)
         | [-> | [B | [-> | [-> | [D | [A | R]]]]]]]].
  - (* punctuation *)
    assert (Sw : scanToken_switch c = addToken ty).
    { unfold punctuation in HIn. cbn [In] in HIn.
      repeat match type of HIn with
             | _ \/ _ => destruct HIn as [HIn | HIn]
             end; try contradiction; injection HIn as <- <-; reflexivity. }
    rewrite (addToken_turn _ _ _ _ G Sw) in H. injection H as <- <-.
    eapply One; [reflexivity|]. eapply FromLexeme_line, F.
  - (* operators *)
    assert (Sw : scanToken_switch c
                 = (b <- match_ "=" ;;
                    if b : bool then addToken two else addToken one)).
    { unfold operators in HIn. cbn [In] in HIn.
      repeat match type of HIn with
             | _ \/ _ => destruct HIn as [HIn | HIn]
             end; try contradiction; injection HIn as <- <- <-; reflexivity. }
    rewrite (scanStep_switch _ _ _ G), Sw in H. fold scan1 in H.
    pose proof (match_eq "=" scan1 p) as Hm.
    cbn [source current scan1] in Hm.
    destruct ((current scan + 1 <? len (source scan))
              && Ascii.eqb (byte_at (source scan) (current scan + 1)) "=") eqn:E.
    + apply andb_true_iff in E as [E1 E2].
      apply Nat.ltb_lt in E1. apply Ascii.eqb_eq in E2.
      pose proof (byte_at_get _ _ _ E1 E2) as G1.
      rewrite (bind_Ok _ _ _ _ _ Hm) in H.
      rewrite addToken_eq in H
        by (cbn [start current source set_current scan1]; lia).
      unfold set_tokens, set_current in H.
      cbn [start current source line tokens scan1] in H.
      replace (current scan + 1 + 1 - current scan) with (1 + 1) in H by lia.
      rewrite substring_plus, (substring_S _ _ _ G), (substring_S _ _ _ G1) in H.
      cbn [append] in H. injection H as <- <-.
      eapply One; [reflexivity|]. eapply FromLexeme_line, F2.
    + rewrite (bind_Ok _ _ _ _ _ Hm) in H.
      rewrite addToken_eq in H by (cbn [start current source scan1]; lia).
      unfold set_tokens in H. cbn [start current source line tokens scan1] in H.
      replace (current scan + 1 - current scan) with 1 in H by lia.
      rewrite (substring_S _ _ _ G) in H. injection H as <- <-.
      eapply One; [reflexivity|]. eapply FromLexeme_line, F1.
  - (* slash *)
    rewrite (scanStep_switch _ _ _ G), switch_slash in H. fold scan1 in H.
    pose proof (match_eq "/" scan1 p) as Hm.
    cbn [source current scan1] in Hm.
    destruct ((current scan + 1 <? len (source scan))
              && Ascii.eqb (byte_at (source scan) (current scan + 1)) "/") eqn:E.
    + apply andb_true_iff in E as [E1 E2]. apply Nat.ltb_lt in E1.
      rewrite (bind_Ok _ _ _ _ _ Hm) in H.
      unfold loop_fuel in H. rewrite bind_assoc in H.
      cbn [this bind fst snd ret] in H.
      rewrite skip_until_loop in H
        by (cbn [source current set_current scan1]; lia).
      injection H as <- <-. apply None_. reflexivity.
    + rewrite (bind_Ok _ _ _ _ _ Hm) in H.
      rewrite addToken_eq in H by (cbn [start current source scan1]; lia).
      unfold set_tokens in H. cbn [start current source line tokens scan1] in H.
      replace (current scan + 1 - current scan) with 1 in H by lia.
      rewrite (substring_S _ _ _ G) in H. injection H as <- <-.
      eapply One; reflexivity.
  - (* blank *)
    rewrite (scanStep_switch _ _ _ G), (blank_switch _ B) in H.
    injection H as <- <-. apply None_. reflexivity.
  - (* newline *)
    rewrite (scanStep_switch _ _ _ G), newline_switch in H.
    injection H as <- <-. apply None_. reflexivity.
  - (* quote *)
    rewrite (scanStep_eq _ _ _ G), switch_quote in H.
    rewrite parseString_eq in H
      by (cbn [start current source set_current set_start]; lia).
    cbn zeta in H.
    cbn [start current source line tokens set_current set_start set_line] in H.
    set (n := span not_quote (drop (current scan + 1) (source scan))) in *.
    destruct (len (source scan) <=? current scan + 1 + n) eqn:E.
    + injection H as <- <-. apply None_. reflexivity.
    + apply Nat.leb_gt in E. injection H as <- <-.
      eapply One; [reflexivity|].
      unfold token_here.
      cbn [start current source line tokens set_current set_start set_line].
      replace (current scan + 1 + n + 1 - current scan) with (n + 2) by lia.
      replace (current scan + 1 + n - (current scan + 1)) with n by lia.
      set (text := substring (current scan) (n + 2) (source scan)).
      assert (Lt : len text = n + 2) by (apply length_substring; lia).
      assert (Body : substring (current scan + 1) n (source scan)
                     = substring 1 (len text - 2) text).
      { rewrite Lt. replace (n + 2 - 2) with n by lia.
        unfold text. rewrite substring_substring by lia. reflexivity. }
      rewrite Body. apply FromLexeme_string.
      unfold text. rewrite substring_substring by lia.
      rewrite Nat.add_0_r. apply (substring_S _ _ _ G).
  - (* digit *)
    rewrite (scanStep_eq _ _ _ G), (switch_digit _ D) in H.
    rewrite number_eq in H
      by (cbn [start current source set_current set_start]; lia).
    cbn zeta in H.
    cbn [start current source line tokens set_current set_start] in H.
    assert (Num : forall X,
               current scan < X ->
               FromLexeme
                 (token_here
                    (set_current (set_current (set_start scan (current scan))
                                    (current scan + 1)) X)
                    NUMBER
                    (LoxNumber
                       (fst (ParseFloat
                               (substring (current scan) (X - current scan)
                                  (source scan))))))).
    { intros X HX. unfold token_here.
      cbn [start current source line tokens set_current set_start].
      replace (X - current scan) with (S (X - current scan - 1)) by lia.
      rewrite (substring_first _ _ _ _ G). now apply FromLexeme_number. }
    unfold number_token, add_token in H.
    cbn [start current source line tokens set_current set_start set_tokens] in H.
    repeat match type of H with
           | (if ?b then _ else _) = _ => destruct b
           end; try discriminate H; injection H as <- <-;
      (eapply One; [reflexivity | apply Num; lia]).
  - (* letter *)
    rewrite (scanStep_eq _ _ _ G), (switch_alpha _ A) in H.
    rewrite identifier_eq in H
      by (cbn [start current source set_current set_start]; lia).
    cbn zeta in H. injection H as <- <-.
    eapply One; [reflexivity|]. unfold token_here.
    cbn [start current source line tokens set_current set_start].
    set (k := span isAlphaNumeric (drop (current scan + 1) (source scan))).
    replace (current scan + 1 + k - current scan) with (S k) by lia.
    rewrite (substring_first _ _ _ _ G). now apply FromLexeme_word.
  - (* any other character *)
    rewrite (scanStep_switch _ _ _ G), (unexpected_switch _ R) in H.
    injection H as <- <-. apply None_. reflexivity.
Qed.

(** X13.  Every token of a scan that returns is determined by its lexeme
    and its line: its kind is the kind its lexeme spells (by the first
    byte; a word by the keyword table; [!], [=], [<], [>] by a following
    [=]), and its literal is the text between the quotes for a string,
    what [strconv.ParseFloat] reads from the lexeme for a number, and
    empty for every other kind.  So two tokens with the same lexeme have
    the same kind and the same literal. *)
Theorem tokens_determined_by_lexemes src p toks p' :
  scan_source src p = Ok toks p' ->
  Forall FromLexeme toks
  /\ forall a b,
      In a toks -> In b toks -> Token.lexeme a = Token.lexeme b ->
      Token._type a = Token._type b /\ Token.literal a = Token.literal b.
Proof.
  intros H. rewrite scan_source_loop in H.
  destruct (scanLoop (len src) (NewScanner src, p)) as [[] [s q] | | |] eqn:E;
    try discriminate H.
  injection H as <- <-.
  destruct (scanLoop_Forall FromLexeme scanStep_FromLexeme _ _ _ _ _ E)
    as (body & Ht & HF).
  cbn [fst tokens NewScanner app] in *. rewrite Ht.
  assert (All : Forall FromLexeme (body ++ [EOF_token (line s)])).
  { apply Forall_app. split; auto. constructor; [reflexivity | constructor]. }
  split; [exact All|].
  intros a b Ha Hb Hl. rewrite Forall_forall in All.
  pose proof (All _ Ha) as Fa. pose proof (All _ Hb) as Fb.
  unfold FromLexeme in Fa, Fb. rewrite Fa, Fb. cbn. rewrite Hl. auto.
Qed.

End Kinds.

(** ** The lines of the tokens *)

Section Lines.

Context {rt : GoRuntime}.

Implicit Types (scan mid : Scanner) (p : Process).

Lemma line_of_le (src : string) (i j : nat) :
  i <= j -> line_of src i <= line_of src j.
Proof.
  intros H. replace j with (i + (j - i)) by lia.
  rewrite <- line_of_plus. lia.
Qed.

Lemma line_of_all (src : string) : line_of src (len src) = 1 + newlines src.
Proof. unfold line_of. now rewrite substring_0_all. Qed.

Lemma Tiled_lines (src : string) (i : nat) (toks : list Token.t) :
  Tiled src i toks -> i <= len src ->
  let lines :=
    map Token.line (toks ++ [EOF_token (line_of src (len src))])%list in
  ascending lines
  /\ Forall (fun n => line_of src i <= n <= line_of src (len src)) lines.
Proof.
  intros H. induction H as [|i j n tok toks H1 H2 H3 H4 H5 H6 H7 IH];
    intros Hle lines; subst lines.
  - cbn. repeat split; auto. constructor; auto.
    split; [now apply line_of_le | lia].
  - destruct (IH H3) as [A B]. cbn [app map ascending]. repeat split; auto.
    + rewrite H5. eapply Forall_impl; [|exact B]. cbn. intros a Ha. lia.
    + constructor.
      * rewrite H5. split; apply line_of_le; lia.
      * eapply Forall_impl; [|exact B]. cbn. intros a [Ha1 Ha2].
        split; [|lia]. etransitivity; [|exact Ha1]. apply line_of_le. lia.
Qed.

Lemma scan_source_lines src p toks p' :
  scan_source src p = Ok toks p' ->
  ascending (map Token.line toks)
  /\ Forall (fun tok => 1 <= Token.line tok <= 1 + newlines src) toks.
Proof.
  intros H. rewrite scan_source_loop in H.
  destruct (scanLoop (len src) (NewScanner src, p)) as [[] [s q] | | |] eqn:E;
    try discriminate H.
  injection H as <- <-.
  assert (H0 : current (NewScanner src) <= len (source (NewScanner src)))
    by (cbn [source current NewScanner]; lia).
  assert (H1 : len (source (NewScanner src)) - current (NewScanner src) <= len src)
    by (cbn [source current NewScanner]; lia).
  assert (H2 : line (NewScanner src)
               = line_of (source (NewScanner src)) (current (NewScanner src))).
  { unfold line_of. cbn [source current line NewScanner].
    now rewrite substring_0_0. }
  destruct (scanLoop_tiles (len src) (NewScanner src) p s q H0 H1 H2 E)
    as (Hend & body & Ht & HT).
  cbn [source current tokens NewScanner fst app] in *.
  destruct (Tiled_lines src 0 body HT ltac:(lia)) as [A B].
  rewrite Ht, Hend.
  assert (B' : Forall (fun tok => 1 <= Token.line tok <= 1 + newlines src)
                 (body ++ [EOF_token (line_of src (len src))])).
  { rewrite Forall_map in B. eapply Forall_impl; [|exact B]. cbv beta.
    intros a [Ha1 Ha2]. rewrite line_of_all in Ha2.
    unfold line_of in Ha1. rewrite substring_0_0 in Ha1.
    change (newlines "") with 0 in Ha1. lia. }
  split; auto.
Qed.

(** X14.  The lines of the tokens of a scan that returns never go down
    from one token to the next, and each lies between 1 and the number of
    physical lines of the source; the tokens of a source without a newline
    are all on line 1. *)
Theorem token_lines_ascend src p toks p' :
  scan_source src p = Ok toks p' ->
  ascending (map Token.line toks)
  /\ Forall (fun tok => 1 <= Token.line tok <= 1 + newlines src) toks
  /\ (newlines src = 0 -> Forall (fun tok => Token.line tok = 1) toks).
Proof.
  intros H. destruct (scan_source_lines _ _ _ _ H) as [A B].
  split; [exact A|]. split; [exact B|].
  intros N. eapply Forall_impl; [|exact B]. cbv beta. intros tok Ht. lia.
Qed.

End Lines.

(** ** The ways [main] ends *)

Section Main.

Context {rt : GoRuntime}.

Implicit Types (p : Process).

#[local] Arguments Nat.ltb : simpl never.

(** [main] with arguments that get it to scan the file. *)
Lemma main_scans Args (fs : FileSystem) src p :
  3 <= length Args -> nth 1 Args "" = "tokenize" ->
  fs (nth 2 Args "") = inl src ->
  main Args fs p
  = match scan_source src (logged p) with
    | Ok toks p1 =>
        if hadError p1 then Exit 65 (printed p1 toks)
        else Ok tt (printed p1 toks)
    | Panic e => Panic e
    | Exit code q => Exit code q
    | OutOfFuel => OutOfFuel
    end.
Proof.
  intros HL HC Hfs. unfold main. unfold bind at 1. cbn [Fprintf_Stderr].
  fold (logged p).
  replace (length Args <? 3) with false by (symmetry; apply Nat.ltb_ge; lia).
  rewrite HC. cbn [String.eqb Ascii.eqb Bool.eqb negb].
  change (negb (("tokenize" =? "tokenize")%string)) with false. cbn match.
  unfold RunFile. rewrite Hfs. unfold bind at 1. rewrite Run_eq.
  destruct (scan_source src (logged p)) as [toks p1 | | |]; auto.
  unfold bind, get. cbn [hadError printed]. destruct (hadError p1); reflexivity.
Qed.

(** [main] with arguments or a file that it rejects. *)
Lemma main_rejects Args (fs : FileSystem) p :
  Rejected Args fs ->
  exists m,
    rejection Args fs m
    /\ main Args fs p
       = Exit 1 {| hadError := hadError p;
                   stdout := stdout p;
                   stderr := stderr p
                             ++ ["Logs from your program will appear here!"
                                 ++ newline; m] |}.
Proof.
  intros R. unfold main. unfold bind at 1. cbn [Fprintf_Stderr].
  destruct (length Args <? 3) eqn:EL.
  - apply Nat.ltb_lt in EL. eexists. split; [left; split; [exact EL | reflexivity]|].
    unfold bind, Fprintf_Stderr, os_Exit. cbn [hadError stdout stderr].
    now rewrite <- app_assoc.
  - apply Nat.ltb_ge in EL.
    destruct (String.eqb (nth 1 Args "") "tokenize") eqn:EC; cbn [negb].
    + apply String.eqb_eq in EC.
      destruct R as [R | [R | [err R]]]; [lia | contradiction |].
      eexists. split.
      * right; right. repeat split; auto. exists err. split; [exact R | reflexivity].
      * unfold RunFile. rewrite R.
        unfold bind, Fprintf_Stderr, os_Exit. cbn [hadError stdout stderr].
        now rewrite <- app_assoc.
    + apply String.eqb_neq in EC. eexists. split.
      * right; left. repeat split; auto.
      * unfold bind, Fprintf_Stderr, os_Exit. cbn [hadError stdout stderr].
        now rewrite <- app_assoc.
Qed.

Lemma Rejected_dec Args (fs : FileSystem) :
  Rejected Args fs
  \/ (3 <= length Args /\ nth 1 Args "" = "tokenize"
      /\ exists src, fs (nth 2 Args "") = inl src).
Proof.
  unfold Rejected. destruct (le_lt_dec 3 (length Args)) as [L|L]; [|auto].
  destruct (String.eqb (nth 1 Args "") "tokenize") eqn:EC.
  - apply String.eqb_eq in EC.
    destruct (fs (nth 2 Args "")) as [src | err] eqn:F; eauto 6.
  - apply String.eqb_neq in EC. auto.
Qed.

(** X15.  [main] always ends, with one of four exit statuses: 0, 1, 2 (a
    panic) or 65.  The status is 1 exactly when there are fewer than three
    arguments, the command is not [tokenize], or the file cannot be read;
    it is 2 only when the file ends with digits and a ['.']. *)
Theorem main_exit_status Args (fs : FileSystem) p :
  exists code,
    exit_status (main Args fs p) = Some code
    /\ (code = 0 \/ code = 1 \/ code = 2 \/ code = 65)
    /\ (code = 1 <-> Rejected Args fs)
    /\ (code = 2 ->
        exists pre c ds',
          fs (nth 2 Args "") = inl (pre ++ String c ds' ++ ".")
          /\ all isDigit (String c ds') = true).
Proof.
  destruct (Rejected_dec Args fs) as [R | (L & C & src & F)].
  - destruct (main_rejects Args fs p R) as (m & _ & ->).
    exists 1. cbn. repeat split; auto. discriminate.
  - assert (NR : ~ Rejected Args fs).
    { intros [R | [R | [err R]]]; [lia | contradiction | congruence]. }
    rewrite (main_scans _ _ _ _ L C F).
    pose proof (scan_source_result src (logged p)) as HS.
    destruct (scan_source src (logged p)) as [toks p1 | e | |];
      cbn in HS; try contradiction.
    + destruct (hadError p1); [exists 65 | exists 0]; cbn;
        repeat split; auto; try discriminate; try tauto.
    + exists 2. cbn. repeat split; auto; try discriminate; try tauto.
      destruct HS as (_ & pre & c & ds' & -> & A). eauto.
Qed.

(** X16.  When [main] ends with status 1 it has not scanned anything: the
    primary output and the error flag are as they were, and the secondary
    output holds two more lines, the greeting and one of the usage line,
    the unknown-command line or the file error. *)
Theorem main_status_1_prints_no_token Args (fs : FileSystem) p q :
  main Args fs p = Exit 1 q ->
  stdout q = stdout p
  /\ hadError q = hadError p
  /\ exists m,
      rejection Args fs m
      /\ stderr q
         = (stderr p
            ++ [("Logs from your program will appear here!" ++ newline)%string;
                m])%list.
Proof.
  intros H. destruct (Rejected_dec Args fs) as [R | (L & C & src & F)].
  - destruct (main_rejects Args fs p R) as (m & Hm & E).
    rewrite E in H. injection H as <-. cbn. eauto.
  - rewrite (main_scans _ _ _ _ L C F) in H.
    pose proof (scan_source_result src (logged p)) as HS.
    destruct (scan_source src (logged p)) as [toks p1 | e | |];
      cbn in HS; try contradiction; try discriminate H.
    destruct (hadError p1); discriminate H.
Qed.

End Main.

(** ** The bounds of [peekNext] *)

Section Bounds.

Context {rt : GoRuntime}.

Implicit Types (scan : Scanner) (p : Process).

#[local] Arguments Nat.ltb : simpl never.

(** X17.  [peekNext] panics exactly when the cursor is on the last byte of
    the source: its guard lets the index [len(source)] through.  In every
    other state it returns, without a change of state, the byte after the
    cursor, or the NUL byte when there is none. *)
Theorem peekNext_panics_on_last_byte scan p :
  (current scan + 1 = len (source scan) ->
   peekNext (scan, p)
   = Panic (IndexOutOfRange (len (source scan)) (len (source scan))))
  /\ (current scan + 1 <> len (source scan) ->
      peekNext (scan, p)
      = Ok (byte_at (source scan) (current scan + 1)) (scan, p)).
Proof.
  rewrite peekNext_eq. split; intros H.
  - replace (len (source scan) <? current scan + 1) with false
      by (symmetry; apply Nat.ltb_ge; lia).
    replace (current scan + 1 <? len (source scan)) with false
      by (symmetry; apply Nat.ltb_ge; lia).
    reflexivity.
  - destruct (len (source scan) <? current scan + 1) eqn:E1.
    + apply Nat.ltb_lt in E1. unfold byte_at.
      replace (String.get (current scan + 1) (source scan)) with (@None ascii)
        by (symmetry; apply get_None_iff; lia).
      reflexivity.
    + apply Nat.ltb_ge in E1.
      replace (current scan + 1 <? len (source scan)) with true
        by (symmetry; apply Nat.ltb_lt; lia).
      reflexivity.
Qed.

End Bounds.

(** ** The prompt *)

Section Prompt.

Context {rt : GoRuntime}.

Implicit Types (p : Process).

Lemma nonempty_app {A} (a b : list A) :
  nonempty (a ++ b) = nonempty a || nonempty b.
Proof. destruct a; reflexivity. Qed.

(** [Run] on a line whose scan returns. *)
Lemma Run_line line p :
  line_returns line ->
  Run line p
  = Ok tt {| hadError := hadError p || nonempty (line_diagnostics line);
             stdout := stdout p ++ map record_of (line_tokens line);
             stderr := stderr p ++ line_diagnostics line |}.
Proof.
  intros (toks & d & E). rewrite Run_eq, scan_source_frame.
  unfold line_tokens, line_diagnostics.
  pose proof (scan_source_result line process_start) as HS.
  rewrite E in HS |- *. cbn in HS.
  destruct HS as (_ & Ho & msgs & Hm & He). cbn in Ho, Hm, He.
  unfold printed, pappend. cbn [hadError stdout stderr].
  rewrite Ho, Hm, He, app_nil_r. reflexivity.
Qed.

(** [Run] on a line whose scan panics. *)
Lemma Run_line_panics line p e :
  scan_source line process_start = Panic e -> Run line p = Panic e.
Proof. intros E. now rewrite Run_eq, scan_source_frame, E. Qed.

Lemma Run_line_returns line p q :
  Run line p = Ok tt q -> line_returns line.
Proof.
  rewrite Run_eq, scan_source_frame. unfold line_returns.
  destruct (scan_source line process_start) as [toks d | | |]; try discriminate.
  eauto.
Qed.

Lemma prompt_loop_returns stdin p :
  Forall line_returns stdin ->
  prompt_loop stdin p
  = Ok tt {| hadError := hadError p || nonempty (prompt_stderr stdin);
             stdout := stdout p ++ prompt_stdout stdin;
             stderr := stderr p ++ prompt_stderr stdin |}.
Proof.
  intros H. revert p. induction H as [|line rest Hl _ IH]; intros p.
  - cbn. rewrite orb_false_r, !app_nil_r. now destruct p.
  - cbn [prompt_loop]. unfold bind at 1. rewrite (Run_line _ _ Hl).
    unfold bind at 1. unfold fmt_Print, Printf. cbn [hadError stdout stderr].
    rewrite IH. cbn [hadError stdout stderr].
    unfold prompt_stdout, prompt_stderr. cbn [flat_map].
    rewrite nonempty_app, orb_assoc, <- !app_assoc. reflexivity.
Qed.

Lemma prompt_loop_Ok stdin p q :
  prompt_loop stdin p = Ok tt q -> Forall line_returns stdin.
Proof.
  revert p. induction stdin as [|line rest IH]; intros p H; [constructor|].
  cbn [prompt_loop] in H. unfold bind at 1 in H.
  destruct (Run line p) as [[] p1 | | |] eqn:E; try discriminate H.
  constructor; [eapply Run_line_returns; eauto|].
  unfold bind at 1 in H. unfold fmt_Print, Printf in H. eapply IH, H.
Qed.

Lemma prompt_loop_panics before line after p e :
  Forall line_returns before ->
  scan_source line process_start = Panic e ->
  prompt_loop (before ++ line :: after) p = Panic e.
Proof.
  intros H E. revert p. induction H as [|l rest Hl _ IH]; intros p.
  - cbn [app prompt_loop]. unfold bind at 1. now rewrite (Run_line_panics _ _ _ E).
  - cbn [app prompt_loop]. unfold bind at 1. rewrite (Run_line _ _ Hl).
    unfold bind at 1. unfold fmt_Print, Printf. apply IH.
Qed.

(** X18.  A session of the prompt that ends normally has scanned every
    line as a source of its own, each from line 1: the primary output is
    the first prompt, then for each line its records followed by a
    prompt, then the farewell; the secondary output is the diagnostics of
    the lines in order; and the error flag, which the prompt never
    clears, is raised as soon as some line has a diagnostic. *)
Theorem RunPrompt_session stdin p q :
  RunPrompt stdin p = Ok tt q ->
  stdout q
  = (stdout p ++ ["> "]
     ++ prompt_stdout stdin
     ++ [(newline ++ "Exit" ++ newline)%string])%list
  /\ stderr q = (stderr p ++ prompt_stderr stdin)%list
  /\ hadError q = hadError p || nonempty (prompt_stderr stdin)
  /\ Forall line_returns stdin.
Proof.
  intros H. unfold RunPrompt in H. unfold bind at 1 in H.
  unfold fmt_Print at 1, Printf in H.
  unfold bind at 1 in H.
  destruct (prompt_loop stdin _) as [[] p1 | | |] eqn:E; try discriminate H.
  pose proof (prompt_loop_Ok _ _ _ E) as R.
  rewrite (prompt_loop_returns _ _ R) in E. injection E as <-.
  unfold fmt_Print, Printf in H. cbn [hadError stdout stderr] in H.
  injection H as <-. cbn [hadError stdout stderr].
  rewrite <- !app_assoc. repeat split; auto.
Qed.

(** X19.  The prompt does not outlive a panic: when the scan of a line
    panics, as on a line that ends with digits and a ['.'], the session
    panics there, whatever the lines before it held and whatever follows. *)
Theorem RunPrompt_panics before line after p e :
  Forall line_returns before ->
  scan_source line process_start = Panic e ->
  RunPrompt (before ++ line :: after) p = Panic e.
Proof.
  intros H E. unfold RunPrompt. unfold bind at 1. unfold fmt_Print at 1, Printf.
  unfold bind at 1. now rewrite (prompt_loop_panics _ _ _ _ _ H E).
Qed.

Lemma line_of_single (src : string) (i : nat) :
  newlines src = 0 -> i <= len src -> line_of src i = 1.
Proof.
  intros N L. pose proof (line_of_le src i (len src) L) as H.
  rewrite line_of_all, N in H. unfold line_of in *. lia.
Qed.

(** X20.  A line of the prompt holds no newline, so every token of the
    line is on line 1 and every diagnostic of the line starts with
    [[line 1] Error: ], however many lines the session has read. *)
Theorem prompt_line_is_line_1 (line : string) :
  newlines line = 0 ->
  Forall (fun tok => Token.line tok = 1) (line_tokens line)
  /\ Forall (fun m => exists text, m = "[line 1] Error: " ++ text ++ newline)
       (line_diagnostics line).
Proof.
  intros N. unfold line_tokens, line_diagnostics.
  destruct (scan_source line process_start) as [toks d | | |] eqn:E;
    try (split; constructor).
  split.
  - destruct (scan_source_lines _ _ _ _ E) as [_ B].
    eapply Forall_impl; [|exact B]. cbv beta. intros tok Ht. lia.
  - destruct (scan_source_diagnoses _ _ _ _ E) as (msgs & -> & HF).
    cbn [stderr process_start app].
    eapply Forall_impl; [|exact HF]. cbv beta.
    intros m [(i & c & G & _ & ->) | (i & G & ->)].
    + rewrite (line_of_single _ _ N) by (apply get_Some_lt in G; lia).
      eexists. reflexivity.
    + rewrite (line_of_single _ _ N) by lia. eexists. reflexivity.
Qed.

End Prompt.

(** ** The evaluator *)

Section Evaluator.

Context {rt : GoRuntime} {fa : Float64Arith}.

Lemma to_any_not_float64 (Value : option LoxLiteral) x :
  to_any Value <> any_float64 x.
Proof. destruct Value; discriminate. Qed.

(** What [Accept] gives, by the expression. *)
Lemma Accept_result (expr : Expr) :
  match Accept expr with
  | inl v => exists Value, expr = Literal Value /\ v = to_any Value
  | inr e => not_a_float64 e
  end.
Proof.
  induction expr as [| | Value | | Left IHL Right IHR Op];
    cbn [Accept VisitLiteralExpr]; try (left; reflexivity); eauto.
  unfold VisitBinaryExpr.
  destruct (Accept Left) as [v | e]; cbn [eval_bind].
  - destruct IHL as (Value & _ & ->).
    destruct Value; cbn [to_any assert_float64 eval_bind];
      right; eexists; split; try reflexivity; discriminate.
  - exact IHL.
Qed.

(** X21.  The evaluator never computes: evaluating a [Binary] expression
    always panics, on a nil pointer or interface or on the type assertion
    of the left operand, whose value is a [LoxLiteral] or [nil] and never
    a [float64]; the right operand is not evaluated and the operator is
    not looked at.  Only a [Literal] evaluates, to its own value. *)
Theorem Evaluator_panics_on_Binary (Left Right : Expr) (Op : string) :
  (exists e, Accept (Binary Left Right Op) = inr e /\ not_a_float64 e)
  /\ (forall Right' Op',
         Accept (Binary Left Right' Op') = Accept (Binary Left Right Op))
  /\ (forall expr v,
         Accept expr = inl v ->
         exists Value, expr = Literal Value /\ v = to_any Value).
Proof.
  assert (P : forall R O, exists e,
               Accept (Binary Left R O) = inr e /\ not_a_float64 e
               /\ forall R' O', Accept (Binary Left R' O') = inr e).
  { intros R O. pose proof (Accept_result Left) as HL.
    cbn [Accept]. unfold VisitBinaryExpr.
    destruct (Accept Left) as [v | e]; cbn [eval_bind].
    - destruct HL as (Value & _ & ->).
      destruct Value; cbn [to_any assert_float64 eval_bind];
        eexists; (split; [reflexivity|]);
        (split; [right; eexists; split; [reflexivity | discriminate]
                | reflexivity]).
    - exists e. auto. }
  repeat split.
  - destruct (P Right Op) as (e & E & N & _). eauto.
  - intros R' O'. destruct (P Right Op) as (e & E & _ & A).
    now rewrite E, A.
  - intros expr v E. pose proof (Accept_result expr) as H.
    now rewrite E in H.
Qed.

End Evaluator.

(** * More properties on concrete sources *)

Section More_examples.

#[local] Existing Instance text_runtime.

(** X1 on the first turn of [var x]. *)
Lemma turn_moves_cursor_witness :
  source after_var = "var x"
  /\ start after_var = 0
  /\ 0 < current after_var
  /\ current after_var <= 5
  /\ line after_var = 1 + newlines (substring 0 (current after_var - 0) "var x").
Proof.
  exact (turn_moves_cursor (NewScanner "var x") process_start after_var
           process_start eq_refl).
Defined.

(** X2 on the first turn of [var x]. *)
Lemma turn_output_witness :
  stdout process_start = stdout process_start
  /\ ((tokens after_var = [] /\ process_start = process_start)
      \/ (exists _type literal,
             _type <> EOF
             /\ tokens after_var
                = ([] ++ [Token.mk _ _type (substring 0 (3 - 0) "var x") literal
                            (line after_var)])%list
             /\ process_start = process_start)
      \/ (exists message,
             tokens after_var = []
             /\ hadError process_start = true
             /\ stderr process_start
                = ([] ++ [diagnostic (line after_var) message])%list)).
Proof.
  exact (turn_output (NewScanner "var x") process_start after_var
           process_start eq_refl).
Defined.

(** X3 on the source [(]. *)
Lemma punctuation_token_witness :
  scanStep (NewScanner "(", process_start)
  = Ok tt ({| source := "(";
              tokens := [Token.mk _ LEFT_PAREN "(" LoxEmptyLiteral 1];
              start := 0; current := 1; line := 1 |}, process_start).
Proof.
  exact (punctuation_token (NewScanner "(") process_start "("%char LEFT_PAREN
           eq_refl (or_introl eq_refl)).
Defined.

(** X4 on the sources [!=] and [!a]. *)
Lemma operator_token_witness :
  scanStep (NewScanner "!=", process_start)
  = Ok tt ({| source := "!=";
              tokens := [Token.mk _ BANG_EQUAL "!=" LoxEmptyLiteral 1];
              start := 0; current := 2; line := 1 |}, process_start)
  /\ scanStep (NewScanner "!a", process_start)
     = Ok tt ({| source := "!a";
                 tokens := [Token.mk _ BANG "!" LoxEmptyLiteral 1];
                 start := 0; current := 1; line := 1 |}, process_start).
Proof.
  split.
  - exact (proj1 (operator_token (NewScanner "!=") process_start "!"%char
                    BANG BANG_EQUAL eq_refl (or_introl eq_refl)) eq_refl).
  - apply (proj2 (operator_token (NewScanner "!a") process_start "!"%char
                    BANG BANG_EQUAL eq_refl (or_introl eq_refl))).
    discriminate.
Defined.

(** X5 on the sources [/2] and [//ab], a newline, [c]. *)
Lemma slash_or_comment_witness :
  scanStep (NewScanner "/2", process_start)
  = Ok tt ({| source := "/2";
              tokens := [Token.mk _ SLASH "/" LoxEmptyLiteral 1];
              start := 0; current := 1; line := 1 |}, process_start)
  /\ scanStep (NewScanner ("//ab" ++ newline ++ "c"), process_start)
     = Ok tt ({| source := "//ab" ++ newline ++ "c";
                 tokens := [];
                 start := 0; current := 4; line := 1 |}, process_start).
Proof.
  split.
  - apply (proj1 (slash_or_comment (NewScanner "/2") process_start eq_refl)).
    discriminate.
  - exact (proj2 (slash_or_comment (NewScanner ("//ab" ++ newline ++ "c"))
                    process_start eq_refl)
             "ab" (newline ++ "c") eq_refl eq_refl eq_refl).
Defined.

(** X6 on a source that is one newline. *)
Lemma blank_or_newline_witness :
  scanStep (NewScanner newline, process_start)
  = Ok tt ({| source := newline; tokens := [];
              start := 0; current := 1; line := 2 |}, process_start).
Proof.
  exact (blank_or_newline (NewScanner newline) process_start NEWLINE
           eq_refl (or_intror eq_refl)).
Defined.

(** X7 on the source [#]. *)
Lemma unexpected_character_witness :
  scanStep (NewScanner "#", process_start)
  = Ok tt ({| source := "#"; tokens := [];
              start := 0; current := 1; line := 1 |},
           {| hadError := true;
              stdout := [];
              stderr := ["[line 1] Error: Unexpected character: #" ++ newline] |}).
Proof.
  exact (unexpected_character (NewScanner "#") process_start "#"%char
           eq_refl eq_refl).
Defined.

(** X8 on the source [12.5.]: the second ['.'] is left. *)
Lemma number_with_fraction_witness :
  scanStep (NewScanner "12.5.", process_start)
  = Ok tt ({| source := "12.5.";
              tokens := [Token.mk _ NUMBER "12.5" (LoxNumber "12.5") 1];
              start := 0; current := 4; line := 1 |}, process_start).
Proof.
  exact (number_with_fraction (NewScanner "12.5.") process_start
           "" "1"%char "2" "5"%char "" "."
           eq_refl eq_refl eq_refl eq_refl eq_refl).
Defined.

(** X9 on the source [12;]. *)
Lemma number_without_fraction_witness :
  scanStep (NewScanner "12;", process_start)
  = Ok tt ({| source := "12;";
              tokens := [Token.mk _ NUMBER "12" (LoxNumber "12") 1];
              start := 0; current := 2; line := 1 |}, process_start).
Proof.
  exact (number_without_fraction (NewScanner "12;") process_start
           "" "1"%char "2" ";" eq_refl eq_refl eq_refl eq_refl).
Defined.

(** X10 on the source [var x = 12;]. *)
Lemma tokens_tile_source_witness :
  exists body,
    var_x_tokens = (body ++ [EOF_token (line_of "var x = 12;" 11)])%list
    /\ Tiled "var x = 12;" 0 body
    /\ length body <= 11.
Proof.
  assert (E : scan_source "var x = 12;" process_start
              = Ok var_x_tokens process_start) by reflexivity.
  exact (tokens_tile_source "var x = 12;" process_start var_x_tokens
           process_start E).
Defined.

(** X11 on the source [a # b]. *)
Lemma diagnostics_are_of_two_kinds_witness :
  exists msgs,
    ["[line 1] Error: Unexpected character: #" ++ newline]
    = ([] ++ msgs)%list
    /\ true = false || nonempty msgs
    /\ @nil string = []
    /\ Forall (Diagnosed "a # b") msgs.
Proof.
  assert (E : scan_source "a # b" process_start
              = Ok a_b_tokens
                  (reported process_start 1 "Unexpected character: #"))
    by reflexivity.
  exact (diagnostics_are_of_two_kinds "a # b" process_start a_b_tokens
           (reported process_start 1 "Unexpected character: #") E).
Defined.

(** X12 on the source [var x = 12;]. *)
Lemma clean_source_scans_clean_witness :
  exit_status
    (main ["golox"; "tokenize"; "test.lox"] (fun _ => inl "var x = 12;")
       process_start)
  = Some 0.
Proof.
  exact (proj2 (proj2 (clean_source_scans_clean "var x = 12;" eq_refl))
           "golox" "test.lox" (fun _ => inl "var x = 12;") eq_refl eq_refl).
Defined.

(** X13 on the source [var x = 12;]. *)
Lemma tokens_determined_by_lexemes_witness : Forall FromLexeme var_x_tokens.
Proof.
  assert (E : scan_source "var x = 12;" process_start
              = Ok var_x_tokens process_start) by reflexivity.
  exact (proj1 (tokens_determined_by_lexemes "var x = 12;" process_start
                  var_x_tokens process_start E)).
Defined.

(** X14 on the source [a # b], which has one line. *)
Lemma token_lines_ascend_witness :
  Forall (fun tok => Token.line tok = 1) a_b_tokens.
Proof.
  assert (E : scan_source "a # b" process_start
              = Ok a_b_tokens
                  (reported process_start 1 "Unexpected character: #"))
    by reflexivity.
  exact (proj2 (proj2 (token_lines_ascend "a # b" process_start a_b_tokens
                         (reported process_start 1 "Unexpected character: #") E))
           eq_refl).
Defined.

(** X16 on a command line without arguments. *)
Lemma main_status_1_prints_no_token_witness :
  stdout usage_process = stdout process_start
  /\ hadError usage_process = hadError process_start
  /\ exists m,
      rejection ["golox"] (fun _ => inl "") m
      /\ stderr usage_process
         = (stderr process_start
            ++ [("Logs from your program will appear here!" ++ newline)%string;
                m])%list.
Proof.
  exact (main_status_1_prints_no_token ["golox"] (fun _ => inl "")
           process_start usage_process eq_refl).
Defined.

(** X18 on a session of two lines, [var x] and [#]. *)
Lemma RunPrompt_session_witness :
  stdout session_process
  = (stdout process_start ++ ["> "]
     ++ prompt_stdout ["var x"; "#"]
     ++ [(newline ++ "Exit" ++ newline)%string])%list
  /\ stderr session_process
     = (stderr process_start ++ prompt_stderr ["var x"; "#"])%list
  /\ hadError session_process
     = hadError process_start || nonempty (prompt_stderr ["var x"; "#"])
  /\ Forall line_returns ["var x"; "#"].
Proof.
  assert (E : RunPrompt ["var x"; "#"] process_start = Ok tt session_process)
    by reflexivity.
  exact (RunPrompt_session ["var x"; "#"] process_start session_process E).
Defined.

(** X19 on a session whose second line is [1.]. *)
Lemma RunPrompt_panics_witness :
  RunPrompt ["var x"; "1."; "print"] process_start
  = Panic (IndexOutOfRange 2 2).
Proof.
  assert (E : scan_source "var x" process_start
              = Ok var_x_line_tokens process_start) by reflexivity.
  exact (RunPrompt_panics ["var x"] "1." ["print"] process_start
           (IndexOutOfRange 2 2)
           (Forall_cons _
              (ex_intro _ var_x_line_tokens (ex_intro _ process_start E))
              (Forall_nil _))
           eq_refl).
Defined.

(** X20 on the line [a # b]. *)
Lemma prompt_line_is_line_1_witness :
  Forall (fun tok => Token.line tok = 1) (line_tokens "a # b")
  /\ Forall (fun m => exists text, m = "[line 1] Error: " ++ text ++ newline)
       (line_diagnostics "a # b").
Proof. exact (prompt_line_is_line_1 "a # b" eq_refl). Defined.

End More_examples.
